(** * The structured-logging service of oauth-node

    A shallow embedding of the class [LoggingService]
    ([src/logging/logging.service.ts], with the interfaces
    [LoggerConfig], [RequestLoggingConfig] and [LogEntry] it works on)
    together with the properties its specification states about it.

    The service works on ordinary JavaScript data: objects are mutable,
    they are shared by reference, and the redaction pass overwrites them
    in place.  The embedding therefore keeps an explicit object store
    ([heap]); every method of the service is a function on that store,
    and a method that can throw returns an [outcome].

    What the model covers: plain data, that is, [undefined], [null],
    booleans, numbers, strings, arrays and objects whose properties are
    data properties (no accessors, no frozen objects, no proxies, no
    functions).  The platform (clock, process, host) and the two
    built-ins the service leans on ([JSON.stringify] and the winston
    logger) are parameters or separate models.

    The configuration code the service is built on comes after it: the
    helpers of [src/config/validation/env.validation.ts] and
    [loadConfiguration] of [src/config/config.service.ts], over the
    same values and the same store. *)

From Stdlib Require Import ZArith QArith String Ascii List Bool Lia DecimalString.
From stdpp Require Import base option list strings.

Local Open Scope Z_scope.
Local Open Scope string_scope.
Local Open Scope list_scope.

(** ** Strings

    A character of a Rocq string stands for one UTF-16 code unit below
    256, so [String.length] is the [length] property of the JavaScript
    string. *)

Module Str.

(** [String.prototype.toLowerCase] on that range: the capital letters
    are A-Z and the Latin-1 capitals (192-222 except the multiplication
    sign 215); each maps to the code 32 above it. *)
Definition lower_char (c : ascii) : ascii :=
  let n := N_of_ascii c in
  if ((65 <=? n) && (n <=? 90) ||
      (192 <=? n) && (n <=? 222) && negb (n =? 215))%N
  then ascii_of_N (n + 32) else c.

Fixpoint toLowerCase (s : string) : string :=
  match s with
  | EmptyString => EmptyString
  | String c s' => String (lower_char c) (toLowerCase s')
  end.

(** [Array.prototype.includes] on an array of strings. *)
Definition includes (l : list string) (s : string) : bool :=
  existsb (String.eqb s) l.

(** [s.substring(0, n)]: a negative [n] counts as 0 and an [n] past
    the end as the length. *)
Definition substring0 (s : string) (n : Z) : string :=
  String.substring 0 (Z.to_nat n) s.

(** [s.length] as a JavaScript number. *)
Definition len (s : string) : Z := Z.of_nat (String.length s).

End Str.

(** ** Values and the object store *)

Abbreviation loc := nat.

(** A JavaScript value: a primitive or a reference to an object of the
    store.  Numbers are kept as exact rationals (the rounding of doubles
    is outside the model). *)
Inductive val :=
| VUndef
| VNull
| VBool (b : bool)
| VNum (q : Q)
| VStr (s : string)
| VRef (l : loc).

(** An object.  [props] are its own enumerable properties in the order
    [for ... in] visits them; [hidden] are the properties a read finds
    but an enumeration or a spread skips (non-enumerable own ones such as
    [message] and [stack] of an [Error], and inherited ones such as its
    [name]); [is_array] tells arrays, whose enumerable keys are their
    indices, from plain objects.  The keys of an object are distinct;
    a read and a write both go to the first property of a key, so
    nothing below depends on it. *)
Record obj := Obj {
  is_array : bool;
  props : list (string * val);
  hidden : list (string * val)
}.

Abbreviation heap := (list obj).

Definition plain (ps : list (string * val)) : obj := Obj false ps [].

Module JS.

(** Truthiness ([if (v)], [!v], [v ? a : b]). *)
Definition truthy (v : val) : bool :=
  match v with
  | VUndef | VNull => false
  | VBool b => b
  | VNum q => negb (Z.eqb (Qnum q) 0)
  | VStr s => negb (String.eqb s EmptyString)
  | VRef _ => true
  end.

(** [typeof v === 'object'] ([null] included, as in JavaScript). *)
Definition typeof_object (v : val) : bool :=
  match v with
  | VNull | VRef _ => true
  | _ => false
  end.

Fixpoint assoc (k : string) (ps : list (string * val)) : option val :=
  match ps with
  | [] => None
  | (k', v) :: ps' => if String.eqb k k' then Some v else assoc k ps'
  end.

(** [o[k]] on an object: own enumerable properties first, then the
    hidden ones; [undefined] when there is none. *)
Definition get_prop (o : obj) (k : string) : val :=
  match assoc k (props o) with
  | Some v => v
  | None => default VUndef (assoc k (hidden o))
  end.

(** [o[k] = v] on the enumerable properties: an existing key keeps its
    place, a new key goes last. *)
Fixpoint set_assoc (k : string) (v : val) (ps : list (string * val))
  : list (string * val) :=
  match ps with
  | [] => [(k, v)]
  | (k', v') :: ps' =>
      if String.eqb k k' then (k', v) :: ps' else (k', v') :: set_assoc k v ps'
  end.

Definition set_prop (o : obj) (k : string) (v : val) : obj :=
  Obj (is_array o) (set_assoc k v (props o)) (hidden o).

(** [for (const key in o)]: the enumerable keys. *)
Definition keys (o : obj) : list string := map fst (props o).

(** [obj[key]] where [obj] is the object at [l]. *)
Definition get (h : heap) (l : loc) (k : string) : val :=
  match h !! l with
  | Some o => get_prop o k
  | None => VUndef
  end.

(** The value under the enumerable key [k] of the object at [l], if it
    has that key. *)
Definition field (h : heap) (l : loc) (k : string) : option val :=
  match h !! l with
  | Some o => assoc k (props o)
  | None => None
  end.

(** [obj[key] = v] where [obj] is the object at [l]. *)
Definition store (h : heap) (l : loc) (k : string) (v : val) : heap :=
  match h !! l with
  | Some o => <[l := set_prop o k v]> h
  | None => h
  end.

(** A new object goes at the end of the store. *)
Definition alloc (o : obj) (h : heap) : loc * heap :=
  (length h, h ++ [o]).

(** [v.k] and [v?.k].  On [null] and [undefined] the optional chain
    gives [undefined]; a primitive has none of the properties this
    program asks for ([length], indices and methods of the wrapper
    objects are not modelled). *)
Definition member (h : heap) (v : val) (k : string) : val :=
  match v with
  | VRef l => get h l k
  | _ => VUndef
  end.

(** The key of the [i]-th element of an array or character of a
    string. *)
Definition index_key (i : nat) : string :=
  NilZero.string_of_uint (Nat.to_uint i).

(** Such a key starts with a digit. *)
Definition starts_with_digit (s : string) : bool :=
  match s with
  | String c _ => (48 <=? N_of_ascii c)%N && (N_of_ascii c <=? 57)%N
  | EmptyString => false
  end.

(** What a spread [...v] copies: the own enumerable properties, each
    read through [v[k]]; the characters of a string under their
    indices; nothing for the other primitives. *)
Definition own_enumerable (h : heap) (v : val) : list (string * val) :=
  match v with
  | VRef l =>
      match h !! l with
      | Some o => map (fun k => (k, get_prop o k)) (keys o)
      | None => []
      end
  | VStr s =>
      imap (fun i c => (index_key i, VStr (String c EmptyString)))
           (list_ascii_of_string s)
  | _ => []
  end.

(** An object literal [{k1: v1, ..., kn: vn}], spreads expanded: a
    key written twice keeps its first place and its last value. *)
Definition literal (entries : list (string * val)) : obj :=
  plain (fold_left (fun ps e => set_assoc e.1 e.2 ps) entries []).

End JS.

(** ** The redaction engine *)

Module Redaction.
Import JS.

Definition REDACTED : string := "[REDACTED]".

(** One turn of the loop body of [redactSensitiveData] for the object
    at [l], with [recurse] standing for the recursive call at
    [depth + 1]. *)
Definition redactKey (recurse : val -> heap -> heap)
    (fields : list string) (l : loc) (h : heap) (key : string) : heap :=
  if Str.includes fields (Str.toLowerCase key) then
    store h l key (VStr REDACTED)
  else if typeof_object (get h l key) then
    recurse (get h l key) h
  else h.

(** [redactLevels n] is [redactSensitiveData] with [n] levels left
    before the depth cap: [n = 11 - depth], so that [n = 0] is the
    guard [depth > 10]. *)
Fixpoint redactLevels (n : nat) (fields : list string) (v : val)
    (h : heap) : heap :=
  match n with
  | O => h
  | S n' =>
      match v with
      | VRef l =>
          match h !! l with
          | Some o =>
              fold_left (redactKey (redactLevels n' fields) fields l)
                        (keys o) h
          | None => h
          end
      | _ => h
      end
  end.

(** [redactSensitiveData(obj, fields, depth)]; the store is the
    mutable state it works on. *)
Definition redactSensitiveData (obj : val) (fields : list string)
    (depth : nat) (h : heap) : heap :=
  redactLevels (11 - depth) fields obj h.

(** *** Vocabulary of the properties *)

(** The test of the loop: the lower-cased key is one of [fields]. *)
Definition matches (fields : list string) (key : string) : bool :=
  Str.includes fields (Str.toLowerCase key).

(** A key matches a field name "in any letter case": some configured
    name and the key are equal once both are lower-cased. *)
Definition ci_match (fields : list string) (key : string) : bool :=
  existsb (fun f => String.eqb (Str.toLowerCase f) (Str.toLowerCase key))
          fields.

(** The configured names are written in lower case, as the list of
    [loadLoggerConfig] is. *)
Definition lowercase (fields : list string) : Prop :=
  Forall (fun f => Str.toLowerCase f = f) fields.

(** The value a path of keys leads to, starting from [v]. *)
Fixpoint walk (h : heap) (v : val) (path : list string) : option val :=
  match path with
  | [] => Some v
  | k :: path' =>
      match v with
      | VRef l =>
          match field h l k with
          | Some x => walk h x path'
          | None => None
          end
      | _ => None
      end
  end.

(** The object at [l] lies at depth [d] below [root]: a path of [d]
    keys leads to it ([root] itself is at depth 0, the value of the
    [depth] parameter on the first call). *)
Definition at_depth (h : heap) (root : val) (d : nat) (l : loc) : Prop :=
  exists path, length path = d /\ walk h root path = Some (VRef l).

(** No key of the path matches a field name in any letter case. *)
Definition unmatched (fields : list string) (path : list string) : Prop :=
  Forall (fun k => ci_match fields k = false) path.

(** C1 as the specification words it, for a run at depth 0 from [root]
    in the store [h]: afterwards every key, in an object at depth at
    most 10, that matches a field name in any letter case holds the
    marker; and an object that lies deeper than 10 is as it was. *)
Definition redaction_claim (fields : list string) (h : heap) (root : val)
  : Prop :=
  let h' := redactSensitiveData root fields 0 h in
  (forall d l k x,
     (d <= 10)%nat -> at_depth h' root d l -> field h' l k = Some x ->
     ci_match fields k = true -> x = VStr REDACTED) /\
  (forall l,
     (forall d, (d <= 10)%nat -> ~ at_depth h root d l) -> h' !! l = h !! l).

(** C10 as it is worded: a key that matches in any letter case, in an
    object reached through at most 10 keys that do not match, has its
    whole value replaced by the marker, whatever the value is; and only
    the objects reached through such keys are ever written. *)
Definition wholesale_claim (fields : list string) (h : heap) (root : val)
  : Prop :=
  let h' := redactSensitiveData root fields 0 h in
  (forall path l k x,
     (length path <= 10)%nat -> unmatched fields path ->
     walk h root path = Some (VRef l) -> field h l k = Some x ->
     ci_match fields k = true -> field h' l k = Some (VStr REDACTED)) /\
  (forall l,
     (forall path, (length path <= 10)%nat -> unmatched fields path ->
        walk h root path <> Some (VRef l)) ->
     h' !! l = h !! l).

(** What a run may do to the store: an enumerable property keeps its
    key and its place, and its value either stays or, under a key the
    loop test accepts, becomes the marker.  Nothing else changes. *)
Definition entry_le (fields : list string) (p p' : string * val) : Prop :=
  p'.1 = p.1 /\
  (p'.2 = p.2 \/ (matches fields p.1 = true /\ p'.2 = VStr REDACTED)).

Definition obj_le (fields : list string) (o o' : obj) : Prop :=
  is_array o' = is_array o /\ hidden o' = hidden o /\
  Forall2 (entry_le fields) (props o) (props o').

Definition heap_le (fields : list string) (h h' : heap) : Prop :=
  Forall2 (obj_le fields) h h'.

End Redaction.

(** ** Configuration ([logger-config.interface.ts], [log-entry.interface.ts]) *)

Module Interfaces.

(** [LoggerConfig], with the fields [loadLoggerConfig] sets. *)
Record LoggerConfig := {
  level : string;
  prettyPrint : bool;
  logDir : option string;
  console : bool;
  timestampFormat : string;
  correlationId : bool;
  redactedFields : list string;
  captureStackTrace : bool;
  includeMetadata : bool
}.

Record RequestLoggingConfig := {
  logRequestBody : bool;
  logResponseBody : bool;
  maxBodyLength : Z;
  includedHeaders : list string;
  excludePaths : list string;
  logQueryParams : bool;
  logRouteParams : bool;
  logTiming : bool
}.

(** What the service reads of an Express request.  [req_headers] is
    the object [req.headers]; body, route parameters and query are
    whatever values the middleware left on the request. *)
Record Request := {
  req_path : string;
  req_method : string;
  req_url : string;
  req_headers : loc;
  req_body : val;
  req_params : val;
  req_query : val
}.

(** What the service reads of an Express response.  [res_headers] are
    the outgoing headers, which [res.getHeaders()] copies into a new
    object; [res_locals] is the object [res.locals]. *)
Record Response := {
  res_statusCode : Z;
  res_headers : list (string * val);
  res_locals : loc
}.

(** [process.memoryUsage()]. *)
Record MemoryUsage := {
  rss : Z;
  heapTotal : Z;
  heapUsed : Z;
  external : Z;
  arrayBuffers : Z
}.

(** The host platform.  Clock and memory figures change between two
    observations, so each is a function of the number of observations
    made so far. *)
Record Platform := {
  hostname : string;
  pid : Z;
  toISOString : nat -> string;
  memoryUsage : nat -> MemoryUsage;
  hrtime : nat -> val -> Z * Z
}.

(** The result of [JSON.stringify]: a text, [undefined] (for
    [undefined] itself and for functions), or a thrown [TypeError]
    (circular structure). *)
Inductive json :=
| Text (s : string)
| Undefined
| TypeError.

End Interfaces.

(** ** State threaded by the service *)

Module Effects.

(** A call [this.logger.<level>(message, meta)] on the winston
    logger. *)
Record logger_call := Call {
  call_level : string;
  call_message : string;
  call_meta : val
}.

Record world := World {
  objects : heap;
  observations : nat;
  calls : list logger_call
}.

Inductive outcome (A : Type) :=
| Returns (a : A) (w : world)
| Throws (w : world).
Arguments Returns {A} a w.
Arguments Throws {A} w.

Definition M (A : Type) : Type := world -> outcome A.

Definition ret {A} (a : A) : M A := fun w => Returns a w.

Definition bind {A B} (m : M A) (f : A -> M B) : M B :=
  fun w =>
    match m w with
    | Returns a w' => f a w'
    | Throws w' => Throws w'
    end.

Definition throw {A} : M A := fun w => Throws w.

(** The current store. *)
Definition snapshot : M heap := fun w => Returns (objects w) w.

(** An object literal. *)
Definition new_object (o : obj) : M val :=
  fun w =>
    let (l, h) := JS.alloc o (objects w) in
    Returns (VRef l) (World h (observations w) (calls w)).

(** [target[k] = v]; the targets of this program are objects it has
    just created, so the assignment never fails. *)
Definition assign (target : val) (k : string) (v : val) : M unit :=
  fun w =>
    match target with
    | VRef l =>
        Returns tt (World (JS.store (objects w) l k v) (observations w) (calls w))
    | _ => Returns tt w
    end.

(** One more look at the platform's clock or memory. *)
Definition observe : M nat :=
  fun w =>
    Returns (observations w)
            (World (objects w) (S (observations w)) (calls w)).

(** Hand an entry to the winston logger.  This step is the hand-over
    only: the format chain that the logger then runs on the entry for
    each transport (the transforms of [createRedactionFormat] and
    [createCustomFormat] below) is not part of it.  So the world a
    logging method returns is the world at the hand-over, and what the
    formats write afterwards, into the entry and into the objects it
    shares with the caller, is stated about those transforms. *)
Definition winston (lvl message : string) (meta : val) : M unit :=
  fun w =>
    Returns tt (World (objects w) (observations w)
                      (calls w ++ [Call lvl message meta])).

Definition when (c : bool) (m : M unit) : M unit :=
  if c then m else ret tt.

Fixpoint forEach {A} (l : list A) (f : A -> M unit) : M unit :=
  match l with
  | [] => ret tt
  | x :: l' => bind (f x) (fun _ => forEach l' f)
  end.

End Effects.

Notation "x <- m ;; k" := (Effects.bind m (fun x => k))
  (at level 100, m at next level, right associativity).
Notation "m ;;; k" := (Effects.bind m (fun _ => k))
  (at level 100, right associativity).

(** ** [JSON.stringify]

    A built-in of the language, which the service calls to measure a
    body.  The service is stated for any serializer; this one, for plain
    data (no [toJSON], no functions), is what the closed examples run. *)

Module JSON.
Import Interfaces JS.

Definition dquote : ascii := "034"%char.

Definition hex_digit (n : N) : ascii :=
  if (n <? 10)%N then ascii_of_N (48 + n) else ascii_of_N (87 + n).

(** The escapes of [QuoteJSONString]. *)
Definition escape_char (c : ascii) : string :=
  let n := N_of_ascii c in
  if (n =? 34)%N then String "\" (String dquote EmptyString)
  else if (n =? 92)%N then "\\"
  else if (n =? 8)%N then "\b"
  else if (n =? 12)%N then "\f"
  else if (n =? 10)%N then "\n"
  else if (n =? 13)%N then "\r"
  else if (n =? 9)%N then "\t"
  else if (n <? 32)%N then
    "\u00" +:+ String (hex_digit (n / 16)) (String (hex_digit (n mod 16)) EmptyString)
  else String c EmptyString.

Fixpoint escape (s : string) : string :=
  match s with
  | EmptyString => EmptyString
  | String c s' => escape_char c +:+ escape s'
  end.

Definition quote (s : string) : string :=
  String dquote (escape s +:+ String dquote EmptyString).

Definition int_text (z : Z) : string := NilZero.string_of_int (Z.to_int z).

Fixpoint fraction (digits : nat) (r d : Z) : string :=
  match digits with
  | O => EmptyString
  | S digits' =>
      if (r =? 0)%Z then EmptyString
      else String (ascii_of_N (48 + Z.to_N (r * 10 / d)))
                  (fraction digits' ((r * 10) mod d) d)
  end.

(** The text of a number: exact for integers; another rational is
    written by its decimal expansion, cut after 17 digits. *)
Definition number_text (q : Q) : string :=
  let r := Qred q in
  let n := Qnum r in
  let d := Zpos (Qden r) in
  let f := Z.abs (Z.rem n d) in
  if (f =? 0)%Z then int_text (Z.quot n d)
  else (if (n <? 0)%Z then "-" else EmptyString)
       +:+ int_text (Z.abs (Z.quot n d)) +:+ "." +:+ fraction 17 f d.

Inductive pieces :=
| Pieces (ps : list string)
| Circular
| Exhausted.

(** The texts of the properties [ks], each serialized by [item].  In an
    array an [undefined] element is written [null]; in an object a
    property whose value is [undefined] is left out. *)
Fixpoint gather (item : string -> option json) (array : bool)
    (ks : list string) : pieces :=
  match ks with
  | [] => Pieces []
  | k :: ks' =>
      match item k with
      | None => Exhausted
      | Some TypeError => Circular
      | Some Undefined =>
          match gather item array ks' with
          | Pieces ps => Pieces (if array then "null" :: ps else ps)
          | r => r
          end
      | Some (Text s) =>
          match gather item array ks' with
          | Pieces ps =>
              Pieces ((if array then s else quote k +:+ ":" +:+ s) :: ps)
          | r => r
          end
      end
  end.

(** [stack] holds the objects being serialized around [v]; meeting one
    of them again is the circular structure [JSON.stringify] throws
    on.  [n] bounds the nesting; [None] means it was too small. *)
Fixpoint stringify_within (n : nat) (h : heap) (stack : list loc)
    (v : val) : option json :=
  match v with
  | VUndef => Some Undefined
  | VNull => Some (Text "null")
  | VBool b => Some (Text (if b then "true" else "false"))
  | VNum q => Some (Text (number_text q))
  | VStr s => Some (Text (quote s))
  | VRef l =>
      match n with
      | O => None
      | S n' =>
          if bool_decide (l ∈ stack) then Some TypeError
          else
            match h !! l with
            | None => Some Undefined
            | Some o =>
                let item k :=
                  stringify_within n' h (l :: stack) (get_prop o k) in
                match gather item (is_array o) (keys o) with
                | Pieces ps =>
                    Some (Text
                      (if is_array o
                       then "[" +:+ String.concat "," ps +:+ "]"
                       else "{" +:+ String.concat "," ps +:+ "}"))
                | Circular => Some TypeError
                | Exhausted => None
                end
            end
      end
  end.

(** Nesting without a cycle is at most as deep as the store has
    objects. *)
Definition stringify (h : heap) (v : val) : json :=
  default TypeError (stringify_within (S (length h)) h [] v).

(** *** Vocabulary of the properties *)

(** A reference of a closed value points into the store; a closed
    store holds closed values only. *)
Definition closed_val (h : heap) (v : val) : Prop :=
  match v with
  | VRef l => (l < length h)%nat
  | _ => True
  end.

Definition closed (h : heap) : Prop :=
  Forall (fun o => Forall (fun p => closed_val h p.2) (props o ++ hidden o)) h.

End JSON.

(** ** The winston logger

    winston is a dependency, not code of this repository.  What the
    service relies on is modelled from the library's documented
    behaviour: the npm levels, and the rule that a transport writes an
    entry when the entry's level is at most as verbose as the
    transport's own level or, when it has none, the logger's. *)

Module Winston.

Inductive format :=
| timestamp (fmt : string)
| errors (stack : bool)
| redaction
| custom
| prettyPrint
| json.

Inductive sink :=
| Console
| File (filename : string).

Record transport := Transport {
  t_sink : sink;
  t_level : option string;
  t_format : list format
}.

Record logger := Logger {
  lg_level : string;
  lg_transports : list transport
}.

(** [winston.config.npm.levels]: the smaller the number, the more
    severe the level. *)
Definition levels (name : string) : option nat :=
  if String.eqb name "error" then Some 0%nat
  else if String.eqb name "warn" then Some 1%nat
  else if String.eqb name "info" then Some 2%nat
  else if String.eqb name "http" then Some 3%nat
  else if String.eqb name "verbose" then Some 4%nat
  else if String.eqb name "debug" then Some 5%nat
  else if String.eqb name "silly" then Some 6%nat
  else None.

(** [createLogger({level, transports})]; the level defaults to
    ['info']. *)
Definition createLogger (level : string) (transports : list transport)
  : logger :=
  Logger (if String.eqb level EmptyString then "info" else level) transports.

(** The test of a transport's [_write]:
    [levels[level] >= levels[info.level]], false when a name is not in
    the table. *)
Definition passes (level lvl : string) : bool :=
  match levels level, levels lvl with
  | Some a, Some b => (b <=? a)%nat
  | _, _ => false
  end.

(** It is applied with [level = transport.level || logger.level]. *)
Definition accepts (lg : logger) (t : transport) (lvl : string) : bool :=
  passes (match t_level t with
          | Some l => if String.eqb l EmptyString then lg_level lg else l
          | None => lg_level lg
          end) lvl.

(** The sinks an entry of level [lvl] is written to. *)
Definition delivered (lg : logger) (lvl : string) : list sink :=
  map t_sink (List.filter (fun t => accepts lg t lvl) (lg_transports lg)).

End Winston.

(** ** The service ([logging.service.ts]) *)

Module LoggingService.
Import Interfaces Effects JS.

(** [loadLoggerConfig], from the [logging] and [environment] entries
    of the configuration service. *)
Definition loadLoggerConfig (loggingLevel : string)
    (loggingFilepath : option string) (environment : string)
  : LoggerConfig :=
  {| level := loggingLevel;
     prettyPrint := String.eqb environment "development";
     logDir := loggingFilepath;
     console := true;
     timestampFormat := "YYYY-MM-DD HH:mm:ss";
     correlationId := true;
     redactedFields := ["password"; "token"; "secret"; "authorization"];
     captureStackTrace := true;
     includeMetadata := true |}.

Definition loadRequestLoggingConfig : RequestLoggingConfig :=
  {| logRequestBody := true;
     logResponseBody := true;
     maxBodyLength := 10000;
     includedHeaders := ["user-agent"; "host"; "referer"];
     excludePaths := ["/health"; "/metrics"];
     logQueryParams := true;
     logRouteParams := true;
     logTiming := true |}.

Definition num (z : Z) : val := VNum (inject_Z z).

Section Service.
Variable config : LoggerConfig.
Variable requestConfig : RequestLoggingConfig.
Variable platform : Platform.
Variable JSON_stringify : heap -> val -> json.

(** [if (this.config.logDir)]: set and not empty. *)
Definition logDir_set : option string :=
  match logDir config with
  | Some dir => if String.eqb dir EmptyString then None else Some dir
  | None => None
  end.

Definition initializeLogger : Winston.logger :=
  let baseFormat :=
    [Winston.timestamp (timestampFormat config);
     Winston.errors (captureStackTrace config);
     Winston.redaction;
     Winston.custom] in
  let transports0 :=
    if console config then
      [Winston.Transport Winston.Console None
         (baseFormat ++ [if prettyPrint config then Winston.prettyPrint
                         else Winston.json])]
    else [] in
  let transports :=
    match logDir_set with
    | Some dir =>
        transports0 ++
        [Winston.Transport (Winston.File (dir +:+ "/error.log"))
           (Some "error") baseFormat;
         Winston.Transport (Winston.File (dir +:+ "/combined.log"))
           None baseFormat]
    | None => transports0
    end in
  Winston.createLogger (level config) transports.

(** The transform of [createCustomFormat]. *)
Definition createCustomFormat (info : val) : M val :=
  (if includeMetadata config then
     t <- observe ;;
     let m := memoryUsage platform t in
     memory <- new_object
       (literal [("rss", num (rss m)); ("heapTotal", num (heapTotal m));
                 ("heapUsed", num (heapUsed m));
                 ("external", num (external m));
                 ("arrayBuffers", num (arrayBuffers m))]) ;;
     context <- new_object
       (literal [("hostname", VStr (hostname platform));
                 ("pid", num (pid platform));
                 ("memory", memory)]) ;;
     assign info "context" context
   else ret tt) ;;;
  ret info.

(** The transform of [createRedactionFormat]. *)
Definition createRedactionFormat (info : val) : M val :=
  fun w =>
    Returns info
      (World (Redaction.redactSensitiveData info (redactedFields config)
                0 (objects w))
             (observations w) (calls w)).

Definition createLogEntry (level message : string) (meta : val)
  : M val :=
  now <- observe ;;
  h <- snapshot ;;
  context <-
    (if includeMetadata config then
       t1 <- observe ;;
       t2 <- observe ;;
       memory <- new_object
         (literal
            [("heapUsed", num (heapUsed (memoryUsage platform t1)));
             ("heapTotal", num (heapTotal (memoryUsage platform t2)))]) ;;
       new_object
         (literal [("hostname", VStr (hostname platform));
                   ("pid", num (pid platform));
                   ("memory", memory)])
     else ret VUndef) ;;
  new_object
    (literal [("timestamp", VStr (toISOString platform now));
              ("level", VStr level);
              ("message", VStr message);
              ("correlationId", member h meta "correlationId");
              ("service", member h meta "service");
              ("error", member h meta "error");
              ("request", member h meta "request");
              ("response", member h meta "response");
              ("user", member h meta "user");
              ("metadata", member h meta "metadata");
              ("context", context)]).

Definition truncateBody (body : val) : M val :=
  h <- snapshot ;;
  match JSON_stringify h body with
  | Text stringified =>
      if (Str.len stringified <=? maxBodyLength requestConfig)%Z then
        ret body
      else
        new_object
          (literal
             [("_truncated", VBool true);
              ("preview",
               VStr (Str.substring0 stringified
                       (maxBodyLength requestConfig) +:+ "..."))])
  | Undefined => throw
  | TypeError => throw
  end.

Definition debug (message : string) (meta : val) : M unit :=
  entry <- createLogEntry "debug" message meta ;;
  winston "debug" message entry.

Definition info (message : string) (meta : val) : M unit :=
  entry <- createLogEntry "info" message meta ;;
  winston "info" message entry.

Definition warn (message : string) (meta : val) : M unit :=
  entry <- createLogEntry "warn" message meta ;;
  winston "warn" message entry.

Definition error (message : string) (error meta : val) : M unit :=
  h <- snapshot ;;
  block <-
    (if truthy error then
       new_object
         (literal
            ([("name", member h error "name");
              ("message", member h error "message");
              ("stack", if captureStackTrace config
                        then member h error "stack" else VUndef)]
             ++ own_enumerable h error))
     else ret VUndef) ;;
  bag <- new_object (literal (own_enumerable h meta ++ [("error", block)])) ;;
  entry <- createLogEntry "error" message bag ;;
  winston "error" message entry.

Definition logRequest (req : Request) (correlationId : val) : M unit :=
  if Str.includes (excludePaths requestConfig) (req_path req) then ret tt
  else
    headers <- new_object (literal []) ;;
    requestLog <- new_object
      (literal [("method", VStr (req_method req));
                ("url", VStr (req_url req));
                ("headers", headers);
                ("body", VUndef);
                ("params", VUndef);
                ("query", VUndef)]) ;;
    forEach (includedHeaders requestConfig) (fun header =>
      h <- snapshot ;;
      let headerValue := get h (req_headers req) header in
      when (truthy headerValue)
        (assign (member h requestLog "headers") header headerValue)) ;;;
    (if logRequestBody requestConfig && truthy (req_body req) then
       body <- truncateBody (req_body req) ;;
       assign requestLog "body" body
     else ret tt) ;;;
    when (logRouteParams requestConfig && truthy (req_params req))
      (assign requestLog "params" (req_params req)) ;;;
    when (logQueryParams requestConfig && truthy (req_query req))
      (assign requestLog "query" (req_query req)) ;;;
    bag <- new_object
      (literal [("request", requestLog); ("correlationId", correlationId)]) ;;
    info "Incoming request" bag.

Definition logResponse (res : Response) (startTime correlationId : val)
  : M unit :=
  headers <- new_object (literal (res_headers res)) ;;
  responseLog <- new_object
    (literal [("statusCode", num (res_statusCode res));
              ("headers", headers);
              ("body", VUndef);
              ("timing", VUndef)]) ;;
  (if logTiming requestConfig && truthy startTime then
     t <- observe ;;
     let (seconds, nanoseconds) := hrtime platform t startTime in
     assign responseLog "timing"
       (VNum (inject_Z seconds * inject_Z 1000
              + inject_Z nanoseconds / inject_Z 1000000)%Q)
   else ret tt) ;;;
  h <- snapshot ;;
  let bodyContent := get h (res_locals res) "bodyContent" in
  (if logResponseBody requestConfig && truthy bodyContent then
     body <- truncateBody bodyContent ;;
     assign responseLog "body" body
   else ret tt) ;;;
  bag <- new_object
    (literal [("response", responseLog); ("correlationId", correlationId)]) ;;
  info "Outgoing response" bag.

(** *** The objects these methods build *)

(** The slots of a [LogEntry] that [createLogEntry] copies from the
    metadata bag. *)
Definition optional_slots : list string :=
  ["correlationId"; "service"; "error"; "request"; "response"; "user";
   "metadata"].

(** The memory and context objects of [createLogEntry], built in a
    store [h] after [t] observations. *)
Definition context_objects (h : heap) (t : nat) : list obj :=
  if includeMetadata config then
    [literal [("heapUsed", num (heapUsed (memoryUsage platform (S t))));
              ("heapTotal", num (heapTotal (memoryUsage platform (S (S t)))))];
     literal [("hostname", VStr (hostname platform));
              ("pid", num (pid platform));
              ("memory", VRef (length h))]]
  else [].

Definition entry_object (h : heap) (t : nat) (level message : string)
    (meta : val) : obj :=
  literal [("timestamp", VStr (toISOString platform t));
           ("level", VStr level);
           ("message", VStr message);
           ("correlationId", member h meta "correlationId");
           ("service", member h meta "service");
           ("error", member h meta "error");
           ("request", member h meta "request");
           ("response", member h meta "response");
           ("user", member h meta "user");
           ("metadata", member h meta "metadata");
           ("context", if includeMetadata config
                       then VRef (S (length h)) else VUndef)].

(** The properties the loop over [includedHeaders] leaves in the
    [headers] object of the request view. *)
Definition view_headers (h : heap) (req : Request) : list (string * val) :=
  fold_left
    (fun ps header =>
       let headerValue := get h (req_headers req) header in
       if truthy headerValue then set_assoc header headerValue ps else ps)
    (includedHeaders requestConfig) [].

(** The request view: [n] is where its [headers] object lies. *)
Definition request_view (req : Request) (n : loc) (body params query : val)
  : obj :=
  plain [("method", VStr (req_method req));
         ("url", VStr (req_url req));
         ("headers", VRef n);
         ("body", body);
         ("params", params);
         ("query", query)].

(** What the steps for the route parameters and the query leave in
    it. *)
Definition params_view (req : Request) : val :=
  if logRouteParams requestConfig && truthy (req_params req)
  then req_params req else VUndef.

Definition query_view (req : Request) : val :=
  if logQueryParams requestConfig && truthy (req_query req)
  then req_query req else VUndef.

(** The response view when [logResponse] hands it over. *)
Definition response_view (res : Response) (n : loc) (timing body : val) : obj :=
  plain [("statusCode", num (res_statusCode res));
         ("headers", VRef n);
         ("body", body);
         ("timing", timing)].

(** The object [truncateBody] returns for a text over the limit. *)
Definition truncated (stringified : string) : obj :=
  literal [("_truncated", VBool true);
           ("preview",
            VStr (Str.substring0 stringified (maxBodyLength requestConfig)
                  +:+ "..."))].

(** What the body step of [logRequest] and [logResponse] does with a
    body, in the store [h] it finds: nothing when the body is not to be
    logged or is falsy; else the value it writes and the object
    [truncateBody] may add; [None] when the serialization fails. *)
Definition body_step (enabled : bool) (h : heap) (body : val)
  : option (val * list obj) :=
  if enabled && truthy body then
    match JSON_stringify h body with
    | Text s =>
        if (Str.len s <=? maxBodyLength requestConfig)%Z
        then Some (body, [])
        else Some (VRef (length h), [truncated s])
    | _ => None
    end
  else Some (VUndef, []).

(** The error block of [error] for an error object [e]. *)
Definition error_block (h : heap) (e : val) : obj :=
  literal ([("name", member h e "name");
            ("message", member h e "message");
            ("stack", if captureStackTrace config
                      then member h e "stack" else VUndef)]
           ++ own_enumerable h e).

(** The timing [logResponse] records when it observes the clock for
    the [t]-th time. *)
Definition timing_view (t : nat) (startTime : val) : val :=
  if logTiming requestConfig && truthy startTime then
    let (seconds, nanoseconds) := hrtime platform t startTime in
    VNum (inject_Z seconds * inject_Z 1000
          + inject_Z nanoseconds / inject_Z 1000000)%Q
  else VUndef.

(** *** Vocabulary of the properties *)

(** A body serializes to a text, whatever objects the service has added
    to the store [h] by the time it measures the body. *)
Definition serializes (h : heap) (body : val) : Prop :=
  forall extra, exists s, JSON_stringify (h ++ extra) body = Text s.

(** The serialization of the body fails. *)
Definition unserializable (h : heap) (body : val) : Prop :=
  forall extra s, JSON_stringify (h ++ extra) body <> Text s.

(** The metadata argument is absent, [null] or a primitive. *)
Definition not_an_object (meta : val) : Prop :=
  match meta with
  | VRef _ => False
  | _ => True
  end.

(** The leveled methods that take a message and a metadata bag. *)
Definition leveled : list (string * (string -> val -> M unit)) :=
  [("debug", debug); ("info", info); ("warn", warn)].

(** A field of an object is present when reading it gives something
    other than [undefined] (a property holding [undefined] reads, and
    serializes, like a missing one). *)
Definition present (h : heap) (l : loc) (k : string) : Prop :=
  get h l k <> VUndef.

(** The level names of the validated configuration ([LOG_LEVEL]), which
    are also the levels of the four leveled methods. *)
Definition is_level (name : string) : Prop :=
  In name ["error"; "warn"; "info"; "debug"].

(** Level [a] is strictly below level [b]: less severe, that is, later
    in winston's table. *)
Definition below (a b : string) : Prop :=
  match Winston.levels a, Winston.levels b with
  | Some x, Some y => (y < x)%nat
  | _, _ => False
  end.

(** C3 as the specification words it, for one call. *)
Definition request_claim (req : Request) (cid : val) (w : world) : Prop :=
  (In (req_path req) (excludePaths requestConfig) ->
     logRequest req cid w = Returns tt w) /\
  (~ In (req_path req) (excludePaths requestConfig) ->
     exists e w',
       logRequest req cid w = Returns tt w' /\
       calls w' = calls w ++ [Call "info" "Incoming request" (VRef e)]).

(** C6 as it is worded, for one call. *)
Definition response_claim (res : Response) (start cid : val) (w : world)
  : Prop :=
  exists e view hs w',
    logResponse res start cid w = Returns tt w' /\
    calls w' = calls w ++ [Call "info" "Outgoing response" (VRef e)] /\
    get (objects w') e "response" = VRef view /\
    get (objects w') view "headers" = VRef hs /\
    objects w' !! hs = Some (literal (res_headers res)).

(** C9 as it is worded, for one call: the names in the headers of the
    view are the configured names that the request has. *)
Definition headers_claim (req : Request) (cid : val) (w : world) : Prop :=
  exists e view hs w',
    logRequest req cid w = Returns tt w' /\
    calls w' = calls w ++ [Call "info" "Incoming request" (VRef e)] /\
    get (objects w') e "request" = VRef view /\
    get (objects w') view "headers" = VRef hs /\
    forall name,
      is_Some (field (objects w') hs name) <->
      In name (includedHeaders requestConfig) /\
      is_Some (field (objects w) (req_headers req) name).

(** C8 as it is worded, for one call: the entry has the field
    [context] exactly when [includeMetadata] is on, and the two heap
    figures in it are those of one snapshot of
    [process.memoryUsage()]. *)
Definition context_claim (level message : string) (meta : val) (w : world)
  : Prop :=
  exists e w',
    createLogEntry level message meta w = Returns (VRef e) w' /\
    (is_Some (field (objects w') e "context") <->
     includeMetadata config = true) /\
    (includeMetadata config = true ->
       exists c m t,
         get (objects w') e "context" = VRef c /\
         get (objects w') c "hostname" = VStr (hostname platform) /\
         get (objects w') c "pid" = num (pid platform) /\
         get (objects w') c "memory" = VRef m /\
         get (objects w') m "heapUsed" =
           num (heapUsed (memoryUsage platform t)) /\
         get (objects w') m "heapTotal" =
           num (heapTotal (memoryUsage platform t))).


End Service.

End LoggingService.

(** ** Sample data *)

Module Examples.
Import Interfaces Effects JS LoggingService.

(** The configuration the service loads in production with
    [LOG_LEVEL=info] and [LOG_FILE_PATH=/var/log/app]. *)
Definition config : LoggerConfig :=
  loadLoggerConfig "info" (Some "/var/log/app") "production".

Definition requestConfig : RequestLoggingConfig := loadRequestLoggingConfig.


(** The same with the context block switched off. *)
Definition config_without_metadata : LoggerConfig :=
  {| level := "info";
     prettyPrint := false;
     logDir := Some "/var/log/app";
     console := true;
     timestampFormat := "YYYY-MM-DD HH:mm:ss";
     correlationId := true;
     redactedFields := ["password"; "token"; "secret"; "authorization"];
     captureStackTrace := true;
     includeMetadata := false |}.

(** The request configuration of the scenario [maxBodyLength = 10]. *)
Definition requestConfig10 : RequestLoggingConfig :=
  {| logRequestBody := true;
     logResponseBody := true;
     maxBodyLength := 10;
     includedHeaders := ["user-agent"; "host"; "referer"];
     excludePaths := ["/health"; "/metrics"];
     logQueryParams := true;
     logRouteParams := true;
     logTiming := true |}.

Definition platform : Platform :=
  {| hostname := "api-1";
     pid := 4242;
     toISOString := fun _ => "2024-05-01T12:00:00.000Z";
     memoryUsage := fun t =>
       {| rss := 90000000;
          heapTotal := 40000000 + Z.of_nat t;
          heapUsed := 30000000 + Z.of_nat t;
          external := 1000000;
          arrayBuffers := 10000 |};
     hrtime := fun _ _ => (0, 1500000) |}.

Definition empty_world : world := World [] 0 [].

(** [{user: {name: "a", password: "secret"}}]. *)
Definition nested_user : heap :=
  [plain [("user", VRef 1)];
   plain [("name", VStr "a"); ("password", VStr "secret")]].

(** [{Password: "secret"}], to be scrubbed with the field name
    ["Password"]. *)
Definition capital_key : heap := [plain [("Password", VStr "secret")]].

(** [{Token: {value: "abc"}}], to be scrubbed with the field name
    ["Token"]. *)
Definition capital_token : heap :=
  [plain [("Token", VRef 1)]; plain [("value", VStr "abc")]].

(** [{password: {token: "abc"}}]. *)
Definition secret_in_secret : heap :=
  [plain [("password", VRef 1)]; plain [("token", VStr "abc")]].

(** A chain of [n] objects [{password: "secret", next: ...}], each the
    [next] of the one before. *)
Definition chain (n : nat) : heap :=
  map (fun i => plain [("password", VStr "secret"); ("next", VRef (S i))])
      (seq 0 n).

(** An object that refers to itself: [o.self = o]. *)
Definition self_reference : heap :=
  [plain [("self", VRef 0); ("token", VStr "abc")]].

(** A string whose serialization has 20 characters. *)
Definition body20 : val := VStr "abcdefghijklmnopqr".

(** A request to [/status] whose headers are object 0 and whose body
    is object 1 of the store. *)
Definition status_request : Request :=
  {| req_path := "/status";
     req_method := "POST";
     req_url := "/status?verbose=1";
     req_headers := 0%nat;
     req_body := VRef 1;
     req_params := VUndef;
     req_query := VUndef |}.

Definition health_request : Request :=
  {| req_path := "/health";
     req_method := "GET";
     req_url := "/health";
     req_headers := 0%nat;
     req_body := VUndef;
     req_params := VUndef;
     req_query := VUndef |}.

(** A store with the headers of a request and a body [{name: "a"}]. *)
Definition plain_body_world : world :=
  World [plain [("host", VStr "example.org"); ("accept", VStr "*/*")];
         plain [("name", VStr "a")]] 0 [].

(** A store where the body refers to itself: [body.self = body]. *)
Definition circular_body_world : world :=
  World [plain [("host", VStr "example.org")];
         plain [("self", VRef 1)]] 0 [].

(** A store where the request has an empty [referer] header. *)
Definition empty_referer_world : world :=
  World [plain [("host", VStr "example.org");
                ("referer", VStr EmptyString)];
         plain [("name", VStr "a")]] 0 [].

(** A response with two headers whose [locals] are object 0. *)
Definition ok_response : Response :=
  {| res_statusCode := 200;
     res_headers := [("content-type", VStr "application/json");
                     ("set-cookie", VStr "sid=1")];
     res_locals := 0%nat |}.

(** [res.locals = {bodyContent: {ok: true}}]. *)
Definition captured_body_world : world :=
  World [plain [("bodyContent", VRef 1)]; plain [("ok", VBool true)]] 0 [].

(** [res.locals.bodyContent] refers to itself. *)
Definition circular_response_world : world :=
  World [plain [("bodyContent", VRef 1)]; plain [("self", VRef 1)]] 0 [].




End Examples.

(** * The configuration code

    [src/config/validation/env.validation.ts] and
    [src/config/config.service.ts].  The helpers of the validation file
    work on the same kind of data as the logging service, so they are
    embedded over the same values and the same object store. *)

(** ** Texts *)

Module Text.

(** [s.split(sep)] for a separator of one character: the pieces
    between the separators, one more than there are separators. *)
Fixpoint split (sep : ascii) (s : string) : list string :=
  match s with
  | EmptyString => [EmptyString]
  | String c s' =>
      if Ascii.eqb c sep then EmptyString :: split sep s'
      else
        match split sep s' with
        | piece :: pieces => String c piece :: pieces
        | [] => [String c EmptyString]
        end
  end.

(** The white space and line terminators of [String.prototype.trim]
    among the code units below 256: TAB, LF, VT, FF, CR, the space and
    the no-break space. *)
Definition is_space (c : ascii) : bool :=
  let n := N_of_ascii c in
  ((9 <=? n) && (n <=? 13) || (n =? 32) || (n =? 160))%N.

Fixpoint trimStart (s : string) : string :=
  match s with
  | EmptyString => EmptyString
  | String c s' => if is_space c then trimStart s' else s
  end.

Fixpoint trimEnd (s : string) : string :=
  match s with
  | EmptyString => EmptyString
  | String c s' =>
      match trimEnd s' with
      | EmptyString => if is_space c then EmptyString else String c EmptyString
      | t => String c t
      end
  end.

(** [s.trim()]. *)
Definition trim (s : string) : string := trimEnd (trimStart s).

(** [\d] of a regular expression without the [u] flag: 0-9. *)
Definition is_digit (c : ascii) : bool :=
  let n := N_of_ascii c in ((48 <=? n) && (n <=? 57))%N.

(** How often [c] occurs in [s]. *)
Fixpoint occurrences (c : ascii) (s : string) : nat :=
  match s with
  | EmptyString => 0
  | String c' s' => (if Ascii.eqb c' c then 1 else 0) + occurrences c s'
  end.

End Text.

(** ** Regular expressions

    A built-in of the language.  [test] is the match of a pattern
    anchored at both ends ([/^...$/]), computed by derivatives; [lang]
    says which texts a pattern stands for. *)

Module RegExp.

Inductive regex :=
| Never
| Empty
| Class (member : ascii -> bool)
| Alt (r1 r2 : regex)
| Seq (r1 r2 : regex)
| Star (r : regex).

(** [r+]. *)
Definition Plus (r : regex) : regex := Seq r (Star r).

Fixpoint nullable (r : regex) : bool :=
  match r with
  | Never => false
  | Empty => true
  | Class _ => false
  | Alt r1 r2 => nullable r1 || nullable r2
  | Seq r1 r2 => nullable r1 && nullable r2
  | Star _ => true
  end.

Fixpoint derive (c : ascii) (r : regex) : regex :=
  match r with
  | Never => Never
  | Empty => Never
  | Class member => if member c then Empty else Never
  | Alt r1 r2 => Alt (derive c r1) (derive c r2)
  | Seq r1 r2 =>
      if nullable r1
      then Alt (Seq (derive c r1) r2) (derive c r2)
      else Seq (derive c r1) r2
  | Star r' => Seq (derive c r') (Star r')
  end.

Fixpoint accepts (r : regex) (s : list ascii) : bool :=
  match s with
  | [] => nullable r
  | c :: s' => accepts (derive c r) s'
  end.

(** [/^r$/.test(s)]. *)
Definition test (r : regex) (s : string) : bool :=
  accepts r (list_ascii_of_string s).

(** The texts of a pattern. *)
Inductive lang : regex -> list ascii -> Prop :=
| lang_empty : lang Empty []
| lang_class member c : member c = true -> lang (Class member) [c]
| lang_alt_l r1 r2 s : lang r1 s -> lang (Alt r1 r2) s
| lang_alt_r r1 r2 s : lang r2 s -> lang (Alt r1 r2) s
| lang_seq r1 r2 s1 s2 : lang r1 s1 -> lang r2 s2 -> lang (Seq r1 r2) (s1 ++ s2)
| lang_star_nil r : lang (Star r) []
| lang_star_more r s1 s2 :
    lang r s1 -> lang (Star r) s2 -> lang (Star r) (s1 ++ s2).

End RegExp.

(** ** The validation helpers ([env.validation.ts]) *)

Module Validation.
Import JS.

(** What a helper throws: [new Error(message)], or the [TypeError] of
    the language (a property read on [undefined], a call of something
    that is no function, a write to a primitive in strict mode). *)
Inductive thrown :=
| JsError (message : string)
| JsTypeError.

(** The outcome of a helper that leaves the store alone. *)
Inductive attempt (A : Type) :=
| Done (a : A)
| Failed (e : thrown).
Arguments Done {A} a.
Arguments Failed {A} e.

(** The outcome of a helper that works on the store. *)
Inductive result (A : Type) :=
| Ok (a : A) (h : heap)
| Raise (e : thrown).
Arguments Ok {A} a h.
Arguments Raise {A} e.

(** A helper that works on the store. *)
Definition C (A : Type) : Type := heap -> result A.

Definition bind {A B} (m : C A) (f : A -> C B) : C B :=
  fun h =>
    match m h with
    | Ok a h' => f a h'
    | Raise e => Raise e
    end.

Definition lift {A} (r : attempt A) : C A :=
  fun h =>
    match r with
    | Done a => Ok a h
    | Failed e => Raise e
    end.

(** An object or array literal. *)
Definition new (o : obj) : C val :=
  fun h => let (l, h') := alloc o h in Ok (VRef l) h'.

(** [list.forEach(f)] where [f] may throw. *)
Fixpoint forEach {A} (l : list A) (f : A -> attempt unit) : attempt unit :=
  match l with
  | [] => Done tt
  | x :: l' =>
      match f x with
      | Done _ => forEach l' f
      | Failed e => Failed e
      end
  end.

(** [v === s] for a string literal [s]. *)
Definition equals_string (v : val) (s : string) : bool :=
  match v with
  | VStr s' => String.eqb s' s
  | _ => false
  end.

(** [typeof v === 'string']. *)
Definition typeof_string (v : val) : bool :=
  match v with
  | VStr _ => true
  | _ => false
  end.

(** [v.length] of a value known to be a string. *)
Definition length_of (v : val) : Z :=
  match v with
  | VStr s => Str.len s
  | _ => 0
  end.

(** The array [[v0, v1, ...]]. *)
Definition array (vs : list val) : obj :=
  Obj true (imap (fun i v => (index_key i, v)) vs)
      [("length", VNum (inject_Z (Z.of_nat (length vs))))].

(** [/^\d+[smhd]$/]. *)
Definition expirationRegex : RegExp.regex :=
  RegExp.Seq (RegExp.Plus (RegExp.Class Text.is_digit))
             (RegExp.Class (fun c => existsb (Ascii.eqb c)
                                       ["s"; "m"; "h"; "d"]%char)).

Section Builtins.

(** [new URL(s)] returns (it throws on a text that is no absolute
    URL). *)
Variable URL_parses : string -> bool.

(** The text of an object ([String(o)], the conversion a template or
    [RegExp.prototype.test] applies). *)
Variable object_text : heap -> loc -> string.

(** [ToString]. *)
Definition ToString (h : heap) (v : val) : string :=
  match v with
  | VUndef => "undefined"
  | VNull => "null"
  | VBool b => if b then "true" else "false"
  | VNum q => JSON.number_text q
  | VStr s => s
  | VRef l => object_text h l
  end.

(** [parseAllowedOrigins].  Only a string has the method [split]. *)
Definition parseAllowedOrigins (originsString : val)
  : attempt (list string) :=
  if negb (truthy originsString) then Done []
  else
    match originsString with
    | VStr s =>
        let origins := map Text.trim (Text.split "," s) in
        match
          forEach origins (fun origin =>
            if URL_parses origin then Done tt
            else Failed (JsError ("Invalid origin URL: " +:+ origin)))
        with
        | Done _ => Done origins
        | Failed e => Failed e
        end
    | _ => Failed JsTypeError
    end.

(** [validateRedisConfig].  The argument is the object it returns; the
    empty password is overwritten in place. *)
Definition validateRedisConfig (config : val) : C val :=
  fun h =>
    match config with
    | VUndef | VNull => Raise JsTypeError
    | _ =>
        if negb (truthy (member h config "REDIS_HOST"))
           || negb (truthy (member h config "REDIS_PORT"))
        then Raise (JsError "Redis host and port are required")
        else if equals_string (member h config "REDIS_PASSWORD") EmptyString then
          match config with
          | VRef l => Ok config (store h l "REDIS_PASSWORD" VUndef)
          | _ => Raise JsTypeError
          end
        else Ok config h
    end.

(** [validateJwtConfig]. *)
Definition validateJwtConfig (config : val) : C val :=
  fun h =>
    match config with
    | VUndef | VNull => Raise JsTypeError
    | _ =>
        let JWT_SECRET := member h config "JWT_SECRET" in
        let JWT_EXPIRES_IN := member h config "JWT_EXPIRES_IN" in
        let JWT_REFRESH_EXPIRES_IN := member h config "JWT_REFRESH_EXPIRES_IN" in
        if negb (truthy JWT_SECRET) || negb (typeof_string JWT_SECRET)
           || (length_of JWT_SECRET <? 32)%Z
        then Raise (JsError "JWT_SECRET must be at least 32 characters long")
        else if negb (RegExp.test expirationRegex (ToString h JWT_EXPIRES_IN))
        then Raise (JsError "JWT_EXPIRES_IN must be in format: number + s|m|h|d")
        else if negb (RegExp.test expirationRegex
                        (ToString h JWT_REFRESH_EXPIRES_IN))
        then Raise (JsError
                      "JWT_REFRESH_EXPIRES_IN must be in format: number + s|m|h|d")
        else Ok config h
    end.

End Builtins.

(** *** Vocabulary of the properties *)

(** A text made of one or more digits followed by one of the units
    [s], [m], [h], [d]. *)
Definition duration (text : string) : Prop :=
  exists digits unit,
    list_ascii_of_string text = digits ++ [unit] /\
    digits <> [] /\
    Forall (fun c => Text.is_digit c = true) digits /\
    In unit ["s"; "m"; "h"; "d"]%char.

(** A text that [trim] leaves as it is. *)
Definition trimmed (s : string) : Prop := Text.trim s = s.

End Validation.

Notation "'let*' x ':=' m 'in' k" := (Validation.bind m (fun x => k))
  (at level 10, x name, m at level 100, k at level 200).

(** ** The configuration service ([config.service.ts]) *)

Module ConfigService.
Import JS Validation.

Section Service.
Variable URL_parses : string -> bool.
Variable object_text : heap -> loc -> string.

(** [this.nestConfigService.get(key)]: the value of an environment
    variable, [undefined] when it is not set.  Reading one has no
    effect and does not throw. *)
Variable nestConfigService_get : string -> val.
Local Abbreviation get := nestConfigService_get.

(** [validateEnvironmentConfig], which rests on the decorators of
    class-validator. *)
Variable validateEnvironmentConfig : val -> C val.

(** [a || b]. *)
Definition or_else (a b : val) : val := if truthy a then a else b.

(** [loadConfiguration].  The properties of the literal are evaluated
    in the order they are written; an inner literal is stored before
    the one that holds it. *)
Definition loadConfiguration : C val :=
  let* origins := lift (parseAllowedOrigins URL_parses (get "ALLOWED_ORIGINS")) in
  let* allowedOrigins := new (array (map VStr origins)) in
  let* database := new
    (literal [("host", get "DB_HOST");
              ("port", get "DB_PORT");
              ("username", get "DB_USERNAME");
              ("password", get "DB_PASSWORD");
              ("database", get "DB_DATABASE");
              ("synchronize", VBool (negb (equals_string (get "NODE_ENV") "production")));
              ("logging", VBool (equals_string (get "NODE_ENV") "development"))]) in
  let* redis :=
    (fun h =>
       (let* argument := new
          (literal [("host", get "REDIS_HOST");
                    ("port", get "REDIS_PORT");
                    ("password", get "REDIS_PASSWORD");
                    ("db", get "REDIS_DB");
                    ("keyPrefix",
                     VStr (ToString object_text h (get "NODE_ENV") +:+ ":"))]) in
        validateRedisConfig argument) h) in
  let* jwt :=
    (let* argument := new
       (literal [("secret", get "JWT_SECRET");
                 ("expiresIn", get "JWT_EXPIRES_IN");
                 ("refreshExpiresIn", get "JWT_REFRESH_EXPIRES_IN")]) in
     validateJwtConfig object_text argument) in
  let* scope := new (array [VStr "email"; VStr "profile"]) in
  let* google := new
    (literal [("clientId", get "GOOGLE_CLIENT_ID");
              ("clientSecret", get "GOOGLE_CLIENT_SECRET");
              ("callbackUrl", get "GOOGLE_CALLBACK_URL")]) in
  let* github := new
    (literal [("clientId", get "GITHUB_CLIENT_ID");
              ("clientSecret", get "GITHUB_CLIENT_SECRET");
              ("callbackUrl", get "GITHUB_CALLBACK_URL")]) in
  let* providers := new (literal [("google", google); ("github", github)]) in
  let* oauth := new
    (literal [("clientId", get "OAUTH_CLIENT_ID");
              ("clientSecret", get "OAUTH_CLIENT_SECRET");
              ("callbackUrl", get "OAUTH_CALLBACK_URL");
              ("scope", scope);
              ("providers", providers)]) in
  let* security := new
    (literal [("bcryptSaltRounds", get "BCRYPT_SALT_ROUNDS");
              ("sessionSecret", get "SESSION_SECRET");
              ("corsEnabled", VBool true);
              ("csrfEnabled", VBool (equals_string (get "NODE_ENV") "production"))]) in
  let* rateLimit := new
    (literal [("windowMs", VNum (inject_Z (15 * 60 * 1000)));
              ("max", VNum (inject_Z 100))]) in
  let* logging := new
    (literal [("level", or_else (get "LOG_LEVEL") (VStr "info"));
              ("format", or_else (get "LOG_FORMAT") (VStr "json"));
              ("filepath", get "LOG_FILE_PATH")]) in
  let* rawConfig := new
    (literal [("port", get "PORT");
              ("environment", get "NODE_ENV");
              ("apiPrefix", get "API_PREFIX");
              ("domain", get "DOMAIN");
              ("allowedOrigins", allowedOrigins);
              ("database", database);
              ("redis", redis);
              ("jwt", jwt);
              ("oauth", oauth);
              ("security", security);
              ("rateLimit", rateLimit);
              ("logging", logging)]) in
  validateEnvironmentConfig rawConfig.

End Service.

End ConfigService.

(** ** More sample data *)

Module Scenarios.
Import Interfaces Effects JS LoggingService Validation.

(** A request to [/login]: its headers are object 0 and its body,
    [{password: "hunter2", user: "ann"}], is object 1 of the store. *)
Definition login_request : Request :=
  {| req_path := "/login";
     req_method := "POST";
     req_url := "/login?next=home";
     req_headers := 0%nat;
     req_body := VRef 1;
     req_params := VUndef;
     req_query := VUndef |}.

Definition login_world : world :=
  World [plain [("host", VStr "example.org")];
         plain [("password", VStr "hunter2"); ("user", VStr "ann")]] 0 [].

(** The serialization of that body. *)
Definition login_text : string :=
  match JSON.stringify (objects login_world) (VRef 1) with
  | Text s => s
  | _ => EmptyString
  end.

(** The request configuration with a limit of 20 characters. *)
Definition requestConfig20 : RequestLoggingConfig :=
  {| logRequestBody := true;
     logResponseBody := true;
     maxBodyLength := 20;
     includedHeaders := ["user-agent"; "host"; "referer"];
     excludePaths := ["/health"; "/metrics"];
     logQueryParams := true;
     logRouteParams := true;
     logTiming := true |}.

(** An entry as it reaches the formats, with a context of its own. *)
Definition entry_world : world :=
  World [plain [("level", VStr "info"); ("message", VStr "started");
                ("context", VStr "stale")]] 7 [].

(** A metadata bag with an own [user], an own [error] and a [service]
    that it only inherits. *)
Definition bag_world : world :=
  World [Obj false [("user", VStr "ann"); ("error", VStr "mine")]
                   [("service", VStr "inherited")]] 0 [].

(** A stand-in for the URL parser in the closed examples: it accepts
    what starts with [http://] or [https://] and goes on. *)
Definition http_url (s : string) : bool :=
  String.prefix "http://" s && (7 <? String.length s)%nat
  || String.prefix "https://" s && (8 <? String.length s)%nat.

(** The text of a plain object. *)
Definition object_text : heap -> loc -> string :=
  fun _ _ => "[object Object]".

(** [ALLOWED_ORIGINS] of the development environment file. *)
Definition allowed_origins : string :=
  "http://localhost:3000,http://localhost:3001".

(** A Redis configuration with the empty password of the environment
    files. *)
Definition redis_store : heap :=
  [plain [("REDIS_HOST", VStr "localhost");
          ("REDIS_PORT", num 6379);
          ("REDIS_PASSWORD", VStr EmptyString);
          ("REDIS_DB", num 0)]].

(** A JWT configuration with the secret of the development
    environment file. *)
Definition jwt_store : heap :=
  [plain [("JWT_SECRET", VStr "dev-jwt-secret-replace-in-production");
          ("JWT_EXPIRES_IN", VStr "15m");
          ("JWT_REFRESH_EXPIRES_IN", VStr "7d")]].

End Scenarios.

(** * Facts about the store *)

Section StoreFacts.
Import JS.

Lemma get_new (h new : heap) i k : get (h ++ new) (length h + i) k = get new i k.
Proof.
  unfold get. rewrite lookup_app_r by lia.
  by replace (length h + i - length h)%nat with i by lia.
Qed.

Lemma get_new0 (h new : heap) k : get (h ++ new) (length h) k = get new 0 k.
Proof. rewrite <- (get_new h new 0 k). f_equal. lia. Qed.

Lemma get_old (h new : heap) l k :
  (l < length h)%nat -> get (h ++ new) l k = get h l k.
Proof. intros Hl. unfold get. by rewrite lookup_app_l. Qed.

Lemma store_new (h new : heap) i k v :
  store (h ++ new) (length h + i) k v = h ++ store new i k v.
Proof.
  unfold store. rewrite lookup_app_r by lia.
  replace (length h + i - length h)%nat with i by lia.
  destruct (new !! i); [| done]. apply insert_app_r.
Qed.

Lemma store_new0 (h new : heap) k v :
  store (h ++ new) (length h) k v = h ++ store new 0 k v.
Proof. rewrite <- (store_new h new 0 k v). f_equal. lia. Qed.

Lemma assoc_set_assoc ps k v : assoc k (set_assoc k v ps) = Some v.
Proof.
  induction ps as [| [k1 v1] ps IH]; simpl.
  - by rewrite String.eqb_refl.
  - destruct (String.eqb k k1) eqn:Ek; simpl; rewrite Ek; [done | exact IH].
Qed.

Lemma assoc_set_assoc_ne ps k k' v :
  k <> k' -> assoc k (set_assoc k' v ps) = assoc k ps.
Proof.
  intros Hne. induction ps as [| [k1 v1] ps IH]; simpl.
  - apply String.eqb_neq in Hne. by rewrite Hne.
  - destruct (String.eqb k' k1) eqn:Ek; simpl.
    + apply String.eqb_eq in Ek; subst k1.
      apply String.eqb_neq in Hne. by rewrite Hne.
    + destruct (String.eqb k k1); [done | exact IH].
Qed.

(** A key that a run of property writes does not name keeps its
    value. *)
Lemma assoc_writes_other es : forall ps k,
  ~ In k (map fst es) ->
  assoc k (fold_left (fun ps e => set_assoc e.1 e.2 ps) es ps) = assoc k ps.
Proof.
  induction es as [| [k1 v1] es IH]; intros ps k Hk; simpl in *; [done |].
  rewrite IH by tauto. apply assoc_set_assoc_ne. intros ->. tauto.
Qed.


Lemma get_last (h mid : heap) o k :
  get (h ++ mid ++ [o]) (length h + length mid) k = get_prop o k.
Proof.
  unfold get. rewrite app_assoc.
  rewrite list_lookup_middle; [done |]. by rewrite length_app.
Qed.

Lemma get_here (h : heap) o rest k :
  get (h ++ o :: rest) (length h) k = get_prop o k.
Proof. unfold get. by rewrite list_lookup_middle. Qed.

Lemma get_next (h : heap) o o' rest k :
  get (h ++ o :: o' :: rest) (length h + 1) k = get_prop o' k.
Proof.
  unfold get. replace (h ++ o :: o' :: rest) with ((h ++ [o]) ++ o' :: rest)
    by (by rewrite <- app_assoc).
  rewrite list_lookup_middle; [done |]. by rewrite length_app.
Qed.

Lemma get_bag (h : heap) a b extra bag k :
  get (h ++ a :: b :: extra ++ [bag]) (length h + 2 + length extra) k =
  get_prop bag k.
Proof.
  unfold get.
  replace (h ++ a :: b :: extra ++ [bag]) with ((h ++ a :: b :: extra) ++ [bag])
    by (by rewrite <- app_assoc).
  rewrite list_lookup_middle; [done |]. rewrite length_app. simpl. lia.
Qed.

Lemma get_prop_literal es k :
  get_prop (literal es) k =
  default VUndef (assoc k (fold_left (fun ps e => set_assoc e.1 e.2 ps) es [])).
Proof. unfold get_prop, literal, plain. simpl. by destruct (assoc k _). Qed.

Lemma index_key_digit i : starts_with_digit (index_key i) = true.
Proof. unfold index_key. by destruct (Nat.to_uint i). Qed.

Lemma own_enumerable_prim_keys h v k :
  match v with VRef _ => False | _ => True end ->
  starts_with_digit k = false ->
  ~ In k (map fst (own_enumerable h v)).
Proof.
  intros Hv Hk Hin. destruct v; simpl in *; try done.
  apply list_elem_of_In, list_elem_of_fmap in Hin as ([k' x] & -> & Hin).
  apply elem_of_lookup_imap in Hin as (i & c & E & _). inversion E; subst.
  simpl in Hk. by rewrite index_key_digit in Hk.
Qed.

Lemma assoc_none_keys ps k : assoc k ps = None -> ~ In k (map fst ps).
Proof.
  induction ps as [| [k1 v1] ps IH]; simpl; [tauto |].
  destruct (String.eqb k k1) eqn:Ek; [done |].
  intros H [-> | Hin]; [by rewrite String.eqb_refl in Ek | by apply IH].
Qed.

(** The metadata bag of [error]: the spread of a primitive gives no
    slot, and [error] is the block. *)
Lemma bag_slot h meta block k :
  match meta with VRef _ => False | _ => True end ->
  starts_with_digit k = false -> k <> "error" ->
  get_prop (literal (own_enumerable h meta ++ [("error", block)])) k = VUndef.
Proof.
  intros Hm Hk Hne. rewrite get_prop_literal, fold_left_app. simpl.
  rewrite assoc_set_assoc_ne by done.
  rewrite assoc_writes_other; [done |]. by apply own_enumerable_prim_keys.
Qed.

Lemma bag_error es block :
  get_prop (literal (es ++ [("error", block)])) "error" = block.
Proof.
  rewrite get_prop_literal, fold_left_app. simpl. by rewrite assoc_set_assoc.
Qed.


Lemma includes_In l s : Str.includes l s = true <-> In s l.
Proof.
  unfold Str.includes. rewrite existsb_exists. split.
  - intros (x & Hx & E). apply String.eqb_eq in E. by subst.
  - intros H. exists s. split; [done | apply String.eqb_refl].
Qed.

Lemma includes_not_In l s : Str.includes l s = false <-> ~ In s l.
Proof.
  rewrite <- includes_In. by destruct (Str.includes l s).
Qed.

Lemma field_here (h : heap) o rest k :
  field (h ++ o :: rest) (length h) k = assoc k (props o).
Proof. unfold field. by rewrite list_lookup_middle. Qed.

Lemma length_append_str s1 s2 :
  String.length (s1 +:+ s2) = (String.length s1 + String.length s2)%nat.
Proof. induction s1; simpl; [done | by rewrite IHs1]. Qed.

Lemma length_substring0 s : forall n,
  (n <= String.length s)%nat -> String.length (String.substring 0 n s) = n.
Proof.
  induction s as [| c s IH]; intros [| n] Hn; simpl in *; try done; try lia.
  rewrite IH; lia.
Qed.

End StoreFacts.

(** * Facts about the serializer *)

Section SerializerFacts.
Import Interfaces JS JSON.

Lemma gather_total item array ks :
  (forall k, item k <> None) -> gather item array ks <> Exhausted.
Proof.
  intros Hitem. induction ks as [| k ks IH]; simpl; [done |].
  specialize (Hitem k). destruct (item k) as [[s | |] |]; try done;
    by destruct (gather item array ks).
Qed.

(** In a store of [m] objects the objects being serialized, all
    different, are at most [m]. *)
Lemma stack_bound (stack : list loc) m :
  List.NoDup stack -> (forall l, In l stack -> (l < m)%nat) ->
  (length stack <= m)%nat.
Proof.
  intros Hnd Hlt.
  pose proof (@NoDup_incl_length _ stack (seq 0 m) Hnd) as H.
  rewrite length_seq in H. apply H.
  intros l Hl. apply in_seq. specialize (Hlt l Hl). lia.
Qed.

Lemma stringify_within_enough n : forall h stack v,
  List.NoDup stack -> (forall l, In l stack -> (l < length h)%nat) ->
  (length h < n + length stack)%nat ->
  stringify_within n h stack v <> None.
Proof.
  induction n as [| n IH]; intros h stack v Hnd Hlt Hn;
    destruct v as [| | b | q | s | l]; simpl; try done.
  - pose proof (stack_bound stack (length h) Hnd Hlt). lia.
  - case_bool_decide as Hin; [done |].
    destruct (h !! l) as [o |] eqn:Ho; [| done].
    assert (gather (fun k => stringify_within n h (l :: stack) (get_prop o k))
              (is_array o) (keys o) <> Exhausted) as Hg.
    { apply gather_total. intros k. apply IH.
      - constructor; [| done]. intros Hl. apply Hin. by apply list_elem_of_In.
      - intros l' [<- | Hl']; [by eapply lookup_lt_Some | by apply Hlt].
      - simpl. lia. }
    by destruct (gather _ (is_array o) (keys o)).
Qed.

(** The bound of [stringify] is never reached: it always gives the
    result of the serialization itself. *)
Lemma stringify_total h v :
  exists r, stringify_within (S (length h)) h [] v = Some r /\
            stringify h v = r.
Proof.
  unfold stringify.
  destruct (stringify_within (S (length h)) h [] v) as [r |] eqn:E; [by exists r |].
  exfalso. revert E. apply stringify_within_enough.
  - constructor.
  - intros l [].
  - simpl. lia.
Qed.

Lemma gather_ext item item' array ks :
  (forall k r, In k ks -> item k = Some r -> item' k = Some r) ->
  gather item array ks <> Exhausted ->
  gather item' array ks = gather item array ks.
Proof.
  induction ks as [| k ks IH]; intros Hitem Hg; simpl in *; [done |].
  destruct (item k) as [r |] eqn:Ek; [| done].
  assert (item' k = Some r) as -> by (apply Hitem; [by left | done]).
  destruct r as [s | |]; [| | done].
  - rewrite IH; [done | intros k' r' Hk' Hr'; apply Hitem; [by right | done] |].
    intros E. by rewrite E in Hg.
  - rewrite IH; [done | intros k' r' Hk' Hr'; apply Hitem; [by right | done] |].
    intros E. by rewrite E in Hg.
Qed.

Lemma closed_get_prop h l o k :
  closed h -> h !! l = Some o -> closed_val h (get_prop o k).
Proof.
  intros Hc Ho. unfold closed in Hc. rewrite Forall_forall in Hc.
  assert (Forall (fun p => closed_val h p.2) (props o ++ hidden o)) as Hp
    by (apply Hc; by eapply list_elem_of_lookup_2).
  apply Forall_app in Hp as [Hp Hh]. unfold get_prop.
  assert (forall ps, Forall (fun p : string * val => closed_val h p.2) ps ->
            forall v, assoc k ps = Some v -> closed_val h v) as Hassoc.
  { induction 1 as [| [k1 v1] ps Hv _ IH]; simpl; [done |].
    intros v. destruct (String.eqb k k1); [| by apply IH].
    intros E. inversion E; subst. exact Hv. }
  destruct (assoc k (props o)) as [v |] eqn:E1;
    [exact (Hassoc (props o) Hp v E1) |].
  destruct (assoc k (hidden o)) as [v |] eqn:E2;
    [exact (Hassoc (hidden o) Hh v E2) | done].
Qed.

(** Objects added to a closed store, and a larger bound, do not change
    the serialization of a closed value. *)
Lemma stringify_within_extends h extra n : forall n' stack v r,
  closed h -> closed_val h v -> (n <= n')%nat ->
  stringify_within n h stack v = Some r ->
  stringify_within n' (h ++ extra) stack v = Some r.
Proof.
  induction n as [| n IH]; intros n' stack v r Hc Hv Hn;
    destruct v as [| | b | q | s | l]; simpl; try done;
    try (by destruct n').
  destruct n' as [| n']; [lia |]. simpl in *.
  case_bool_decide; [done |].
  rewrite lookup_app_l by done.
  destruct (h !! l) as [o |] eqn:Ho; [| done].
  intros E.
  rewrite (gather_ext
             (fun k => stringify_within n h (l :: stack) (get_prop o k))).
  - done.
  - intros k r' _. apply IH; [done | by eapply closed_get_prop | lia].
  - intros Eg. by rewrite Eg in E.
Qed.

Lemma stringify_extends h extra v :
  closed h -> closed_val h v -> stringify (h ++ extra) v = stringify h v.
Proof.
  intros Hc Hv. destruct (stringify_total h v) as (r & Er & ->).
  unfold stringify.
  by rewrite (stringify_within_extends h extra (S (length h))
                (S (length (h ++ extra))) [] v r)
    by (try done; rewrite length_app; lia).
Qed.

(** So, for this serializer and a closed store, the conditions the
    properties of the service put on a body can be read off the store
    the call starts in. *)
Lemma serializes_closed h v s :
  closed h -> closed_val h v -> stringify h v = Text s ->
  LoggingService.serializes stringify h v.
Proof.
  intros Hc Hv E extra. exists s. by rewrite stringify_extends.
Qed.

Lemma unserializable_closed h v :
  closed h -> closed_val h v -> (forall s, stringify h v <> Text s) ->
  LoggingService.unserializable stringify h v.
Proof.
  intros Hc Hv E extra s. rewrite stringify_extends by done. apply E.
Qed.

End SerializerFacts.

(** * Properties of the redaction engine *)

Section RedactionFacts.
Import JS Redaction.
Variable fields : list string.

Local Notation "p ⊑ q" := (heap_le fields p q) (at level 70).
Local Abbreviation marker := (VStr REDACTED).

(** ** The order on stores *)

Lemma entry_le_refl p : entry_le fields p p.
Proof. split; [done | by left]. Qed.

Lemma entry_le_trans p q r :
  entry_le fields p q -> entry_le fields q r -> entry_le fields p r.
Proof.
  destruct p as [k1 v1], q as [k2 v2], r as [k3 v3].
  intros [E1 H1] [E2 H2]; simpl in *; subst.
  split; [done |]. simpl.
  destruct H2 as [-> | [M ->]]; [done | by right].
Qed.

Lemma obj_le_refl o : obj_le fields o o.
Proof.
  repeat split. apply Forall_Forall2_diag, Forall_forall.
  intros; apply entry_le_refl.
Qed.

Lemma obj_le_trans o1 o2 o3 :
  obj_le fields o1 o2 -> obj_le fields o2 o3 -> obj_le fields o1 o3.
Proof.
  intros (A1 & B1 & C1) (A2 & B2 & C2).
  repeat split; [congruence | congruence |].
  eapply Forall2_trans; [| exact C1 | exact C2]. apply entry_le_trans.
Qed.

Lemma heap_le_refl h : h ⊑ h.
Proof.
  apply Forall_Forall2_diag, Forall_forall. intros; apply obj_le_refl.
Qed.

Lemma heap_le_trans h1 h2 h3 : h1 ⊑ h2 -> h2 ⊑ h3 -> h1 ⊑ h3.
Proof. intros A B. eapply Forall2_trans; [| exact A | exact B]. apply obj_le_trans. Qed.

Lemma obj_le_keys o o' : obj_le fields o o' -> keys o' = keys o.
Proof.
  intros (_ & _ & H). unfold keys.
  induction H as [| p p' ps ps' [E _] _ IH]; simpl; [done |].
  by rewrite E, IH.
Qed.

(** Reading a key before and after. *)
Lemma assoc_le ps ps' k :
  Forall2 (entry_le fields) ps ps' ->
  match assoc k ps, assoc k ps' with
  | Some v, Some v' => v' = v \/ (matches fields k = true /\ v' = marker)
  | None, None => True
  | _, _ => False
  end.
Proof.
  induction 1 as [| [k1 v1] [k2 v2] ps ps' [E H] _ IH]; simpl in *; [done |].
  subst k2. destruct (String.eqb k k1) eqn:Ek; [| exact IH].
  apply String.eqb_eq in Ek. by subst k1.
Qed.

Lemma heap_le_lookup h h' l o :
  h ⊑ h' -> h !! l = Some o -> exists o', h' !! l = Some o' /\ obj_le fields o o'.
Proof. intros H. by apply Forall2_lookup_l. Qed.

Lemma heap_le_lookup_r h h' l o' :
  h ⊑ h' -> h' !! l = Some o' -> exists o, h !! l = Some o /\ obj_le fields o o'.
Proof. intros H. by apply Forall2_lookup_r. Qed.

Lemma field_le h h' l k :
  h ⊑ h' ->
  match field h l k, field h' l k with
  | Some v, Some v' => v' = v \/ (matches fields k = true /\ v' = marker)
  | None, None => True
  | _, _ => False
  end.
Proof.
  intros H. unfold field.
  destruct (h !! l) as [o |] eqn:Eo.
  - destruct (heap_le_lookup _ _ _ _ H Eo) as (o' & -> & (_ & _ & Hp)).
    by apply assoc_le.
  - destruct (h' !! l) as [o' |] eqn:Eo'; [| done].
    destruct (heap_le_lookup_r _ _ _ _ H Eo') as (o & Ho & _). congruence.
Qed.

(** A key the test rejects keeps its value for ever. *)
Lemma field_le_other h h' l k :
  h ⊑ h' -> matches fields k = false -> field h' l k = field h l k.
Proof.
  intros H M. pose proof (field_le h h' l k H) as F.
  destruct (field h l k), (field h' l k); try done.
  destruct F as [-> | [M' _]]; [done | congruence].
Qed.

(** The marker, once written, stays. *)
Lemma field_le_marker h h' l k :
  h ⊑ h' -> field h l k = Some marker -> field h' l k = Some marker.
Proof.
  intros H E. pose proof (field_le h h' l k H) as F. rewrite E in F.
  destruct (field h' l k); [| done]. by destruct F as [-> | [_ ->]].
Qed.

(** A reference found afterwards was there before. *)
Lemma field_le_ref h h' l k x :
  h ⊑ h' -> field h' l k = Some (VRef x) -> field h l k = Some (VRef x).
Proof.
  intros H E. pose proof (field_le h h' l k H) as F. rewrite E in F.
  destruct (field h l k); [| done]. by destruct F as [<- | [_ ?]].
Qed.

Lemma field_le_some h h' l k x :
  h ⊑ h' -> field h l k = Some x -> exists x', field h' l k = Some x'.
Proof.
  intros H E. pose proof (field_le h h' l k H) as F. rewrite E in F.
  destruct (field h' l k); [eauto | done].
Qed.

Lemma field_get h l k x : field h l k = Some x -> get h l k = x.
Proof.
  unfold field, get, get_prop. destruct (h !! l); [| done]. by intros ->.
Qed.

Lemma field_keys h l k x o :
  h !! l = Some o -> field h l k = Some x -> In k (keys o).
Proof.
  unfold field, keys. intros ->. induction (props o) as [| [k1 v1] ps IH]; simpl; [done |].
  destruct (String.eqb k k1) eqn:Ek.
  - apply String.eqb_eq in Ek. by left.
  - right; auto.
Qed.

Lemma keys_field h l k o :
  h !! l = Some o -> In k (keys o) -> exists x, field h l k = Some x.
Proof.
  unfold field, keys. intros ->. induction (props o) as [| [k1 v1] ps IH]; simpl; [done |].
  intros [-> | Hin].
  - rewrite String.eqb_refl. eauto.
  - destruct (String.eqb k k1); eauto.
Qed.

(** Paths of keys the test rejects are the same before and after. *)
Lemma walk_le_other h h' path : forall v,
  h ⊑ h' -> Forall (fun k => matches fields k = false) path ->
  walk h' v path = walk h v path.
Proof.
  induction path as [| k path IH]; intros v H F; simpl; [done |].
  inversion F; subst. destruct v; try done.
  rewrite (field_le_other h h'); [| done | done].
  destruct (field h l k); [| done]. by apply IH.
Qed.

(** A path that ends on an object afterwards was there before. *)
Lemma walk_le_ref h h' path : forall v x,
  h ⊑ h' -> walk h' v path = Some (VRef x) -> walk h v path = Some (VRef x).
Proof.
  induction path as [| k path IH]; intros v x H W; simpl in *; [done |].
  destruct v; try done.
  destruct (field h' l k) as [y |] eqn:E; [| done].
  assert (exists z, y = VRef z) as [z ->].
  { destruct path; simpl in W; [inversion W; eauto |]. destruct y; try done. eauto. }
  rewrite (field_le_ref h h' l k z H E). by apply IH.
Qed.

(** ** One step of the loop *)

Lemma set_assoc_le ps k :
  In k (map fst ps) -> matches fields k = true ->
  Forall2 (entry_le fields) ps (set_assoc k marker ps).
Proof.
  intros Hin M. induction ps as [| [k1 v1] ps IH]; simpl in *; [done |].
  destruct (String.eqb k k1) eqn:Ek.
  - apply String.eqb_eq in Ek; subst k1. constructor.
    + split; [done | by right].
    + apply Forall_Forall2_diag, Forall_forall. intros; apply entry_le_refl.
  - constructor; [apply entry_le_refl |]. apply IH.
    destruct Hin as [-> | ?]; [| done]. by rewrite String.eqb_refl in Ek.
Qed.

Lemma store_le h l k o :
  h !! l = Some o -> In k (keys o) -> matches fields k = true ->
  h ⊑ store h l k marker.
Proof.
  intros Ho Hin M. unfold store. rewrite Ho.
  apply Forall2_same_length_lookup_2; [by rewrite length_insert |].
  intros i x y Hx Hy. destruct (decide (l = i)) as [-> | Hne].
  - rewrite list_lookup_insert_eq in Hy by (by eapply lookup_lt_Some).
    assert (x = o) by congruence. subst x. inversion Hy; subst y.
    repeat split. by apply set_assoc_le.
  - rewrite list_lookup_insert_ne in Hy by done.
    assert (x = y) by congruence. subst. apply obj_le_refl.
Qed.

Lemma field_store h l k v o :
  h !! l = Some o -> field (store h l k v) l k = Some v.
Proof.
  intros Ho. unfold store, field. rewrite Ho.
  rewrite list_lookup_insert_eq by (by eapply lookup_lt_Some).
  apply assoc_set_assoc.
Qed.

Lemma lookup_store_ne h l l' k v : l <> l' -> store h l k v !! l' = h !! l'.
Proof.
  intros Hne. unfold store. destruct (h !! l); [| done].
  by apply list_lookup_insert_ne.
Qed.

Section Loop.
Variable recurse : val -> heap -> heap.
Hypothesis recurse_le : forall v h, h ⊑ recurse v h.
Variable l : loc.

Lemma redactKey_le h key o :
  h !! l = Some o -> In key (keys o) -> h ⊑ redactKey recurse fields l h key.
Proof.
  intros Ho Hin. unfold redactKey.
  destruct (Str.includes fields (Str.toLowerCase key)) eqn:M.
  - by eapply store_le.
  - destruct (typeof_object (get h l key)); [apply recurse_le | apply heap_le_refl].
Qed.

Lemma loop_le ks : forall h o,
  h !! l = Some o -> incl ks (keys o) ->
  h ⊑ fold_left (redactKey recurse fields l) ks h.
Proof.
  induction ks as [| key ks IH]; intros h o Ho Hin; simpl; [apply heap_le_refl |].
  assert (In key (keys o)) as Hk by (apply Hin; by left).
  pose proof (redactKey_le h key o Ho Hk) as H1.
  destruct (heap_le_lookup _ _ _ _ H1 Ho) as (o1 & Ho1 & Hle).
  eapply heap_le_trans; [exact H1 |].
  apply (IH _ o1 Ho1). rewrite (obj_le_keys _ _ Hle).
  intros k Hk'. apply Hin. by right.
Qed.

(** Every key of the loop that the test accepts holds the marker
    when the loop is over. *)
Lemma loop_marks ks : forall h o k,
  h !! l = Some o -> incl ks (keys o) -> In k ks ->
  matches fields k = true ->
  field (fold_left (redactKey recurse fields l) ks h) l k = Some marker.
Proof.
  induction ks as [| key ks IH]; intros h o k Ho Hin Hk M; simpl; [done |].
  assert (In key (keys o)) as Hkey by (apply Hin; by left).
  pose proof (redactKey_le h key o Ho Hkey) as H1.
  destruct (heap_le_lookup _ _ _ _ H1 Ho) as (o1 & Ho1 & Hle).
  assert (incl ks (keys o1)) as Hin1.
  { rewrite (obj_le_keys _ _ Hle). intros k' Hk'. apply Hin. by right. }
  destruct (decide (k ∈ ks)) as [Hks | Hks].
  - apply (IH _ o1); [done | done | by apply list_elem_of_In | done].
  - destruct Hk as [-> | Hk]; [| by apply list_elem_of_In in Hk].
    eapply field_le_marker; [by eapply loop_le |].
    unfold redactKey. unfold matches in M. rewrite M.
    by eapply field_store.
Qed.

(** The loop calls [recurse] on the value of every key that the test
    rejects and that holds an object: the final store extends the
    store that call returned. *)
Lemma loop_descends ks : forall h o k x,
  h !! l = Some o -> incl ks (keys o) -> In k ks ->
  matches fields k = false -> field h l k = Some (VRef x) ->
  exists h1, h ⊑ h1 /\
    recurse (VRef x) h1 ⊑ fold_left (redactKey recurse fields l) ks h.
Proof.
  induction ks as [| key ks IH]; intros h o k x Ho Hin Hk M Hf; simpl; [done |].
  assert (In key (keys o)) as Hkey by (apply Hin; by left).
  pose proof (redactKey_le h key o Ho Hkey) as H1.
  destruct (heap_le_lookup _ _ _ _ H1 Ho) as (o1 & Ho1 & Hle).
  assert (incl ks (keys o1)) as Hin1.
  { rewrite (obj_le_keys _ _ Hle). intros k' Hk'. apply Hin. by right. }
  destruct Hk as [-> | Hk].
  - exists h. split; [apply heap_le_refl |].
    assert (redactKey recurse fields l h k = recurse (VRef x) h) as E.
    { unfold redactKey. unfold matches in M. rewrite M.
      by rewrite (field_get _ _ _ _ Hf). }
    rewrite <- E. by eapply loop_le.
  - destruct (IH _ o1 k x Ho1 Hin1 Hk M) as (h1 & A & B).
    { rewrite (field_le_other h); done. }
    exists h1. split; [by eapply heap_le_trans | done].
Qed.

(** An object other than [l] that no call of [recurse] touches is
    the same after the loop. *)
Lemma loop_frame l' ks : forall h o,
  l <> l' -> h !! l = Some o -> incl ks (keys o) ->
  (forall k h1, In k ks -> matches fields k = false -> h ⊑ h1 ->
     recurse (get h1 l k) h1 !! l' = h1 !! l') ->
  fold_left (redactKey recurse fields l) ks h !! l' = h !! l'.
Proof.
  induction ks as [| key ks IH]; intros h o Hne Ho Hin Hrec; simpl; [done |].
  assert (In key (keys o)) as Hkey by (apply Hin; by left).
  pose proof (redactKey_le h key o Ho Hkey) as H1.
  destruct (heap_le_lookup _ _ _ _ H1 Ho) as (o1 & Ho1 & Hle).
  assert (incl ks (keys o1)) as Hin1.
  { rewrite (obj_le_keys _ _ Hle). intros k' Hk'. apply Hin. by right. }
  rewrite (IH _ o1 Hne Ho1 Hin1).
  - unfold redactKey.
    destruct (Str.includes fields (Str.toLowerCase key)) eqn:M.
    + by apply lookup_store_ne.
    + destruct (typeof_object (get h l key)); [| done].
      apply Hrec; [by left | done | apply heap_le_refl].
  - intros k h1 Hk M Hle1. apply Hrec; [by right | done |].
    by eapply heap_le_trans.
Qed.

End Loop.

(** ** The whole run *)

(** The embedding obeys the recursive equation of the source: the guard
    [depth > 10 || !obj || typeof obj !== 'object'], then the loop with
    the recursive calls at [depth + 1]. *)
Lemma redactSensitiveData_eq obj depth h :
  redactSensitiveData obj fields depth h =
  if (10 <? depth)%nat || negb (truthy obj) || negb (typeof_object obj) then h
  else
    match obj with
    | VRef l =>
        match h !! l with
        | Some o =>
            fold_left
              (redactKey (fun v => redactSensitiveData v fields (S depth))
                         fields l)
              (keys o) h
        | None => h
        end
    | _ => h
    end.
Proof.
  unfold redactSensitiveData.
  destruct (10 <? depth)%nat eqn:Hd; simpl orb.
  - apply Nat.ltb_lt in Hd. by replace (11 - depth)%nat with 0%nat by lia.
  - apply Nat.ltb_ge in Hd.
    replace (11 - depth)%nat with (S (11 - S depth)) by lia.
    destruct obj as [| | b | q | s | l]; try reflexivity.
    + by destruct b.
    + simpl. by destruct (negb (Qnum q =? 0)%Z).
    + simpl. by destruct (negb (String.eqb s EmptyString)).
Qed.

Lemma redactLevels_le n : forall v h, h ⊑ redactLevels n fields v h.
Proof.
  induction n as [| n IH]; intros v h; simpl; [apply heap_le_refl |].
  destruct v; try apply heap_le_refl.
  destruct (h !! l) as [o |] eqn:Ho; [| apply heap_le_refl].
  eapply loop_le; [exact IH | exact Ho | apply incl_refl].
Qed.

(** With [n] levels left, the run marks every accepted key of every
    object that fewer than [n] rejected keys lead to. *)
Lemma redactLevels_marks n : forall h v path l k x,
  (length path < n)%nat ->
  Forall (fun k' => matches fields k' = false) path ->
  walk h v path = Some (VRef l) ->
  field h l k = Some x -> matches fields k = true ->
  field (redactLevels n fields v h) l k = Some marker.
Proof.
  induction n as [| n IH]; intros h v path l k x Hlen Hrej Hwalk Hf M; [lia |].
  destruct path as [| k0 path]; simpl in Hwalk.
  - inversion Hwalk; subst v. simpl.
    unfold field in Hf. destruct (h !! l) as [o |] eqn:Ho; [| done].
    eapply loop_marks; [apply redactLevels_le | exact Ho | apply incl_refl | | done].
    eapply field_keys; [exact Ho |]. unfold field. rewrite Ho. exact Hf.
  - destruct v as [| | | | | l0]; try done.
    destruct (field h l0 k0) as [y |] eqn:Ey; [| done].
    assert (exists z, y = VRef z) as [z ->].
    { destruct path; simpl in Hwalk; [inversion Hwalk; eauto |]. destruct y; try done. eauto. }
    inversion Hrej as [| ? ? M0 Hrej']; subst.
    simpl. pose proof Ey as Ey'. unfold field in Ey'.
    destruct (h !! l0) as [o0 |] eqn:Ho0; [| done].
    destruct (loop_descends (redactLevels n fields) (redactLevels_le n) l0
                (keys o0) h o0 k0 z Ho0 (incl_refl _)) as (h1 & Hle1 & Hle2);
      [by eapply field_keys | done | done |].
    eapply field_le_marker; [exact Hle2 |].
    destruct (field_le_some _ _ _ _ _ Hle1 Hf) as [x' Hf'].
    apply (IH h1 (VRef z) path l k x'); [simpl in Hlen; lia | done | | done | done].
    by rewrite (walk_le_other h h1).
Qed.

(** An object that no path of fewer than [n] rejected keys leads to is
    not written. *)
Lemma redactLevels_frame n : forall h v l,
  (forall path, (length path < n)%nat ->
     Forall (fun k => matches fields k = false) path ->
     walk h v path <> Some (VRef l)) ->
  redactLevels n fields v h !! l = h !! l.
Proof.
  induction n as [| n IH]; intros h v l Hno; simpl; [done |].
  destruct v as [| | | | | l0]; try done.
  destruct (h !! l0) as [o0 |] eqn:Ho0; [| done].
  eapply loop_frame; [apply redactLevels_le | | exact Ho0 | apply incl_refl |].
  - intros ->. apply (Hno []); [simpl; lia | constructor | done].
  - intros k h1 Hk M Hle1. apply IH. intros path Hlen Hrej Hwalk.
    destruct (keys_field h l0 k o0 Ho0 Hk) as [x Hx].
    assert (field h1 l0 k = Some x) as Hx1 by (by rewrite (field_le_other h)).
    rewrite (field_get _ _ _ _ Hx1) in Hwalk.
    apply (Hno (k :: path)); [simpl; lia | by constructor |].
    apply (walk_le_ref h h1); [done |]. simpl. by rewrite Hx1.
Qed.

(** When the configured names are in lower case, the test of the loop
    is the comparison in any letter case. *)
Lemma lowercase_matches k :
  lowercase fields -> ci_match fields k = matches fields k.
Proof.
  unfold lowercase, ci_match, matches, Str.includes.
  induction 1 as [| f fs Hf _ IH]; simpl; [done |].
  rewrite Hf, IH. by rewrite String.eqb_sym.
Qed.

Lemma walk_app h path1 path2 : forall v,
  walk h v (path1 ++ path2) =
  match walk h v path1 with
  | Some y => walk h y path2
  | None => None
  end.
Proof.
  induction path1 as [| k path1 IH]; intros v; simpl; [done |].
  destruct v; try done. destruct (field h l k); [apply IH | done].
Qed.

(** A path either avoids the accepted keys or has a first one. *)
Lemma first_accepted path :
  Forall (fun k => matches fields k = false) path \/
  exists p k q, path = p ++ k :: q /\
    Forall (fun k' => matches fields k' = false) p /\ matches fields k = true.
Proof.
  induction path as [| k path IH]; [by left |].
  destruct (matches fields k) eqn:M.
  - right. by exists [], k, path.
  - destruct IH as [IH | (p & k' & q & -> & Hp & Hk)].
    + left. by constructor.
    + right. exists (k :: p), k', q. repeat split; [| done].
      by constructor.
Qed.

(** After the run, a path of fewer than [n] keys that still leads to an
    object goes through rejected keys only. *)
Lemma redactLevels_paths n h v path l :
  (length path < n)%nat ->
  walk (redactLevels n fields v h) v path = Some (VRef l) ->
  Forall (fun k => matches fields k = false) path.
Proof.
  intros Hlen Hwalk.
  destruct (first_accepted path) as [? | (p & k & q & -> & Hp & Hk)]; [done |].
  exfalso. pose proof (redactLevels_le n v h) as Hle.
  rewrite walk_app, (walk_le_other h) in Hwalk by done.
  destruct (walk h v p) as [y |] eqn:Ey; [| done].
  simpl in Hwalk. destruct y as [| | | | | l1]; try done.
  destruct (field (redactLevels n fields v h) l1 k) as [z |] eqn:Ez; [| done].
  pose proof (field_le h _ l1 k Hle) as F. rewrite Ez in F.
  destruct (field h l1 k) as [z0 |] eqn:Ez0; [| done].
  rewrite (redactLevels_marks n h v p l1 k z0) in Ez; try done.
  - inversion Ez; subst z. by destruct q.
  - rewrite length_app in Hlen. simpl in Hlen. lia.
Qed.

End RedactionFacts.

Section RedactionClaims.
Import JS Redaction.
Variable fields : list string.
Hypothesis fields_lowercase : lowercase fields.

Lemma unmatched_rejected path :
  unmatched fields path -> Forall (fun k => matches fields k = false) path.
Proof.
  unfold unmatched. intros H. eapply Forall_impl; [exact H |].
  intros k Hk. simpl in *. by rewrite <- lowercase_matches.
Qed.

(** C1, as the code has it.  When the configured names are in lower
    case, a run at depth 0 leaves the marker under every key that
    matches a name in any letter case and lies in an object at depth at
    most 10 of the result; it wrote that marker over whatever the key
    held when the keys leading to the object do not match themselves;
    and an object that lies deeper than 10 is as it was. *)
Theorem redaction_within_depth h root :
  redaction_claim fields h root /\
  (forall path l k x,
     (length path <= 10)%nat -> unmatched fields path ->
     walk h root path = Some (VRef l) -> field h l k = Some x ->
     ci_match fields k = true ->
     field (redactSensitiveData root fields 0 h) l k = Some (VStr REDACTED)).
Proof.
  unfold redaction_claim, redactSensitiveData.
  change (11 - 0)%nat with 11%nat. cbv zeta.
  assert (forall path l k x,
     (length path <= 10)%nat -> unmatched fields path ->
     walk h root path = Some (VRef l) -> field h l k = Some x ->
     ci_match fields k = true ->
     field (redactLevels 11 fields root h) l k = Some (VStr REDACTED)) as Hin.
  { intros path l k x Hlen Hun Hwalk Hf Hm.
    rewrite lowercase_matches in Hm by done.
    apply (redactLevels_marks fields 11 h root path l k x);
      [lia | by apply unmatched_rejected | done | done | done]. }
  split; [split |]; [| | exact Hin].
  - intros d l k x Hd (path & Hlen & Hwalk) Hf Hm.
    pose proof (redactLevels_le fields 11 root h) as Hle.
    assert (Forall (fun k => matches fields k = false) path) as Hrej
      by (eapply redactLevels_paths; [| exact Hwalk]; lia).
    rewrite (walk_le_other fields h) in Hwalk by done.
    pose proof (field_le fields h _ l k Hle) as F. rewrite Hf in F.
    destruct (field h l k) as [x0 |] eqn:Ex0; [| done].
    rewrite lowercase_matches in Hm by done.
    rewrite (redactLevels_marks fields 11 h root path l k x0) in Hf;
      try done; [by inversion Hf | lia].
  - intros l Hdeep. apply redactLevels_frame.
    intros path Hlen _ Hwalk. apply (Hdeep (length path)); [lia |].
    by exists path.
Qed.

(** C10, as the code has it.  When the configured names are in lower
    case: a key that matches a name in any letter case, in an object
    reached through at most 10 keys that do not match, has its whole
    value replaced by the marker, be the value a primitive or an object;
    and the run writes no object but those reached through at most 10
    keys that do not match, so it never goes into a value it has
    replaced. *)
Theorem redaction_wholesale h root : wholesale_claim fields h root.
Proof.
  unfold wholesale_claim, redactSensitiveData.
  change (11 - 0)%nat with 11%nat. cbv zeta. split.
  - intros path l k x Hlen Hun Hwalk Hf Hm.
    rewrite lowercase_matches in Hm by done.
    apply (redactLevels_marks fields 11 h root path l k x);
      [lia | by apply unmatched_rejected | done | done | done].
  - intros l Hno. apply redactLevels_frame.
    intros path Hlen Hrej Hwalk. apply (Hno path); [lia | | done].
    unfold unmatched. eapply Forall_impl; [exact Hrej |].
    intros k Hk. simpl in *. by rewrite lowercase_matches.
Qed.

End RedactionClaims.

(** * Properties of the service *)

Ltac heap_norm :=
  repeat (rewrite <- ?app_assoc, ?length_app; simpl).

Section ServiceFacts.
Import Interfaces Effects JS LoggingService.
Variable config : LoggerConfig.
Variable requestConfig : RequestLoggingConfig.
Variable platform : Platform.
Variable JSON_stringify : heap -> val -> json.

Local Abbreviation createLogEntry := (createLogEntry config platform).
Local Abbreviation context_objects := (context_objects config platform).
Local Abbreviation entry_object := (entry_object config platform).
Local Abbreviation truncateBody := (truncateBody requestConfig JSON_stringify).
Local Abbreviation truncated := (truncated requestConfig).
Local Abbreviation error_block := (error_block config).
Local Abbreviation error := (error config platform).
Local Abbreviation leveled := (leveled config platform).
Local Abbreviation logRequest :=
  (logRequest config requestConfig platform JSON_stringify).
Local Abbreviation logResponse :=
  (logResponse config requestConfig platform JSON_stringify).
Local Abbreviation view_headers := (view_headers requestConfig).
Local Abbreviation request_view := request_view.
Local Abbreviation response_view := response_view.
Local Abbreviation body_step := (body_step requestConfig JSON_stringify).
Local Abbreviation serializes := (serializes JSON_stringify).
Local Abbreviation unserializable := (unserializable JSON_stringify).
Local Abbreviation timing_view := (timing_view requestConfig platform).

(** ** What each method returns *)

Lemma createLogEntry_run level message meta h t cs :
  createLogEntry level message meta (World h t cs) =
  Returns (VRef (length h + length (context_objects h t)))
    (World (h ++ context_objects h t ++ [entry_object h t level message meta])
           (S t + length (context_objects h t)) cs).
Proof.
  unfold LoggingService.createLogEntry, LoggingService.context_objects,
    LoggingService.entry_object.
  destruct (includeMetadata config);
    unfold bind, observe, snapshot, new_object, ret; simpl.
  - heap_norm. repeat f_equal; lia.
  - heap_norm. repeat f_equal; lia.
Qed.

Lemma leveled_run (method : LoggerConfig -> Platform -> string -> val -> M unit)
    lvl message meta h t cs :
  (method = debug /\ lvl = "debug") \/ (method = info /\ lvl = "info") \/
  (method = warn /\ lvl = "warn") ->
  method config platform message meta (World h t cs) =
  Returns tt
    (World (h ++ context_objects h t ++ [entry_object h t lvl message meta])
           (S t + length (context_objects h t))
           (cs ++ [Call lvl message
                     (VRef (length h + length (context_objects h t)))])).
Proof.
  intros [[-> ->] | [[-> ->] | [-> ->]]];
    unfold debug, info, warn, bind; by rewrite createLogEntry_run.
Qed.

Lemma truncateBody_run body h t cs :
  truncateBody body (World h t cs) =
  match JSON_stringify h body with
  | Text s =>
      if (Str.len s <=? maxBodyLength requestConfig)%Z
      then Returns body (World h t cs)
      else Returns (VRef (length h)) (World (h ++ [truncated s]) t cs)
  | _ => Throws (World h t cs)
  end.
Proof.
  unfold LoggingService.truncateBody, bind, snapshot. simpl.
  destruct (JSON_stringify h body); try done.
  by destruct (Str.len s <=? maxBodyLength requestConfig)%Z.
Qed.

(** [error] with an error: the block and the metadata bag are added
    before the entry is built. *)
Lemma error_run_with message err meta h t cs :
  truthy err = true ->
  let h1 := h ++ [error_block h err;
                  literal (own_enumerable h meta ++ [("error", VRef (length h))])] in
  error message err meta (World h t cs) =
  Returns tt
    (World (h1 ++ context_objects h1 t
               ++ [entry_object h1 t "error" message (VRef (length h + 1))])
           (S t + length (context_objects h1 t))
           (cs ++ [Call "error" message
                     (VRef (length h1 + length (context_objects h1 t)))])).
Proof.
  intros Ht h1. subst h1.
  unfold LoggingService.error, LoggingService.error_block, bind, snapshot, new_object, ret.
  rewrite Ht. simpl. rewrite <- app_assoc, length_app. simpl.
  by rewrite createLogEntry_run.
Qed.

(** [error] without an error: only the bag, whose [error] is
    [undefined]. *)
Lemma error_run_without message err meta h t cs :
  truthy err = false ->
  let h1 := h ++ [literal (own_enumerable h meta ++ [("error", VUndef)])] in
  error message err meta (World h t cs) =
  Returns tt
    (World (h1 ++ context_objects h1 t
               ++ [entry_object h1 t "error" message (VRef (length h))])
           (S t + length (context_objects h1 t))
           (cs ++ [Call "error" message
                     (VRef (length h1 + length (context_objects h1 t)))])).
Proof.
  intros Ht h1. subst h1.
  unfold LoggingService.error, bind, snapshot, new_object, ret.
  rewrite Ht. simpl. by rewrite createLogEntry_run.
Qed.

(** ** The entry of [createLogEntry] *)

(** C8, as the code has it.  Whatever the level, the message and the
    metadata bag, [createLogEntry] returns an entry that always has the
    key [context].  With [includeMetadata] on, its value is a new object
    holding the host name, the process id and the heap figures read from
    the platform while the entry is built, by two calls of
    [process.memoryUsage()]: [heapUsed] at the second observation of the
    call, [heapTotal] at the third, so the two need not belong to one
    snapshot.  With [includeMetadata] off, the key is written with the
    value [undefined], so the field reads [undefined]. *)
Theorem createLogEntry_context level message meta w :
  exists e w',
    createLogEntry level message meta w = Returns (VRef e) w' /\
    is_Some (field (objects w') e "context") /\
    (present (objects w') e "context" <-> includeMetadata config = true) /\
    (includeMetadata config = true ->
       exists c m,
         field (objects w') e "context" = Some (VRef c) /\
         get (objects w') e "context" = VRef c /\
         get (objects w') c "hostname" = VStr (hostname platform) /\
         get (objects w') c "pid" = num (pid platform) /\
         get (objects w') c "memory" = VRef m /\
         get (objects w') m "heapUsed" =
           num (heapUsed (memoryUsage platform (observations w + 1))) /\
         get (objects w') m "heapTotal" =
           num (heapTotal (memoryUsage platform (observations w + 2))) /\
         observations w' = (observations w + 3)%nat) /\
    (includeMetadata config = false ->
       field (objects w') e "context" = Some VUndef /\
       get (objects w') e "context" = VUndef /\
       observations w' = (observations w + 1)%nat).
Proof.
  destruct w as [h t cs]. rewrite createLogEntry_run.
  eexists _, _. split; [reflexivity |]. simpl.
  assert (forall mid o k,
            field (h ++ mid ++ [o]) (length h + length mid) k
            = assoc k (props o)) as Hfield.
  { intros mid o k. unfold field. rewrite app_assoc.
    rewrite list_lookup_middle; [done |]. by rewrite length_app. }
  unfold present. rewrite Hfield, get_last.
  unfold LoggingService.context_objects, LoggingService.entry_object.
  destruct (includeMetadata config) eqn:Inc.
  - split; [by eexists |]. split; [| split]; [done | | done].
    intros _. exists (S (length h)), (length h). heap_norm.
    replace (S (length h)) with (length h + 1)%nat by lia.
    rewrite !get_next, !get_here.
    replace (t + 1)%nat with (S t) by lia.
    replace (t + 2)%nat with (S (S t)) by lia.
    repeat split; try reflexivity. lia.
  - split; [by eexists |]. split; [| split]; [| done |].
    + split; [intros H; by destruct H | done].
    + intros _. simpl. repeat split. lia.
Qed.

Lemma entry_request h t level message meta :
  get_prop (entry_object h t level message meta) "request" =
  member h meta "request".
Proof. reflexivity. Qed.

Lemma entry_response h t level message meta :
  get_prop (entry_object h t level message meta) "response" =
  member h meta "response".
Proof. reflexivity. Qed.

Lemma entry_slots_undefined h t level message meta :
  (forall k, In k optional_slots -> member h meta k = VUndef) ->
  Forall (fun k => get_prop (entry_object h t level message meta) k = VUndef)
         optional_slots.
Proof.
  clear requestConfig JSON_stringify.
  intros H. unfold LoggingService.entry_object, optional_slots in *.
  repeat constructor; cbn; apply H; simpl; tauto.
Qed.

(** C7. With a metadata argument that is absent, [null] or a primitive,
    no leveled call raises: [createLogEntry] returns an entry, the
    method hands exactly that one entry to the logger, and every slot
    that would come from the bag reads [undefined] (for [error], every
    slot but [error], which is [undefined] when no error was given). *)
Theorem metadata_best_effort message meta w :
  not_an_object meta ->
  (forall level, exists e w',
     createLogEntry level message meta w = Returns (VRef e) w' /\
     Forall (fun k => get (objects w') e k = VUndef) optional_slots) /\
  Forall (fun lm => exists e w',
     lm.2 message meta w = Returns tt w' /\
     calls w' = calls w ++ [Call lm.1 message (VRef e)] /\
     Forall (fun k => get (objects w') e k = VUndef) optional_slots) leveled /\
  (forall err, exists e w',
     error message err meta w = Returns tt w' /\
     calls w' = calls w ++ [Call "error" message (VRef e)] /\
     Forall (fun k => k <> "error" -> get (objects w') e k = VUndef)
            optional_slots /\
     (truthy err = false -> get (objects w') e "error" = VUndef)).
Proof.
  clear requestConfig JSON_stringify.
  intros Hmeta. destruct w as [h t cs].
  assert (forall h' k, member h' meta k = VUndef) as Hm
    by (intros; by destruct meta).
  assert (forall lvl, Forall (fun k =>
            get (h ++ context_objects h t ++ [entry_object h t lvl message meta])
                (length h + length (context_objects h t)) k = VUndef)
            optional_slots) as Hslots.
  { intros lvl. eapply Forall_impl; [apply (entry_slots_undefined h t lvl message meta) |].
    - intros; apply Hm.
    - intros k Hk. simpl in Hk. by rewrite get_last. }
  split; [| split].
  - intros level. rewrite createLogEntry_run. eexists _, _. split; [reflexivity |].
    apply Hslots.
  - unfold LoggingService.leveled. repeat constructor; simpl.
    + rewrite (leveled_run debug "debug") by tauto. eexists _, _.
      split; [reflexivity |]. split; [reflexivity |]. apply Hslots.
    + rewrite (leveled_run info "info") by tauto. eexists _, _.
      split; [reflexivity |]. split; [reflexivity |]. apply Hslots.
    + rewrite (leveled_run warn "warn") by tauto. eexists _, _.
      split; [reflexivity |]. split; [reflexivity |]. apply Hslots.
  - intros err. destruct (truthy err) eqn:Ht.
    + rewrite error_run_with by done. eexists _, _.
      split; [reflexivity |]. split; [reflexivity |]. simpl.
      split; [| done]. apply Forall_forall. intros k Hk Hne.
      apply list_elem_of_In in Hk.
      rewrite get_last. unfold optional_slots in Hk. simpl in Hk.
      assert (get_prop (entry_object
                (h ++ [error_block h err;
                       literal (own_enumerable h meta ++ [("error", VRef (length h))])])
                t "error" message (VRef (length h + 1))) k =
              get_prop (literal (own_enumerable h meta ++ [("error", VRef (length h))])) k)
        as ->.
      { unfold LoggingService.entry_object.
        destruct Hk as [<- | [<- | [<- | [<- | [<- | [<- | [<- | []]]]]]]];
          try done; cbn; by rewrite get_next. }
      apply bag_slot; [by destruct meta | | done].
      destruct Hk as [<- | [<- | [<- | [<- | [<- | [<- | [<- | []]]]]]]]; done.
    + rewrite error_run_without by done. eexists _, _.
      split; [reflexivity |]. split; [reflexivity |]. simpl.
      assert (forall k, In k optional_slots ->
                get_prop (entry_object
                  (h ++ [literal (own_enumerable h meta ++ [("error", VUndef)])])
                  t "error" message (VRef (length h))) k =
                get_prop (literal (own_enumerable h meta ++ [("error", VUndef)])) k)
        as Hread.
      { intros k Hk. unfold LoggingService.entry_object, optional_slots in *.
        simpl in Hk.
        destruct Hk as [<- | [<- | [<- | [<- | [<- | [<- | [<- | []]]]]]]];
          cbn; by rewrite get_here. }
      split.
      * apply Forall_forall. intros k Hk Hne. apply list_elem_of_In in Hk.
        rewrite get_last, Hread by done.
        apply bag_slot; [by destruct meta | | done].
        unfold optional_slots in Hk. simpl in Hk.
        destruct Hk as [<- | [<- | [<- | [<- | [<- | [<- | [<- | []]]]]]]]; done.
      * intros _. rewrite get_last, Hread by (unfold optional_slots; simpl; tauto).
        apply bag_error.
Qed.

(** ** The error block of [error] *)


(** ** Body truncation *)

(** C2. When the body serializes to a text within [maxBodyLength],
    [truncateBody] returns the body itself and changes nothing; when
    the text is longer it returns a new object
    [{_truncated: true, preview}] whose preview is the first
    [maxBodyLength] characters of the text followed by three dots, which
    makes [maxBodyLength + 3] characters ([maxBodyLength] being a
    length, that is, not negative). *)
Theorem truncateBody_spec body s w :
  JSON_stringify (objects w) body = Text s ->
  (Str.len s <= maxBodyLength requestConfig ->
     truncateBody body w = Returns body w) /\
  (Str.len s > maxBodyLength requestConfig ->
     exists l preview,
       truncateBody body w =
         Returns (VRef l)
           (World (objects w ++
                     [literal [("_truncated", VBool true);
                               ("preview", VStr preview)]])
                  (observations w) (calls w)) /\
       (objects w ++ [literal [("_truncated", VBool true);
                               ("preview", VStr preview)]]) !! l =
         Some (literal [("_truncated", VBool true); ("preview", VStr preview)]) /\
       preview = Str.substring0 s (maxBodyLength requestConfig) +:+ "..." /\
       (0 <= maxBodyLength requestConfig ->
        Str.len preview = maxBodyLength requestConfig + 3)).
Proof.
  intros Hs. destruct w as [h t cs]. simpl in *.
  rewrite truncateBody_run, Hs. split.
  - intros Hle. apply Z.leb_le in Hle. by rewrite Hle.
  - intros Hgt. apply Z.gt_lt, Z.leb_gt in Hgt as Hgt'. rewrite Hgt'.
    eexists _, _. split; [reflexivity |].
    split; [by apply list_lookup_middle |]. split; [reflexivity |].
    intros Hnonneg. unfold Str.len, Str.substring0 in *.
    rewrite length_append_str, length_substring0 by lia. simpl. lia.
Qed.

(** ** Request capture *)

(** The loop over [includedHeaders]: [n] is the [headers] object, the
    request view comes right after it. *)
Lemma headers_loop req h t cs view rest : forall hs ps,
  (req_headers req < length h)%nat ->
  get_prop view "headers" = VRef (length h) ->
  forEach hs
    (fun header =>
       h' <- snapshot ;;
       when (truthy (get h' (req_headers req) header))
         (assign (get h' (length h + 1) "headers") header
            (get h' (req_headers req) header)))
    (World (h ++ plain ps :: view :: rest) t cs) =
  Returns tt
    (World (h ++ plain
              (fold_left
                 (fun ps header =>
                    let headerValue := get h (req_headers req) header in
                    if truthy headerValue
                    then set_assoc header headerValue ps else ps) hs ps)
            :: view :: rest) t cs).
Proof.
  induction hs as [| header hs IH]; intros ps Hrh Hview; simpl; [done |].
  unfold bind at 1. unfold bind at 1. unfold snapshot at 1. simpl.
  rewrite get_old by done. rewrite get_next, Hview.
  destruct (truthy (get h (req_headers req) header)); simpl.
  - rewrite store_new0. simpl. by apply IH.
  - by apply IH.
Qed.

Lemma logRequest_excluded req cid w :
  Str.includes (excludePaths requestConfig) (req_path req) = true ->
  logRequest req cid w = Returns tt w.
Proof. intros H. unfold LoggingService.logRequest. by rewrite H. Qed.

(** Up to the body step, [logRequest] only builds the headers object
    and the view. *)
Lemma logRequest_start req cid h t cs :
  Str.includes (excludePaths requestConfig) (req_path req) = false ->
  (req_headers req < length h)%nat ->
  logRequest req cid (World h t cs) =
  ((if logRequestBody requestConfig && truthy (req_body req) then
      body <- truncateBody (req_body req) ;;
      assign (VRef (length h + 1)) "body" body
    else ret tt) ;;;
   when (logRouteParams requestConfig && truthy (req_params req))
     (assign (VRef (length h + 1)) "params" (req_params req)) ;;;
   when (logQueryParams requestConfig && truthy (req_query req))
     (assign (VRef (length h + 1)) "query" (req_query req)) ;;;
   bag <- new_object
     (literal [("request", VRef (length h + 1)); ("correlationId", cid)]) ;;
   info config platform "Incoming request" bag)
    (World (h ++ [plain (view_headers h req);
                  request_view req (length h) VUndef VUndef VUndef]) t cs).
Proof.
  intros Hex Hrh. unfold LoggingService.logRequest. rewrite Hex.
  unfold bind at 1. unfold new_object at 1. simpl.
  unfold bind at 1. unfold new_object at 1. simpl.
  rewrite <- app_assoc, length_app. simpl.
  unfold bind at 1.
  change (literal []) with (plain []).
  by rewrite (headers_loop req h t cs).
Qed.

Lemma logRequest_run req cid h t cs :
  Str.includes (excludePaths requestConfig) (req_path req) = false ->
  (req_headers req < length h)%nat ->
  let n := length h in
  let h3 := h ++ [plain (view_headers h req);
                  request_view req n VUndef VUndef VUndef] in
  match body_step (logRequestBody requestConfig) h3 (req_body req) with
  | Some (b, extra) =>
      let bag := (n + 2 + length extra)%nat in
      let h4 := h ++ [plain (view_headers h req);
                      request_view req n b (params_view requestConfig req)
                        (query_view requestConfig req)]
                  ++ extra
                  ++ [literal [("request", VRef (n + 1)); ("correlationId", cid)]] in
      logRequest req cid (World h t cs) =
      Returns tt
        (World (h4 ++ context_objects h4 t
                   ++ [entry_object h4 t "info" "Incoming request" (VRef bag)])
               (S t + length (context_objects h4 t))
               (cs ++ [Call "info" "Incoming request"
                         (VRef (length h4 + length (context_objects h4 t)))]))
  | None => exists w', logRequest req cid (World h t cs) = Throws w' /\ calls w' = cs
  end.
Proof.
  intros Hex Hrh n h3. subst n h3.
  rewrite (logRequest_start req cid h t cs Hex Hrh).
  unfold LoggingService.body_step, LoggingService.request_view,
    LoggingService.params_view, LoggingService.query_view.
  destruct (logRequestBody requestConfig && truthy (req_body req)) eqn:Eb.
  - destruct (JSON_stringify _ (req_body req)) as [s | |] eqn:Ej;
      [| unfold bind at 1; unfold bind at 1; rewrite truncateBody_run, Ej;
         eexists; split; [reflexivity | done]
       | unfold bind at 1; unfold bind at 1; rewrite truncateBody_run, Ej;
         eexists; split; [reflexivity | done]].
    destruct (Str.len s <=? maxBodyLength requestConfig)%Z eqn:El;
      unfold bind at 1; unfold bind at 1; rewrite truncateBody_run, Ej, El.
    + destruct (logRouteParams requestConfig && truthy (req_params req));
        destruct (logQueryParams requestConfig && truthy (req_query req));
        unfold bind, when, assign, new_object, ret; simpl;
        rewrite ?store_new; simpl; heap_norm;
        rewrite (leveled_run info "info") by tauto; heap_norm;
        unfold set_prop, plain; simpl; repeat (first [reflexivity | lia | f_equal]).
    + destruct (logRouteParams requestConfig && truthy (req_params req));
        destruct (logQueryParams requestConfig && truthy (req_query req));
        unfold bind, when, assign, new_object, ret; simpl;
        heap_norm; rewrite ?store_new; simpl; heap_norm;
        rewrite (leveled_run info "info") by tauto; heap_norm;
        unfold set_prop, plain; simpl; repeat (first [reflexivity | lia | f_equal]).
  - destruct (logRouteParams requestConfig && truthy (req_params req));
      destruct (logQueryParams requestConfig && truthy (req_query req));
      unfold bind, when, assign, new_object, ret; simpl;
      rewrite ?store_new; simpl; heap_norm;
      rewrite (leveled_run info "info") by tauto; heap_norm;
      unfold set_prop, plain; simpl; repeat (first [reflexivity | lia | f_equal]).
Qed.

Lemma body_step_serializes enabled h new body :
  (enabled && truthy body = true -> serializes h body) ->
  exists b extra, body_step enabled (h ++ new) body = Some (b, extra).
Proof.
  intros Hs. unfold LoggingService.body_step.
  destruct (enabled && truthy body); [| eauto].
  destruct (Hs eq_refl new) as [s ->].
  destruct (Str.len s <=? maxBodyLength requestConfig)%Z; eauto.
Qed.

Lemma body_step_unserializable enabled h new body :
  enabled && truthy body = true -> unserializable h body ->
  body_step enabled (h ++ new) body = None.
Proof.
  intros He Hs. unfold LoggingService.body_step. rewrite He.
  specialize (Hs new).
  destruct (JSON_stringify (h ++ new) body) as [s | |]; [| done | done].
  by destruct (Hs s).
Qed.

(** The headers the loop keeps: a configured name whose value on the
    request is truthy, with that value. *)
Lemma view_headers_assoc h req name :
  assoc name (view_headers h req) =
  if Str.includes (includedHeaders requestConfig) name
     && truthy (get h (req_headers req) name)
  then Some (get h (req_headers req) name) else None.
Proof.
  unfold LoggingService.view_headers.
  cut (forall hs ps,
         assoc name
           (fold_left
              (fun ps header =>
                 let headerValue := get h (req_headers req) header in
                 if truthy headerValue
                 then set_assoc header headerValue ps else ps) hs ps) =
         if Str.includes hs name && truthy (get h (req_headers req) name)
         then Some (get h (req_headers req) name) else assoc name ps).
  { intros H. by rewrite H. }
  induction hs as [| header hs IH]; intros ps; simpl; [done |].
  rewrite IH. destruct (String.eqb name header) eqn:E; simpl.
  - apply String.eqb_eq in E. subst header.
    destruct (truthy (get h (req_headers req) name)) eqn:Ht.
    + rewrite andb_true_r. rewrite assoc_set_assoc.
      by destruct (Str.includes hs name).
    + by rewrite !andb_false_r.
  - destruct (Str.includes hs name && truthy (get h (req_headers req) name));
      [done |].
    destruct (truthy (get h (req_headers req) header)); [| done].
    apply assoc_set_assoc_ne. intros ->. by rewrite String.eqb_refl in E.
Qed.

(** C3, as the code has it.  A request whose path is one of
    [excludePaths], compared as a whole and letter for letter, leaves
    the state as it was: no entry, no new object.  For any other path,
    when the body is not logged or serializes to a text, [logRequest]
    hands the logger exactly one entry, at level [info] with the message
    "Incoming request"; when the body is logged and its serialization
    fails, the call fails and no entry is handed over. *)
Theorem logRequest_entries req cid w :
  (req_headers req < length (objects w))%nat ->
  (In (req_path req) (excludePaths requestConfig) ->
     logRequest req cid w = Returns tt w) /\
  (~ In (req_path req) (excludePaths requestConfig) ->
     (logRequestBody requestConfig && truthy (req_body req) = true ->
        serializes (objects w) (req_body req)) ->
     exists e w',
       logRequest req cid w = Returns tt w' /\
       calls w' = calls w ++ [Call "info" "Incoming request" (VRef e)] /\
       get (objects w') e "level" = VStr "info" /\
       get (objects w') e "message" = VStr "Incoming request") /\
  (~ In (req_path req) (excludePaths requestConfig) ->
     logRequestBody requestConfig && truthy (req_body req) = true ->
     unserializable (objects w) (req_body req) ->
     exists w', logRequest req cid w = Throws w' /\ calls w' = calls w).
Proof.
  intros Hrh. destruct w as [h t cs]. simpl in *. split; [| split].
  - intros Hin. apply logRequest_excluded. by apply includes_In.
  - intros Hout Hser. apply includes_not_In in Hout.
    pose proof (logRequest_run req cid h t cs Hout Hrh) as Hrun. simpl in Hrun.
    destruct (body_step_serializes (logRequestBody requestConfig) h
                [plain (view_headers h req);
                 request_view req (length h) VUndef VUndef VUndef]
                (req_body req) Hser) as (b & extra & Hb).
    rewrite Hb in Hrun. rewrite Hrun. eexists _, _.
    split; [reflexivity |]. split; [reflexivity |]. simpl.
    rewrite !get_last. by split.
  - intros Hout Hen Hun. apply includes_not_In in Hout.
    pose proof (logRequest_run req cid h t cs Hout Hrh) as Hrun. simpl in Hrun.
    by rewrite (body_step_unserializable _ h _ _ Hen Hun) in Hrun.
Qed.

(** C9, as the code has it.  In the entry of a request that is not
    excluded, the [headers] object of the request view has exactly the
    names of [includedHeaders] whose value on the request is truthy
    (set and not empty), each with the value the request has; a
    configured name that is missing on the request, or empty there, is
    left out, and no other name gets in. *)
Theorem logRequest_headers req cid w :
  (req_headers req < length (objects w))%nat ->
  ~ In (req_path req) (excludePaths requestConfig) ->
  (logRequestBody requestConfig && truthy (req_body req) = true ->
     serializes (objects w) (req_body req)) ->
  exists e view hs w',
    logRequest req cid w = Returns tt w' /\
    calls w' = calls w ++ [Call "info" "Incoming request" (VRef e)] /\
    get (objects w') e "request" = VRef view /\
    get (objects w') view "headers" = VRef hs /\
    forall name,
      field (objects w') hs name =
      if Str.includes (includedHeaders requestConfig) name
         && truthy (get (objects w) (req_headers req) name)
      then Some (get (objects w) (req_headers req) name) else None.
Proof.
  intros Hrh Hout Hser. destruct w as [h t cs]. simpl in *.
  apply includes_not_In in Hout.
  pose proof (logRequest_run req cid h t cs Hout Hrh) as Hrun. simpl in Hrun.
  destruct (body_step_serializes (logRequestBody requestConfig) h
              [plain (view_headers h req);
               request_view req (length h) VUndef VUndef VUndef]
              (req_body req) Hser) as (b & extra & Hb).
  rewrite Hb in Hrun. rewrite Hrun.
  eexists _, (length h + 1)%nat, (length h). eexists.
  split; [reflexivity |]. split; [reflexivity |]. simpl objects.
  split; [| split].
  - rewrite get_last, entry_request. simpl member. by rewrite get_bag.
  - rewrite <- !app_assoc. simpl. by rewrite get_next.
  - rewrite <- !app_assoc. simpl.
    intros name. rewrite field_here. simpl. apply view_headers_assoc.
Qed.

(** ** Response capture *)

(** Up to the body step, [logResponse] only copies the headers and
    builds the view, with the timing if it is asked for. *)
Lemma logResponse_start res start cid h t cs :
  (res_locals res < length h)%nat ->
  logResponse res start cid (World h t cs) =
  ((if logResponseBody requestConfig
       && truthy (get h (res_locals res) "bodyContent") then
      body <- truncateBody (get h (res_locals res) "bodyContent") ;;
      assign (VRef (length h + 1)) "body" body
    else ret tt) ;;;
   bag <- new_object
     (literal [("response", VRef (length h + 1)); ("correlationId", cid)]) ;;
   info config platform "Outgoing response" bag)
    (World (h ++ [literal (res_headers res);
                  response_view res (length h) (timing_view t start) VUndef])
           (if logTiming requestConfig && truthy start then S t else t) cs).
Proof.
  intros Hloc.
  unfold LoggingService.logResponse, LoggingService.timing_view,
    LoggingService.response_view.
  unfold bind at 1. unfold new_object at 1. simpl.
  unfold bind at 1. unfold new_object at 1. simpl.
  rewrite <- app_assoc, length_app. simpl.
  unfold bind at 1.
  destruct (logTiming requestConfig && truthy start).
  - unfold bind at 1. unfold observe at 1. simpl.
    destruct (hrtime platform t start) as [seconds nanoseconds].
    unfold assign. simpl. rewrite store_new. simpl.
    unfold bind at 1. unfold snapshot at 1. simpl objects.
    by rewrite get_old.
  - simpl. unfold bind at 1. unfold snapshot at 1. simpl objects.
    by rewrite get_old.
Qed.

Lemma logResponse_run res start cid h t cs :
  (res_locals res < length h)%nat ->
  let n := length h in
  let t1 := if logTiming requestConfig && truthy start then S t else t in
  let h3 := h ++ [literal (res_headers res);
                  response_view res n (timing_view t start) VUndef] in
  match body_step (logResponseBody requestConfig) h3
          (get h (res_locals res) "bodyContent") with
  | Some (b, extra) =>
      let bag := (n + 2 + length extra)%nat in
      let h4 := h ++ [literal (res_headers res);
                      response_view res n (timing_view t start) b]
                  ++ extra
                  ++ [literal [("response", VRef (n + 1)); ("correlationId", cid)]] in
      logResponse res start cid (World h t cs) =
      Returns tt
        (World (h4 ++ context_objects h4 t1
                   ++ [entry_object h4 t1 "info" "Outgoing response" (VRef bag)])
               (S t1 + length (context_objects h4 t1))
               (cs ++ [Call "info" "Outgoing response"
                         (VRef (length h4 + length (context_objects h4 t1)))]))
  | None =>
      exists w', logResponse res start cid (World h t cs) = Throws w' /\ calls w' = cs
  end.
Proof.
  intros Hloc n t1 h3. subst n t1 h3.
  rewrite logResponse_start by done.
  generalize (timing_view t start) as timing.
  generalize (if logTiming requestConfig && truthy start then S t else t) as t1.
  intros t1 timing.
  unfold LoggingService.body_step, LoggingService.response_view.
  destruct (logResponseBody requestConfig
            && truthy (get h (res_locals res) "bodyContent")) eqn:Eb.
  - destruct (JSON_stringify _ (get h (res_locals res) "bodyContent"))
      as [s | |] eqn:Ej;
      [| unfold bind at 1; unfold bind at 1; rewrite truncateBody_run, Ej;
         eexists; split; [reflexivity | done]
       | unfold bind at 1; unfold bind at 1; rewrite truncateBody_run, Ej;
         eexists; split; [reflexivity | done]].
    destruct (Str.len s <=? maxBodyLength requestConfig)%Z eqn:El;
      unfold bind at 1; unfold bind at 1; rewrite truncateBody_run, Ej, El;
      unfold bind, assign, new_object, ret; simpl;
      heap_norm; rewrite ?store_new; simpl; heap_norm;
      rewrite (leveled_run info "info") by tauto; heap_norm;
      unfold set_prop, plain; simpl; repeat (first [reflexivity | lia | f_equal]).
  - unfold bind, assign, new_object, ret; simpl;
      heap_norm; rewrite (leveled_run info "info") by tauto; heap_norm;
      unfold set_prop, plain; simpl; repeat (first [reflexivity | lia | f_equal]).
Qed.

(** C6, as the code has it.  [logResponse] never looks at a path.  When
    the captured body is not logged or serializes to a text, it hands
    the logger exactly one entry, at level [info] with the message
    "Outgoing response", whose response view holds the status code and
    a copy of all the response headers; when the captured body is logged
    and its serialization fails, the call fails and no entry is handed
    over. *)
Theorem logResponse_entries res start cid w :
  (res_locals res < length (objects w))%nat ->
  let bodyContent := get (objects w) (res_locals res) "bodyContent" in
  ((logResponseBody requestConfig && truthy bodyContent = true ->
      serializes (objects w) bodyContent) ->
   exists e view hs w',
     logResponse res start cid w = Returns tt w' /\
     calls w' = calls w ++ [Call "info" "Outgoing response" (VRef e)] /\
     get (objects w') e "level" = VStr "info" /\
     get (objects w') e "message" = VStr "Outgoing response" /\
     get (objects w') e "response" = VRef view /\
     get (objects w') view "statusCode" = num (res_statusCode res) /\
     get (objects w') view "headers" = VRef hs /\
     objects w' !! hs = Some (literal (res_headers res))) /\
  (logResponseBody requestConfig && truthy bodyContent = true ->
   unserializable (objects w) bodyContent ->
   exists w', logResponse res start cid w = Throws w' /\ calls w' = calls w).
Proof.
  intros Hloc bodyContent. subst bodyContent. destruct w as [h t cs]. simpl in *.
  pose proof (logResponse_run res start cid h t cs Hloc) as Hrun. simpl in Hrun.
  split.
  - intros Hser.
    destruct (body_step_serializes (logResponseBody requestConfig) h
                [literal (res_headers res);
                 response_view res (length h) (timing_view t start) VUndef]
                _ Hser) as (b & extra & Hb).
    rewrite Hb in Hrun. rewrite Hrun.
    eexists _, (length h + 1)%nat, (length h). eexists.
    split; [reflexivity |]. split; [reflexivity |]. simpl objects.
    split; [| split; [| split; [| split; [| split]]]].
    + by rewrite get_last.
    + by rewrite get_last.
    + rewrite get_last, entry_response. simpl member. by rewrite get_bag.
    + rewrite <- !app_assoc. simpl. by rewrite get_next.
    + rewrite <- !app_assoc. simpl. by rewrite get_next.
    + rewrite <- !app_assoc. simpl. by apply list_lookup_middle.
  - intros Hen Hun.
    by rewrite (body_step_unserializable _ h _ _ Hen Hun) in Hrun.
Qed.

(** ** Delivery to the sinks *)

Lemma delivered_run lvl :
  level config <> EmptyString ->
  Winston.delivered (initializeLogger config) lvl =
  (if console config && Winston.passes (level config) lvl
   then [Winston.Console] else []) ++
  match logDir_set config with
  | Some dir =>
      (if Winston.passes "error" lvl
       then [Winston.File (dir +:+ "/error.log")] else []) ++
      (if Winston.passes (level config) lvl
       then [Winston.File (dir +:+ "/combined.log")] else [])
  | None => []
  end.
Proof.
  intros Hne. apply String.eqb_neq in Hne.
  unfold initializeLogger, Winston.delivered, Winston.createLogger.
  rewrite Hne.
  destruct (console config), (logDir_set config) as [dir |];
    unfold Winston.accepts; simpl;
    destruct (Winston.passes (level config) lvl);
    destruct (Winston.passes "error" lvl); reflexivity.
Qed.

(** C5. With a configured minimum level and an entry level among
    [error], [warn], [info] and [debug]: an entry strictly below the
    minimum reaches no sink; an entry at or above it reaches the console
    when the console is enabled; and an entry of level [error] reaches
    the file [error.log] of the log directory when one is configured
    (that file takes no entry of another level, while [combined.log]
    takes every entry at or above the minimum). *)
Theorem delivery lvl :
  is_level (level config) -> is_level lvl ->
  let lg := initializeLogger config in
  (below lvl (level config) -> Winston.delivered lg lvl = []) /\
  (~ below lvl (level config) -> console config = true ->
     In Winston.Console (Winston.delivered lg lvl)) /\
  (forall dir, logDir_set config = Some dir ->
     (lvl = "error" ->
        In (Winston.File (dir +:+ "/error.log")) (Winston.delivered lg lvl)) /\
     (lvl <> "error" ->
        ~ In (Winston.File (dir +:+ "/error.log")) (Winston.delivered lg lvl)) /\
     (~ below lvl (level config) ->
        In (Winston.File (dir +:+ "/combined.log")) (Winston.delivered lg lvl))).
Proof.
  intros Hmin Hlvl lg. subst lg.
  assert (level config <> EmptyString) as Hne.
  { intros E. rewrite E in Hmin. simpl in Hmin.
    destruct Hmin as [? | [? | [? | [? | []]]]]; done. }
  rewrite (delivered_run lvl Hne).
  assert (Winston.passes (level config) lvl = true <-> ~ below lvl (level config))
    as Hpass.
  { unfold is_level, below, Winston.passes in *. simpl in Hmin, Hlvl.
    destruct Hmin as [<- | [<- | [<- | [<- | []]]]];
      destruct Hlvl as [<- | [<- | [<- | [<- | []]]]];
      simpl; split; intros; try done; try lia. }
  assert (Winston.passes "error" lvl = true <-> lvl = "error") as Herr.
  { unfold is_level, Winston.passes in *. simpl in Hlvl.
    destruct Hlvl as [<- | [<- | [<- | [<- | []]]]]; simpl; split; done. }
  split; [| split].
  - intros Hb.
    assert (Winston.passes (level config) lvl = false) as ->.
    { apply not_true_is_false. intros E. by apply Hpass in E. }
    assert (Winston.passes "error" lvl = false) as ->.
    { apply not_true_is_false. intros E. apply Herr in E. subst lvl.
      unfold below in Hb. simpl in Hb.
      destruct (Winston.levels (level config)); [lia | done]. }
    rewrite andb_false_r. by destruct (logDir_set config).
  - intros Hnb Hc. apply Hpass in Hnb. rewrite Hc, Hnb. by left.
  - intros dir Hdir. rewrite Hdir. split; [| split].
    + intros Hl. apply Herr in Hl. rewrite Hl.
      apply in_or_app. right. by left.
    + intros Hl Hin.
      assert (Winston.passes "error" lvl = false) as Hf.
      { apply not_true_is_false. intros E. by apply Herr in E. }
      rewrite Hf in Hin. simpl in Hin.
      apply in_app_or in Hin as [Hin | Hin].
      * destruct (console config && Winston.passes (level config) lvl);
          [| done]. by destruct Hin.
      * destruct (Winston.passes (level config) lvl); [| done].
        destruct Hin as [E | []]. inversion E as [E'].
        apply (f_equal String.length) in E'.
        rewrite !length_append_str in E'. simpl in E'. lia.
    + intros Hnb. apply Hpass in Hnb. rewrite Hnb.
      apply in_or_app. right. apply in_or_app. right. by left.
Qed.

End ServiceFacts.

(** * Instances and counterexamples *)

Section Instances.
Import Interfaces Effects JS Redaction LoggingService Examples.

Lemma lowercase_redactedFields : lowercase (redactedFields config).
Proof. unfold lowercase. simpl. repeat constructor. Qed.

(** The scenario of the specification, an instance of C1. *)
Lemma redaction_within_depth_witness :
  lowercase (redactedFields config) /\
  field (redactSensitiveData (VRef 0) (redactedFields config) 0 nested_user)
        1 "password" = Some (VStr REDACTED).
Proof.
  split; [apply lowercase_redactedFields |].
  destruct (redaction_within_depth (redactedFields config)
              lowercase_redactedFields nested_user (VRef 0)) as [_ H].
  apply (H ["user"] 1%nat "password" (VStr "secret")).
  - simpl. lia.
  - unfold unmatched. repeat constructor.
  - reflexivity.
  - reflexivity.
  - reflexivity.
Defined.

(** With the field name ["Password"], the key [Password] matches it in
    any letter case and keeps its value: C1 as worded fails. *)
Lemma redaction_claim_counterexample :
  ~ redaction_claim ["Password"] capital_key (VRef 0).
Proof.
  intros [H _].
  specialize (H 0%nat 0%nat "Password" (VStr "secret")).
  assert (VStr "secret" = VStr REDACTED) as E; [| discriminate E].
  apply H.
  - lia.
  - by exists [].
  - reflexivity.
  - reflexivity.
Qed.

(** A key below a key that matches is not looked at: the object that
    held it is dropped from the logged structure with its content as it
    was. *)
Example redaction_below_replaced_key :
  let h' := redactSensitiveData (VRef 0) ["password"; "token"] 0
              secret_in_secret in
  field h' 0 "password" = Some (VStr REDACTED) /\
  field h' 1 "token" = Some (VStr "abc").
Proof. split; reflexivity. Qed.

(** The cap is at depth 10: in a chain of 13 objects the password of
    the object at depth 10 is replaced, that of the object at depth 11
    is not. *)
Example redaction_stops_at_depth_10 :
  let h' := redactSensitiveData (VRef 0) ["password"] 0 (chain 13) in
  field h' 10 "password" = Some (VStr REDACTED) /\
  field h' 11 "password" = Some (VStr "secret").
Proof. split; reflexivity. Qed.

(** On an object that refers to itself the run ends, by the cap, and
    the token is replaced. *)
Example redaction_of_self_reference :
  redactSensitiveData (VRef 0) ["token"] 0 self_reference =
  [plain [("self", VRef 0); ("token", VStr REDACTED)]].
Proof. reflexivity. Qed.

(** An instance of C10: the object under [password] is replaced as a
    whole. *)
Lemma redaction_wholesale_witness :
  lowercase (redactedFields config) /\
  wholesale_claim (redactedFields config) secret_in_secret (VRef 0).
Proof.
  split; [apply lowercase_redactedFields |].
  apply (redaction_wholesale (redactedFields config)
           lowercase_redactedFields secret_in_secret (VRef 0)).
Defined.

(** With the field name ["Token"], the object under the key [Token] is
    not replaced: C10 as worded fails. *)
Lemma wholesale_claim_counterexample :
  ~ wholesale_claim ["Token"] capital_token (VRef 0).
Proof.
  intros [H _].
  specialize (H [] 0%nat "Token" (VRef 1)).
  assert (field (redactSensitiveData (VRef 0) ["Token"] 0 capital_token)
                0 "Token" = Some (VStr REDACTED)) as E.
  { apply H; [simpl; lia | constructor | reflexivity | reflexivity | reflexivity]. }
  vm_compute in E. discriminate E.
Qed.

(** ** Body truncation *)

(** The scenario [maxBodyLength = 10] with a 20-character serialization:
    the preview has 13 characters. *)
Lemma truncateBody_spec_witness :
  JSON.stringify (objects empty_world) body20
    = Text (JSON.quote "abcdefghijklmnopqr") /\
  exists l preview,
    truncateBody requestConfig10 JSON.stringify body20 empty_world =
      Returns (VRef l)
        (World [literal [("_truncated", VBool true); ("preview", VStr preview)]]
               0 []) /\
    Str.len preview = 13.
Proof.
  split; [reflexivity |].
  destruct (truncateBody_spec requestConfig10 JSON.stringify body20
              (JSON.quote "abcdefghijklmnopqr") empty_world eq_refl)
    as [_ H].
  destruct (H eq_refl) as (l & preview & Hrun & _ & _ & Hlen).
  exists l, preview. split; [exact Hrun |]. apply Hlen. simpl. lia.
Defined.

(** ** Request capture *)

Lemma plain_body_serializes :
  serializes JSON.stringify (objects plain_body_world) (VRef 1).
Proof.
  eapply serializes_closed.
  - unfold JSON.closed. simpl. repeat constructor.
  - simpl. lia.
  - reflexivity.
Qed.

(** The serializer stops on the circular body because it meets the
    object again, not because its bound is reached. *)
Example circular_body_detected :
  JSON.stringify_within 3 (objects circular_body_world) [] (VRef 1)
  = Some TypeError.
Proof. reflexivity. Qed.

(** The scenario [excludePaths = ["/health"]]: a request to [/health]
    leaves the state as it is. *)
Example logRequest_health :
  logRequest config requestConfig platform JSON.stringify
    health_request VUndef plain_body_world = Returns tt plain_body_world.
Proof. reflexivity. Qed.

(** A request to [/status] with the body [{name: "a"}] gives one
    entry. *)
Lemma logRequest_entries_witness :
  (req_headers status_request < length (objects plain_body_world))%nat /\
  exists e w',
    logRequest config requestConfig platform JSON.stringify
      status_request (VStr "req-1") plain_body_world = Returns tt w' /\
    calls w' = [Call "info" "Incoming request" (VRef e)].
Proof.
  assert (req_headers status_request < length (objects plain_body_world))%nat
    as Hrh by (simpl; lia).
  split; [exact Hrh |].
  destruct (logRequest_entries config requestConfig platform JSON.stringify
              status_request (VStr "req-1") plain_body_world Hrh)
    as (_ & H & _).
  assert (~ In (req_path status_request) (excludePaths requestConfig)) as Hout
    by (simpl; intros [E | [E | []]]; discriminate E).
  destruct (H Hout (fun _ => plain_body_serializes))
    as (e & w' & Hrun & Hcalls & _).
  exists e, w'. by split.
Defined.

(** A request to [/status] whose body refers to itself is not excluded,
    and [logRequest] fails without an entry: C3 as worded fails. *)
Lemma request_claim_counterexample :
  ~ request_claim config requestConfig platform JSON.stringify
      status_request VUndef circular_body_world.
Proof.
  intros [_ H].
  assert (~ In (req_path status_request) (excludePaths requestConfig)) as Hout
    by (simpl; intros [E | [E | []]]; discriminate E).
  destruct (H Hout) as (e & w' & Hrun & _).
  vm_compute in Hrun. discriminate Hrun.
Qed.

(** The view of the same request keeps [host], the only configured
    header it has. *)
Lemma logRequest_headers_witness :
  (req_headers status_request < length (objects plain_body_world))%nat /\
  ~ In (req_path status_request) (excludePaths requestConfig) /\
  exists e view hs w',
    logRequest config requestConfig platform JSON.stringify
      status_request VUndef plain_body_world = Returns tt w' /\
    get (objects w') e "request" = VRef view /\
    get (objects w') view "headers" = VRef hs /\
    field (objects w') hs "host" = Some (VStr "example.org") /\
    field (objects w') hs "accept" = None /\
    field (objects w') hs "referer" = None.
Proof.
  assert (req_headers status_request < length (objects plain_body_world))%nat
    as Hrh by (simpl; lia).
  assert (~ In (req_path status_request) (excludePaths requestConfig)) as Hout
    by (simpl; intros [E | [E | []]]; discriminate E).
  split; [exact Hrh |]. split; [exact Hout |].
  destruct (logRequest_headers config requestConfig platform JSON.stringify
              status_request VUndef plain_body_world Hrh Hout
              (fun _ => plain_body_serializes))
    as (e & view & hs & w' & Hrun & _ & He & Hv & Hnames).
  exists e, view, hs, w'. rewrite !Hnames. by repeat split.
Defined.

(** A request that has an empty [referer] header: the name is
    configured and the request has it, yet the view leaves it out: C9
    as worded fails. *)
Lemma headers_claim_counterexample :
  ~ headers_claim config requestConfig platform JSON.stringify
      status_request VUndef empty_referer_world.
Proof.
  intros (e & view & hs & w' & Hrun & Hcalls & He & Hv & Hnames).
  vm_compute in Hrun. injection Hrun as <-.
  vm_compute in Hcalls. injection Hcalls as <-.
  vm_compute in He. injection He as <-.
  vm_compute in Hv. injection Hv as <-.
  destruct (proj2 (Hnames "referer")) as [x Hx].
  - split; [simpl; tauto | by eexists].
  - vm_compute in Hx. discriminate Hx.
Qed.

(** ** Response capture *)

Lemma captured_body_serializes :
  serializes JSON.stringify (objects captured_body_world)
    (get (objects captured_body_world) (res_locals ok_response) "bodyContent").
Proof. intros extra. eexists. reflexivity. Qed.

(** A response with a captured body [{ok: true}] gives one entry with
    all its headers. *)
Lemma logResponse_entries_witness :
  (res_locals ok_response < length (objects captured_body_world))%nat /\
  exists e view hs w',
    logResponse config requestConfig platform JSON.stringify
      ok_response (VRef 0) (VStr "req-1") captured_body_world = Returns tt w' /\
    calls w' = [Call "info" "Outgoing response" (VRef e)] /\
    get (objects w') e "response" = VRef view /\
    get (objects w') view "headers" = VRef hs /\
    objects w' !! hs = Some (literal (res_headers ok_response)).
Proof.
  assert (res_locals ok_response < length (objects captured_body_world))%nat
    as Hloc by (simpl; lia).
  split; [exact Hloc |].
  destruct (logResponse_entries config requestConfig platform JSON.stringify
              ok_response (VRef 0) (VStr "req-1") captured_body_world Hloc)
    as [H _].
  destruct (H (fun _ => captured_body_serializes))
    as (e & view & hs & w' & Hrun & Hcalls & _ & _ & He & _ & Hv & Hhs).
  by exists e, view, hs, w'.
Defined.

(** A response whose captured body refers to itself: [logResponse]
    fails without an entry: C6 as worded fails. *)
Lemma response_claim_counterexample :
  ~ response_claim config requestConfig platform JSON.stringify
      ok_response VUndef VUndef circular_response_world.
Proof.
  intros (e & view & hs & w' & Hrun & _).
  vm_compute in Hrun. discriminate Hrun.
Qed.

(** ** The error block *)



(** ** Metadata that is not an object *)

Lemma metadata_best_effort_witness :
  not_an_object VNull /\
  exists e w',
    info config platform "started" VNull empty_world = Returns tt w' /\
    calls w' = [Call "info" "started" (VRef e)] /\
    Forall (fun k => get (objects w') e k = VUndef) optional_slots.
Proof.
  split; [exact I |].
  destruct (metadata_best_effort config platform "started" VNull empty_world I)
    as (_ & H & _).
  unfold leveled in H.
  apply Forall_cons in H as [_ H]. apply Forall_cons in H as [H _].
  exact H.
Defined.

(** ** The context block *)

(** On a platform whose heap figures grow between two readings, the
    entry's [heapUsed] and [heapTotal] are those of no single reading;
    and with the context block switched off the entry still has the key
    [context]: C8 as worded fails both ways. *)
Lemma context_claim_counterexample :
  ~ context_claim config platform "info" "started" VUndef empty_world /\
  ~ context_claim config_without_metadata platform "info" "started" VUndef
      empty_world.
Proof.
  split.
  - intros (e & w' & Hrun & _ & H).
    vm_compute in Hrun. injection Hrun as <- <-.
    destruct (H eq_refl) as (c & m & t & Hc & _ & _ & Hm & Hused & Htotal).
    vm_compute in Hc. injection Hc as <-.
    vm_compute in Hm. injection Hm as <-.
    unfold num, inject_Z in Hused, Htotal.
    injection Hused as Hused. injection Htotal as Htotal.
    simpl in Hused, Htotal. lia.
  - intros (e & w' & Hrun & Hiff & _).
    vm_compute in Hrun. injection Hrun as <- <-.
    assert (includeMetadata config_without_metadata = true) as E;
      [| discriminate E].
    apply Hiff. vm_compute. by eexists.
Qed.

(** ** Delivery *)

Lemma delivery_witness :
  is_level (level config) /\ is_level "error" /\
  In (Winston.File "/var/log/app/error.log")
     (Winston.delivered (initializeLogger config) "error").
Proof.
  assert (is_level (level config)) as Hmin
    by (right; right; left; reflexivity).
  assert (is_level "error") as Hlvl by (left; reflexivity).
  split; [exact Hmin |]. split; [exact Hlvl |].
  destruct (delivery config "error" Hmin Hlvl) as (_ & _ & H).
  destruct (H "/var/log/app" eq_refl) as (Herr & _).
  by apply Herr.
Defined.

End Instances.

(** * More about the redaction engine *)

Section RedactionInvariants.
Import JS Redaction.
Variable fields : list string.

Local Notation "p ⊑ q" := (heap_le fields p q) (at level 70).
Local Abbreviation marker := (VStr REDACTED).

Lemma set_assoc_same ps k v : assoc k ps = Some v -> set_assoc k v ps = ps.
Proof.
  induction ps as [| [k1 v1] ps IH]; simpl; [done |].
  destruct (String.eqb k k1).
  - intros E. by inversion E.
  - intros E. by rewrite IH.
Qed.

(** Writing the value a key already holds changes nothing. *)
Lemma store_same h l k v : field h l k = Some v -> store h l k v = h.
Proof.
  unfold field, store. destruct (h !! l) as [o |] eqn:Ho; [| done].
  intros E. unfold set_prop. rewrite set_assoc_same by done.
  destruct o. simpl. by apply list_insert_id.
Qed.

Lemma fold_left_fixed {A} (f : heap -> A -> heap) ks h :
  (forall k, In k ks -> f h k = h) -> fold_left f ks h = h.
Proof.
  induction ks as [| k ks IH]; simpl; [done |]. intros H.
  rewrite (H k) by (by left). apply IH. intros k' Hk'. apply H. by right.
Qed.

(** A store that already holds every mark of a run is left as it is by
    the same run. *)
Lemma redactLevels_saturated n : forall v h h',
  redactLevels n fields v h ⊑ h' -> redactLevels n fields v h' = h'.
Proof.
  induction n as [| n IH]; intros v h h' Hle; [done |].
  pose proof (heap_le_trans fields _ _ _
                (redactLevels_le fields (S n) v h) Hle) as Hhh'.
  simpl in *. destruct v as [| | | | | l]; try done.
  destruct (h !! l) as [o |] eqn:Ho.
  - destruct (heap_le_lookup fields h h' l o Hhh' Ho) as (o' & Ho' & Hoo').
    rewrite Ho', (obj_le_keys fields _ _ Hoo').
    apply fold_left_fixed. intros k Hk. unfold redactKey.
    destruct (Str.includes fields (Str.toLowerCase k)) eqn:M.
    + apply store_same. eapply field_le_marker; [exact Hle |].
      eapply loop_marks;
        [apply redactLevels_le | exact Ho | apply incl_refl | done | done].
    + destruct (keys_field h l k o Ho Hk) as [x Hx].
      assert (field h' l k = Some x) as Hx'
        by (by rewrite (field_le_other fields h h')).
      rewrite (field_get _ _ _ _ Hx').
      destruct x as [| | | | | z]; simpl; try done.
      * by destruct n.
      * destruct (loop_descends fields (redactLevels n fields)
                    (redactLevels_le fields n) l (keys o) h o k z
                    Ho (incl_refl _) Hk M Hx) as (h1 & _ & B).
        apply (IH (VRef z) h1). by eapply heap_le_trans.
  - destruct (h' !! l) as [o' |] eqn:Ho'; [| done].
    destruct (heap_le_lookup_r fields h h' l o' Hhh' Ho') as (o & Ho2 & _).
    congruence.
Qed.

Lemma entries_unmatched ps ps' :
  Forall2 (entry_le fields) ps ps' ->
  (forall k, In k (map fst ps) -> matches fields k = false) ->
  ps' = ps.
Proof.
  induction 1 as [| [k v] [k' v'] ps ps' [E H] _ IH]; simpl; [done |].
  intros Hno. simpl in *. subst k'. f_equal.
  - destruct H as [-> | [M _]]; [done |].
    rewrite Hno in M by (by left). discriminate.
  - apply IH. intros k0 Hk0. apply Hno. by right.
Qed.

(** ** What a run never does *)

(** X1. Whatever the value, the names and the depth, a run of
    [redactSensitiveData] keeps the store's objects in place: none is
    added or removed, each keeps its kind, its hidden properties and its
    keys in their order, and the value under a key either is the one it
    was or, for a key the loop test accepts, is the marker. *)
Theorem redaction_only_marks obj depth h :
  let h' := redactSensitiveData obj fields depth h in
  length h' = length h /\
  forall l o, h !! l = Some o ->
    exists o', h' !! l = Some o' /\
      is_array o' = is_array o /\ hidden o' = hidden o /\ keys o' = keys o /\
      forall k,
        assoc k (props o') = assoc k (props o) \/
        (matches fields k = true /\ is_Some (assoc k (props o)) /\
         assoc k (props o') = Some marker).
Proof.
  intros h'. subst h'. unfold redactSensitiveData.
  pose proof (redactLevels_le fields (11 - depth) obj h) as Hle.
  split; [symmetry; by eapply Forall2_length |].
  intros l o Ho.
  destruct (heap_le_lookup fields _ _ l o Hle Ho) as (o' & Ho' & Hoo').
  exists o'. split; [done |].
  pose proof (obj_le_keys fields _ _ Hoo') as Hk.
  destruct Hoo' as (Ha & Hh & Hp). repeat split; try done.
  intros k. pose proof (assoc_le fields _ _ k Hp) as F.
  destruct (assoc k (props o)) as [v |], (assoc k (props o')) as [v' |];
    try done; [| by left].
  destruct F as [-> | [M ->]]; [by left | right]. by repeat split.
Qed.

(** ** Running twice *)

(** X2. A second run over the result of a run changes nothing: applying
    the redaction format to the same entry once more, as happens when
    several transports share the format, has no further effect. *)
Theorem redaction_idempotent obj depth h :
  redactSensitiveData obj fields depth (redactSensitiveData obj fields depth h)
  = redactSensitiveData obj fields depth h.
Proof.
  unfold redactSensitiveData.
  apply (redactLevels_saturated (11 - depth) obj h). apply heap_le_refl.
Qed.

(** ** Nothing to redact *)

(** X3. When no enumerable key of the store is accepted by the loop test
    (in particular when the list of names is empty), a run changes
    nothing at all. *)
Theorem redaction_without_match obj depth h :
  (forall l o k, h !! l = Some o -> In k (keys o) -> matches fields k = false) ->
  redactSensitiveData obj fields depth h = h.
Proof.
  intros Hno. unfold redactSensitiveData.
  pose proof (redactLevels_le fields (11 - depth) obj h) as Hle.
  revert Hle Hno. generalize (redactLevels (11 - depth) fields obj h) as h'.
  intros h' Hle. induction Hle as [| o o' h h' (Ha & Hh & Hp) _ IH]; [done |].
  intros Hno. f_equal.
  - destruct o as [a ps hd], o' as [a' ps' hd']. simpl in *. subst.
    f_equal. apply entries_unmatched; [done |].
    intros k Hk. apply (Hno 0%nat (Obj a ps hd) k); [done | exact Hk].
  - apply IH. intros l o0 k Ho0. apply (Hno (S l) o0 k). exact Ho0.
Qed.

End RedactionInvariants.

(** * More about the service *)

Section ServiceInvariants.
Import Interfaces Effects JS Redaction LoggingService.
Variable config : LoggerConfig.
Variable requestConfig : RequestLoggingConfig.
Variable platform : Platform.
Variable JSON_stringify : heap -> val -> json.

Local Abbreviation createLogEntry := (createLogEntry config platform).
Local Abbreviation createCustomFormat := (createCustomFormat config platform).
Local Abbreviation createRedactionFormat := (createRedactionFormat config).
Local Abbreviation context_objects := (context_objects config platform).
Local Abbreviation entry_object := (entry_object config platform).
Local Abbreviation error := (error config platform).
Local Abbreviation leveled := (leveled config platform).
Local Abbreviation logRequest :=
  (logRequest config requestConfig platform JSON_stringify).
Local Abbreviation logResponse :=
  (logResponse config requestConfig platform JSON_stringify).
Local Abbreviation view_headers := (view_headers requestConfig).
Local Abbreviation body_step := (body_step requestConfig JSON_stringify).
Local Abbreviation truncated := (truncated requestConfig).
Local Abbreviation timing_view := (timing_view requestConfig platform).

(** ** Helpers on the store *)

Lemma store_old (h new : heap) l k v :
  (l < length h)%nat -> store (h ++ new) l k v = store h l k v ++ new.
Proof.
  intros Hl. unfold store. rewrite lookup_app_l by done.
  destruct (h !! l); [| done]. by apply insert_app_l.
Qed.

Lemma get_store_eq h l k v o : h !! l = Some o -> get (store h l k v) l k = v.
Proof. intros Ho. apply field_get. by eapply field_store. Qed.

Lemma get_store_ne h l k k' v : k' <> k -> get (store h l k v) l k' = get h l k'.
Proof.
  intros Hne. unfold store, get.
  destruct (h !! l) as [o |] eqn:Ho; [| by rewrite Ho].
  rewrite list_lookup_insert_eq by (by eapply lookup_lt_Some).
  unfold get_prop, set_prop. simpl. by rewrite assoc_set_assoc_ne.
Qed.

Lemma length_store h l k v : length (store h l k v) = length h.
Proof. unfold store. destruct (h !! l); [by rewrite length_insert | done]. Qed.

Lemma field_old (h new : heap) l k :
  (l < length h)%nat -> field (h ++ new) l k = field h l k.
Proof. intros Hl. unfold field. by rewrite lookup_app_l. Qed.

Lemma field_next (h : heap) o o' rest k :
  field (h ++ o :: o' :: rest) (length h + 1) k = assoc k (props o').
Proof.
  unfold field. replace (h ++ o :: o' :: rest) with ((h ++ [o]) ++ o' :: rest)
    by (by rewrite <- app_assoc).
  rewrite list_lookup_middle; [done |]. by rewrite length_app.
Qed.

Lemma field_last (h mid : heap) o k :
  field (h ++ mid ++ [o]) (length h + length mid) k = assoc k (props o).
Proof.
  unfold field. rewrite app_assoc.
  rewrite list_lookup_middle; [done |]. by rewrite length_app.
Qed.

(** What the spread of an object leaves under a key: the value of the
    object's own enumerable property, if it has one. *)
Lemma assoc_spread (f : string -> val) ks : forall ps k,
  In k ks ->
  assoc k (fold_left (fun ps e => set_assoc e.1 e.2 ps)
                     (map (fun k => (k, f k)) ks) ps) = Some (f k).
Proof.
  induction ks as [| k1 ks IH]; intros ps k Hk; simpl in *; [done |].
  destruct (decide (k ∈ ks)) as [Hin | Hout].
  - apply IH. by apply list_elem_of_In.
  - destruct Hk as [-> | Hk]; [| by apply list_elem_of_In in Hk].
    rewrite assoc_writes_other.
    + apply assoc_set_assoc.
    + rewrite map_map. simpl. rewrite map_id. intros H. apply Hout.
      by apply list_elem_of_In.
Qed.

Lemma assoc_some_keys ps k v : assoc k ps = Some v -> In k (map fst ps).
Proof.
  induction ps as [| [k1 v1] ps IH]; simpl; [done |].
  destruct (String.eqb k k1) eqn:E.
  - apply String.eqb_eq in E. by left.
  - right. by apply IH.
Qed.

Lemma own_enumerable_read h l o k :
  h !! l = Some o ->
  assoc k (fold_left (fun ps e => set_assoc e.1 e.2 ps)
                     (own_enumerable h (VRef l)) []) = assoc k (props o).
Proof.
  intros Ho. simpl. rewrite Ho.
  destruct (assoc k (props o)) as [v |] eqn:E.
  - rewrite (assoc_spread (get_prop o)).
    + unfold get_prop. by rewrite E.
    + by eapply assoc_some_keys.
  - rewrite assoc_writes_other; [done |].
    rewrite map_map. simpl. rewrite map_id. by apply assoc_none_keys.
Qed.

(** ** The formats *)

Lemma createCustomFormat_run i h t cs :
  (i < length h)%nat ->
  createCustomFormat (VRef i) (World h t cs) =
  Returns (VRef i)
    (if includeMetadata config then
       let m := memoryUsage platform t in
       World (store h i "context" (VRef (length h + 1))
                ++ [literal [("rss", num (rss m));
                             ("heapTotal", num (heapTotal m));
                             ("heapUsed", num (heapUsed m));
                             ("external", num (external m));
                             ("arrayBuffers", num (arrayBuffers m))];
                    literal [("hostname", VStr (hostname platform));
                             ("pid", num (pid platform));
                             ("memory", VRef (length h))]])
             (S t) cs
     else World h t cs).
Proof.
  intros Hi. unfold LoggingService.createCustomFormat.
  destruct (includeMetadata config); [| reflexivity].
  unfold bind, observe, new_object, assign, ret. simpl.
  rewrite length_app. simpl. rewrite <- app_assoc. simpl.
  by rewrite store_old.
Qed.

(** X5. The format of [createCustomFormat] returns the entry it was given.
    With [includeMetadata] off it does nothing.  With it on, whatever
    the entry held under [context] is replaced by a new object made
    when the format runs: the host name, the process id and the whole
    of [process.memoryUsage()] as observed then; nothing else in the
    entry, and no other object, changes. *)
Theorem createCustomFormat_context i o w :
  objects w !! i = Some o ->
  exists w',
    createCustomFormat (VRef i) w = Returns (VRef i) w' /\
    calls w' = calls w /\
    (includeMetadata config = false -> w' = w) /\
    (includeMetadata config = true ->
       exists c m,
         (length (objects w) <= c)%nat /\ (length (objects w) <= m)%nat /\
         get (objects w') i "context" = VRef c /\
         get (objects w') c "hostname" = VStr (hostname platform) /\
         get (objects w') c "pid" = num (pid platform) /\
         get (objects w') c "memory" = VRef m /\
         (let usage := memoryUsage platform (observations w) in
          objects w' !! m =
            Some (literal [("rss", num (rss usage));
                           ("heapTotal", num (heapTotal usage));
                           ("heapUsed", num (heapUsed usage));
                           ("external", num (external usage));
                           ("arrayBuffers", num (arrayBuffers usage))])) /\
         observations w' = S (observations w) /\
         (forall k, k <> "context" ->
            get (objects w') i k = get (objects w) i k) /\
         (forall l, l <> i -> (l < length (objects w))%nat ->
            objects w' !! l = objects w !! l)).
Proof.
  clear requestConfig JSON_stringify.
  intros Ho. destruct w as [h t cs]. simpl in *.
  assert (i < length h)%nat as Hi by (by eapply lookup_lt_Some).
  rewrite createCustomFormat_run by done.
  destruct (includeMetadata config) eqn:Inc.
  - eexists. split; [reflexivity |]. split; [reflexivity |].
    split; [discriminate |]. intros _.
    exists (length h + 1)%nat, (length h). simpl.
    split; [lia |]. split; [lia |].
    assert (forall k, get (store h i "context" (VRef (length h + 1))) i k =
                      if String.eqb k "context" then VRef (length h + 1)
                      else get h i k) as Hread.
    { intros k. destruct (String.eqb k "context") eqn:E.
      - apply String.eqb_eq in E. subst k. by eapply get_store_eq.
      - apply String.eqb_neq in E. by apply get_store_ne. }
    assert (forall l, l <> i ->
              store h i "context" (VRef (length h + 1)) !! l = h !! l) as Hframe
      by (intros l Hl; by apply lookup_store_ne).
    revert Hread Hframe.
    generalize (length_store h i "context" (VRef (length h + 1))).
    generalize (store h i "context" (VRef (length h + 1))) as hs.
    intros hs Hlen Hread Hframe.
    split; [| split; [| split; [| split; [| split; [| split; [| split]]]]]].
    + rewrite get_old by lia. by rewrite Hread.
    + rewrite <- Hlen. by rewrite get_next.
    + rewrite <- Hlen. by rewrite get_next.
    + rewrite <- Hlen. by rewrite get_next.
    + rewrite <- Hlen. by apply list_lookup_middle.
    + reflexivity.
    + intros k Hk. rewrite get_old by lia. rewrite Hread.
      apply String.eqb_neq in Hk. by rewrite Hk.
    + intros l Hne Hl. rewrite lookup_app_l by lia. by apply Hframe.
  - eexists. split; [reflexivity |]. split; [reflexivity |].
    split; [done | discriminate].
Qed.

(** X4. The redaction format of the service, as [loadLoggerConfig] sets it
    up whatever the level, the log file and the environment are: it
    returns the entry it was given, leaves the clock and the calls as
    they were, and leaves the marker under every key spelled
    [password], [token], [secret] or [authorization] in any letter
    case, in every object that at most ten keys, none spelled like
    that, lead to from the entry. *)
Theorem createRedactionFormat_loaded loggingLevel loggingFilepath environment
    info w :
  let loaded := loadLoggerConfig loggingLevel loggingFilepath environment in
  let sensitive k :=
    In (Str.toLowerCase k) ["password"; "token"; "secret"; "authorization"] in
  exists w',
    LoggingService.createRedactionFormat loaded info w = Returns info w' /\
    observations w' = observations w /\
    calls w' = calls w /\
    forall path l k x,
      (length path <= 10)%nat ->
      Forall (fun key => ~ sensitive key) path ->
      walk (objects w) info path = Some (VRef l) ->
      field (objects w) l k = Some x ->
      sensitive k ->
      field (objects w') l k = Some (VStr REDACTED).
Proof.
  intros loaded sensitive. eexists. split; [reflexivity |]. simpl.
  split; [done |]. split; [done |].
  intros path l k x Hlen Hpath Hwalk Hf Hk.
  unfold redactSensitiveData. change (11 - 0)%nat with 11%nat.
  apply (redactLevels_marks _ 11 (objects w) info path l k x);
    [lia | | done | done |].
  - eapply Forall_impl; [exact Hpath |]. intros key Hkey. simpl in Hkey.
    by apply includes_not_In.
  - by apply includes_In.
Qed.

(** ** The entry *)

(** X6. [createLogEntry] never fails and changes no object: it adds the
    entry (and, with [includeMetadata], its context) to the store.  The
    entry has eleven properties, always the same and in the same order;
    the first three are the time of the first observation, the level and
    the message as given, and the seven optional slots are what the
    metadata bag holds under the same names.  Any other property of the
    bag is left out. *)
Theorem createLogEntry_shape level message meta w :
  exists e o new w',
    createLogEntry level message meta w = Returns (VRef e) w' /\
    objects w' = objects w ++ new /\
    calls w' = calls w /\
    (length (objects w) <= e)%nat /\
    objects w' !! e = Some o /\
    keys o = ["timestamp"; "level"; "message"; "correlationId"; "service";
              "error"; "request"; "response"; "user"; "metadata"; "context"] /\
    get_prop o "timestamp" = VStr (toISOString platform (observations w)) /\
    get_prop o "level" = VStr level /\
    get_prop o "message" = VStr message /\
    Forall (fun k => get_prop o k = member (objects w) meta k) optional_slots.
Proof.
  clear requestConfig JSON_stringify.
  destruct w as [h t cs]. rewrite createLogEntry_run. simpl.
  eexists _, _, _, _. split; [reflexivity |]. simpl.
  split; [reflexivity |]. split; [reflexivity |]. split; [lia |].
  split.
  { rewrite app_assoc. apply list_lookup_middle. by rewrite length_app. }
  split; [reflexivity |]. split; [reflexivity |]. split; [reflexivity |].
  split; [reflexivity |]. unfold optional_slots. repeat constructor.
Qed.

(** ** The leveled methods *)

(** X7. [debug], [info], [warn] and [error] never fail before the
    hand-over, whatever they are given: each builds one entry, an object
    that was not in the store before, and hands the logger exactly one
    call at its own level with the message and that entry, which at the
    hand-over carries that level and that message. *)
Theorem leveled_calls message meta err w :
  Forall (fun lm => exists e w',
      lm.2 message meta w = Returns tt w' /\
      calls w' = calls w ++ [Call lm.1 message (VRef e)] /\
      (length (objects w) <= e < length (objects w'))%nat /\
      get (objects w') e "level" = VStr lm.1 /\
      get (objects w') e "message" = VStr message)
    (leveled ++ [("error", fun message meta => error message err meta)]).
Proof.
  clear requestConfig JSON_stringify.
  destruct w as [h t cs].
  unfold LoggingService.leveled. simpl. repeat constructor; simpl.
  - rewrite (leveled_run config platform debug "debug") by tauto.
    eexists _, _. split; [reflexivity |]. simpl. split; [reflexivity |].
    split; [rewrite !length_app; simpl; lia |]. by rewrite !get_last.
  - rewrite (leveled_run config platform info "info") by tauto.
    eexists _, _. split; [reflexivity |]. simpl. split; [reflexivity |].
    split; [rewrite !length_app; simpl; lia |]. by rewrite !get_last.
  - rewrite (leveled_run config platform warn "warn") by tauto.
    eexists _, _. split; [reflexivity |]. simpl. split; [reflexivity |].
    split; [rewrite !length_app; simpl; lia |]. by rewrite !get_last.
  - destruct (truthy err) eqn:Ht.
    + rewrite error_run_with by done.
      eexists _, _. split; [reflexivity |]. simpl. split; [reflexivity |].
      split; [rewrite !length_app; simpl; lia |]. by rewrite !get_last.
    + rewrite error_run_without by done.
      eexists _, _. split; [reflexivity |]. simpl. split; [reflexivity |].
      split; [rewrite !length_app; simpl; lia |]. by rewrite !get_last.
Qed.

(** X8. [error] with a metadata object: a slot of the entry other than
    [error] holds the bag's own enumerable property of that name, or
    [undefined] when the bag has none (a property the bag only inherits,
    or one that is not enumerable, is lost in the spread, while the other
    leveled methods would read it); and the slot [error] never comes
    from the bag: it is the error block when an error is given, and
    [undefined] otherwise, whatever the bag holds under [error]. *)
Theorem error_slots message err m mo w :
  objects w !! m = Some mo ->
  exists e w',
    error message err (VRef m) w = Returns tt w' /\
    calls w' = calls w ++ [Call "error" message (VRef e)] /\
    Forall (fun k => k <> "error" ->
              get (objects w') e k = default VUndef (assoc k (props mo)))
           optional_slots /\
    (truthy err = false -> get (objects w') e "error" = VUndef) /\
    (truthy err = true ->
       exists b, get (objects w') e "error" = VRef b /\
                 (length (objects w) <= b)%nat /\
                 objects w' !! b = Some (error_block config (objects w) err)).
Proof.
  clear requestConfig JSON_stringify.
  intros Hm. destruct w as [h t cs]. simpl in *.
  assert (forall block k, k <> "error" ->
            get_prop (literal (own_enumerable h (VRef m) ++ [("error", block)])) k
            = default VUndef (assoc k (props mo))) as Hbag.
  { intros block k Hk. rewrite get_prop_literal, fold_left_app.
    cbn [fold_left fst snd]. rewrite assoc_set_assoc_ne by done.
    by rewrite (own_enumerable_read h m mo). }
  destruct (truthy err) eqn:Ht.
  - rewrite error_run_with by done. eexists _, _.
    split; [reflexivity |]. split; [reflexivity |]. simpl objects.
    split; [| split; [done |]].
    + apply Forall_forall. intros k Hk Hne. apply list_elem_of_In in Hk.
      rewrite get_last. rewrite <- (Hbag (VRef (length h)) k Hne).
      unfold optional_slots in Hk. simpl in Hk.
      unfold LoggingService.entry_object.
      destruct Hk as [<- | [<- | [<- | [<- | [<- | [<- | [<- | []]]]]]]];
        try done; cbn; by rewrite get_next.
    + intros _. exists (length h). split; [| split; [lia |]].
      * rewrite get_last. unfold LoggingService.entry_object. cbn.
        rewrite get_next. apply bag_error.
      * rewrite <- app_assoc. by apply list_lookup_middle.
  - rewrite error_run_without by done. eexists _, _.
    split; [reflexivity |]. split; [reflexivity |]. simpl objects.
    split; [| split; [| done]].
    + apply Forall_forall. intros k Hk Hne. apply list_elem_of_In in Hk.
      rewrite get_last. rewrite <- (Hbag VUndef k Hne).
      unfold optional_slots in Hk. simpl in Hk.
      unfold LoggingService.entry_object.
      destruct Hk as [<- | [<- | [<- | [<- | [<- | [<- | [<- | []]]]]]]];
        try done; cbn; by rewrite get_here.
    + intros _. rewrite get_last. unfold LoggingService.entry_object. cbn.
      rewrite get_here. apply bag_error.
Qed.

End ServiceInvariants.

(** * More about request and response capture *)

Section CaptureInvariants.
Import Interfaces Effects JS Redaction LoggingService.
Variable config : LoggerConfig.
Variable requestConfig : RequestLoggingConfig.
Variable platform : Platform.
Variable JSON_stringify : heap -> val -> json.

Local Abbreviation createRedactionFormat := (createRedactionFormat config).
Local Abbreviation context_objects := (context_objects config platform).
Local Abbreviation entry_object := (entry_object config platform).
Local Abbreviation logRequest :=
  (logRequest config requestConfig platform JSON_stringify).
Local Abbreviation logResponse :=
  (logResponse config requestConfig platform JSON_stringify).
Local Abbreviation view_headers := (view_headers requestConfig).
Local Abbreviation body_step := (body_step requestConfig JSON_stringify).
Local Abbreviation truncated := (truncated requestConfig).
Local Abbreviation timing_view := (timing_view requestConfig platform).
Local Abbreviation serializes := (serializes JSON_stringify).
Local Abbreviation params_view := (params_view requestConfig).
Local Abbreviation query_view := (query_view requestConfig).

Lemma get_third (h : heap) a b c rest k :
  get (h ++ a :: b :: c :: rest) (length h + 2) k = get_prop c k.
Proof.
  unfold get.
  replace (h ++ a :: b :: c :: rest) with ((h ++ [a; b]) ++ c :: rest)
    by (by rewrite <- app_assoc).
  rewrite list_lookup_middle; [done |]. by rewrite length_app.
Qed.

Lemma field_third (h : heap) a b c rest k :
  field (h ++ a :: b :: c :: rest) (length h + 2) k = assoc k (props c).
Proof.
  unfold field.
  replace (h ++ a :: b :: c :: rest) with ((h ++ [a; b]) ++ c :: rest)
    by (by rewrite <- app_assoc).
  rewrite list_lookup_middle; [done |]. by rewrite length_app.
Qed.

(** What the body step decides. *)
Lemma body_step_cases enabled h body b extra :
  body_step enabled h body = Some (b, extra) ->
  (enabled && truthy body = false /\ b = VUndef /\ extra = []) \/
  (enabled && truthy body = true /\
   exists s, JSON_stringify h body = Text s /\
     ((Str.len s <= maxBodyLength requestConfig /\ b = body /\ extra = []) \/
      (Str.len s > maxBodyLength requestConfig /\
       b = VRef (length h) /\ extra = [truncated s]))).
Proof.
  unfold LoggingService.body_step.
  destruct (enabled && truthy body).
  - destruct (JSON_stringify h body) as [s | |]; [| discriminate | discriminate].
    destruct (Str.len s <=? maxBodyLength requestConfig)%Z eqn:El;
      intros E; inversion E; subst; right; (split; [done |]); exists s;
      (split; [done |]).
    + left. apply Z.leb_le in El. by repeat split.
    + right. apply Z.leb_gt in El. repeat split; [lia | done..].
  - intros E. inversion E. by left.
Qed.

(** When the body step fails, [logRequest] throws with nothing but
    its two new objects added. *)
Lemma logRequest_failure req cid h t cs :
  Str.includes (excludePaths requestConfig) (req_path req) = false ->
  (req_headers req < length h)%nat ->
  body_step (logRequestBody requestConfig)
    (h ++ [plain (view_headers h req);
           request_view req (length h) VUndef VUndef VUndef])
    (req_body req) = None ->
  logRequest req cid (World h t cs) =
  Throws (World (h ++ [plain (view_headers h req);
                       request_view req (length h) VUndef VUndef VUndef]) t cs).
Proof.
  intros Hex Hrh Hb.
  rewrite (logRequest_start config requestConfig platform JSON_stringify
             req cid h t cs Hex Hrh).
  unfold LoggingService.body_step in Hb.
  destruct (logRequestBody requestConfig && truthy (req_body req));
    [| discriminate].
  unfold bind at 1. unfold bind at 1. rewrite truncateBody_run.
  destruct (JSON_stringify _ (req_body req)) as [s | |]; [| done | done].
  by destruct (Str.len s <=? maxBodyLength requestConfig)%Z.
Qed.

Lemma logResponse_failure res start cid h t cs :
  (res_locals res < length h)%nat ->
  body_step (logResponseBody requestConfig)
    (h ++ [literal (res_headers res);
           response_view res (length h) (timing_view t start) VUndef])
    (get h (res_locals res) "bodyContent") = None ->
  logResponse res start cid (World h t cs) =
  Throws (World (h ++ [literal (res_headers res);
                       response_view res (length h) (timing_view t start) VUndef])
                (if logTiming requestConfig && truthy start then S t else t) cs).
Proof.
  intros Hloc Hb.
  rewrite (logResponse_start config requestConfig platform JSON_stringify
             res start cid h t cs Hloc).
  unfold LoggingService.body_step in Hb.
  destruct (logResponseBody requestConfig
            && truthy (get h (res_locals res) "bodyContent"));
    [| discriminate].
  unfold bind at 1. unfold bind at 1. rewrite truncateBody_run.
  destruct (JSON_stringify _ (get h (res_locals res) "bodyContent"))
    as [s | |]; [| done | done].
  by destruct (Str.len s <=? maxBodyLength requestConfig)%Z.
Qed.

(** The store [logRequest] leaves when it returns: the headers object,
    the view, the object of [truncateBody] if there is one, and then the
    metadata bag, the context and the entry. *)
Lemma logRequest_shape req cid h t cs b extra :
  Str.includes (excludePaths requestConfig) (req_path req) = false ->
  (req_headers req < length h)%nat ->
  body_step (logRequestBody requestConfig)
    (h ++ [plain (view_headers h req);
           request_view req (length h) VUndef VUndef VUndef])
    (req_body req) = Some (b, extra) ->
  exists e rest w',
    logRequest req cid (World h t cs) = Returns tt w' /\
    calls w' = cs ++ [Call "info" "Incoming request" (VRef e)] /\
    objects w' =
      h ++ plain (view_headers h req)
        :: request_view req (length h) b (params_view req) (query_view req)
        :: extra ++ rest /\
    field (objects w') e "request" = Some (VRef (length h + 1)) /\
    get (objects w') e "correlationId" = cid.
Proof.
  intros Hex Hrh Hb.
  pose proof (logRequest_run config requestConfig platform JSON_stringify
                req cid h t cs Hex Hrh) as Hrun.
  simpl in Hrun. rewrite Hb in Hrun. rewrite Hrun.
  eexists _, _, _. split; [reflexivity |]. split; [reflexivity |].
  simpl objects. split; [| split].
  - rewrite <- !app_assoc. simpl. rewrite <- !app_assoc. reflexivity.
  - rewrite field_last. unfold LoggingService.entry_object. cbn.
    by rewrite get_bag.
  - rewrite get_last. unfold LoggingService.entry_object. cbn.
    by rewrite get_bag.
Qed.

Lemma logResponse_shape res start cid h t cs b extra :
  (res_locals res < length h)%nat ->
  body_step (logResponseBody requestConfig)
    (h ++ [literal (res_headers res);
           response_view res (length h) (timing_view t start) VUndef])
    (get h (res_locals res) "bodyContent") = Some (b, extra) ->
  exists e rest w',
    logResponse res start cid (World h t cs) = Returns tt w' /\
    calls w' = cs ++ [Call "info" "Outgoing response" (VRef e)] /\
    objects w' =
      h ++ literal (res_headers res)
        :: response_view res (length h) (timing_view t start) b
        :: extra ++ rest /\
    field (objects w') e "response" = Some (VRef (length h + 1)) /\
    get (objects w') e "correlationId" = cid /\
    observations w' =
      (S (if logTiming requestConfig && truthy start then S t else t)
       + (if includeMetadata config then 2 else 0))%nat.
Proof.
  intros Hloc Hb.
  pose proof (logResponse_run config requestConfig platform JSON_stringify
                res start cid h t cs Hloc) as Hrun.
  simpl in Hrun. rewrite Hb in Hrun. rewrite Hrun.
  eexists _, _, _. split; [reflexivity |]. split; [reflexivity |].
  simpl objects. split; [| split; [| split]].
  - rewrite <- !app_assoc. simpl. rewrite <- !app_assoc. reflexivity.
  - rewrite field_last. unfold LoggingService.entry_object. cbn.
    by rewrite get_bag.
  - rewrite get_last. unfold LoggingService.entry_object. cbn.
    by rewrite get_bag.
  - simpl. unfold LoggingService.context_objects.
    by destruct (includeMetadata config).
Qed.

(** ** The request view *)

(** X9. The view that [logRequest] logs for a request that is not
    excluded.  It holds the method and the URL; the route parameters and
    the query are the request's own values when their switch is on and
    the value is truthy, and [undefined] otherwise; the body is
    [undefined] when bodies are not logged or the body is falsy, the
    body itself (the same object, not a copy) when its serialization has
    at most [maxBodyLength] characters, and otherwise a new object
    [{_truncated: true, preview}] with the first [maxBodyLength]
    characters of the serialization and three dots.  The entry carries
    the correlation id it was given. *)
Theorem logRequest_view req cid w :
  (req_headers req < length (objects w))%nat ->
  ~ In (req_path req) (excludePaths requestConfig) ->
  (logRequestBody requestConfig && truthy (req_body req) = true ->
     serializes (objects w) (req_body req)) ->
  exists e view w',
    logRequest req cid w = Returns tt w' /\
    calls w' = calls w ++ [Call "info" "Incoming request" (VRef e)] /\
    get (objects w') e "correlationId" = cid /\
    get (objects w') e "request" = VRef view /\
    get (objects w') view "method" = VStr (req_method req) /\
    get (objects w') view "url" = VStr (req_url req) /\
    get (objects w') view "params" =
      (if logRouteParams requestConfig && truthy (req_params req)
       then req_params req else VUndef) /\
    get (objects w') view "query" =
      (if logQueryParams requestConfig && truthy (req_query req)
       then req_query req else VUndef) /\
    (logRequestBody requestConfig && truthy (req_body req) = false ->
       get (objects w') view "body" = VUndef) /\
    (logRequestBody requestConfig && truthy (req_body req) = true ->
       exists extra s,
         JSON_stringify (objects w ++ extra) (req_body req) = Text s /\
         (Str.len s <= maxBodyLength requestConfig ->
            get (objects w') view "body" = req_body req) /\
         (Str.len s > maxBodyLength requestConfig ->
            exists t,
              get (objects w') view "body" = VRef t /\
              (length (objects w) <= t)%nat /\
              get (objects w') t "_truncated" = VBool true /\
              get (objects w') t "preview" =
                VStr (Str.substring0 s (maxBodyLength requestConfig) +:+ "..."))).
Proof.
  intros Hrh Hout Hser. destruct w as [h t cs]. simpl in *.
  apply includes_not_In in Hout.
  destruct (body_step_serializes requestConfig JSON_stringify
              (logRequestBody requestConfig) h
              [plain (view_headers h req);
               request_view req (length h) VUndef VUndef VUndef]
              (req_body req) Hser) as (b & extra & Hb).
  destruct (logRequest_shape req cid h t cs b extra Hout Hrh Hb)
    as (e & rest & w' & Hrun & Hcalls & Hobj & He & Hcid).
  exists e, (length h + 1)%nat, w'.
  split; [done |]. split; [done |]. split; [done |].
  split; [by apply field_get |]. rewrite Hobj, !get_next.
  split; [done |]. split; [done |]. split; [done |]. split; [done |].
  apply body_step_cases in Hb
    as [(Hoff & -> & ->) | (Hon & s & Hs & [(Hle & -> & ->) | (Hgt & -> & ->)])].
  - split; [done |]. intros Hon. congruence.
  - split; [intros Hoff; congruence |]. intros _.
    eexists _, s. split; [exact Hs |]. split; [done |]. lia.
  - split; [intros Hoff; congruence |]. intros _.
    eexists _, s. split; [exact Hs |]. split; [lia |]. intros _.
    exists (length h + 2)%nat. rewrite length_app. simpl.
    split; [done |]. split; [lia |]. rewrite !get_third. by split.
Qed.

(** ** The response view *)

(** X10. The view that [logResponse] logs.  The timing is [undefined], and
    the clock is not read for it, unless [logTiming] is on and a start
    time is given; then it is the elapsed seconds times 1000 plus the
    elapsed nanoseconds divided by 1000000, that is, milliseconds.  The
    body is what [res.locals.bodyContent] holds, under the same rules as
    the body of a request. *)
Theorem logResponse_view res start cid w :
  (res_locals res < length (objects w))%nat ->
  let bodyContent := get (objects w) (res_locals res) "bodyContent" in
  (logResponseBody requestConfig && truthy bodyContent = true ->
     serializes (objects w) bodyContent) ->
  exists e view w',
    logResponse res start cid w = Returns tt w' /\
    calls w' = calls w ++ [Call "info" "Outgoing response" (VRef e)] /\
    get (objects w') e "correlationId" = cid /\
    get (objects w') e "response" = VRef view /\
    (logTiming requestConfig && truthy start = false ->
       get (objects w') view "timing" = VUndef /\
       observations w' =
         (observations w + 1 + (if includeMetadata config then 2 else 0))%nat) /\
    (logTiming requestConfig && truthy start = true ->
       get (objects w') view "timing" =
         (let (seconds, nanoseconds) :=
            hrtime platform (observations w) start in
          VNum (inject_Z seconds * inject_Z 1000
                + inject_Z nanoseconds / inject_Z 1000000)%Q) /\
       observations w' =
         (observations w + 2 + (if includeMetadata config then 2 else 0))%nat) /\
    (logResponseBody requestConfig && truthy bodyContent = false ->
       get (objects w') view "body" = VUndef) /\
    (logResponseBody requestConfig && truthy bodyContent = true ->
       exists extra s,
         JSON_stringify (objects w ++ extra) bodyContent = Text s /\
         (Str.len s <= maxBodyLength requestConfig ->
            get (objects w') view "body" = bodyContent) /\
         (Str.len s > maxBodyLength requestConfig ->
            exists t,
              get (objects w') view "body" = VRef t /\
              (length (objects w) <= t)%nat /\
              get (objects w') t "_truncated" = VBool true /\
              get (objects w') t "preview" =
                VStr (Str.substring0 s (maxBodyLength requestConfig) +:+ "..."))).
Proof.
  intros Hloc bodyContent Hser. subst bodyContent.
  destruct w as [h t cs]. simpl in *.
  destruct (body_step_serializes requestConfig JSON_stringify
              (logResponseBody requestConfig) h
              [literal (res_headers res);
               response_view res (length h) (timing_view t start) VUndef]
              _ Hser) as (b & extra & Hb).
  destruct (logResponse_shape res start cid h t cs b extra Hloc Hb)
    as (e & rest & w' & Hrun & Hcalls & Hobj & He & Hcid & Hobs).
  exists e, (length h + 1)%nat, w'.
  split; [done |]. split; [done |]. split; [done |].
  split; [by apply field_get |]. rewrite Hobj, Hobs, !get_next.
  unfold LoggingService.timing_view.
  split; [intros ->; split; [done | lia] |].
  split; [intros ->; split; [done | lia] |].
  apply body_step_cases in Hb
    as [(Hoff & -> & ->) | (Hon & s & Hs & [(Hle & -> & ->) | (Hgt & -> & ->)])].
  - split; [done |]. intros Hon. congruence.
  - split; [intros Hoff; congruence |]. intros _.
    eexists _, s. split; [exact Hs |]. split; [done |]. lia.
  - split; [intros Hoff; congruence |]. intros _.
    eexists _, s. split; [exact Hs |]. split; [lia |]. intros _.
    exists (length h + 2)%nat. rewrite length_app. simpl.
    split; [done |]. split; [lia |]. rewrite !get_third. by split.
Qed.

(** ** The caller's objects *)

(** X11. A capture that fails stops before the logger: when
    [logRequest] or [logResponse] throws, nothing has been handed to the
    logger, so no format has run, and no object that was there when the
    method was called has been changed; the store is the store before
    with the objects of the unfinished view put after it. *)
Theorem failed_capture_leaves_store req res start cid w :
  (req_headers req < length (objects w))%nat ->
  (res_locals res < length (objects w))%nat ->
  (forall w', logRequest req cid w = Throws w' ->
     calls w' = calls w /\ exists new, objects w' = objects w ++ new) /\
  (forall w', logResponse res start cid w = Throws w' ->
     calls w' = calls w /\ exists new, objects w' = objects w ++ new).
Proof.
  intros Hrh Hloc. destruct w as [h t cs]. simpl in *. split.
  - intros w' Hw'.
    destruct (Str.includes (excludePaths requestConfig) (req_path req)) eqn:Hex.
    { rewrite (logRequest_excluded config requestConfig platform JSON_stringify)
        in Hw' by done.
      discriminate. }
    destruct (body_step (logRequestBody requestConfig)
                (h ++ [plain (view_headers h req);
                       request_view req (length h) VUndef VUndef VUndef])
                (req_body req)) as [[b extra] |] eqn:Hb.
    + destruct (logRequest_shape req cid h t cs b extra Hex Hrh Hb)
        as (e & rest & w1 & Hrun & _).
      rewrite Hrun in Hw'. discriminate.
    + rewrite (logRequest_failure req cid h t cs Hex Hrh Hb) in Hw'.
      inversion Hw'. simpl. eauto.
  - intros w' Hw'.
    destruct (body_step (logResponseBody requestConfig)
                (h ++ [literal (res_headers res);
                       response_view res (length h) (timing_view t start) VUndef])
                (get h (res_locals res) "bodyContent")) as [[b extra] |] eqn:Hb.
    + destruct (logResponse_shape res start cid h t cs b extra Hloc Hb)
        as (e & rest & w1 & Hrun & _).
      rewrite Hrun in Hw'. discriminate.
    + rewrite (logResponse_failure res start cid h t cs Hloc Hb) in Hw'.
      inversion Hw'. simpl. eauto.
Qed.

(** ** Redaction of a logged request *)

(** X12. Logging shares objects with the request, and redaction writes in
    place.  The view refers to the request's own body (when bodies are
    logged and the serialization fits), route parameters and query
    (when their switch is on), not to copies.  So once the redaction
    format reaches the view (from the entry, or from any object that
    leads to the view through at most nine keys the test rejects), a key
    of such an object that the test accepts holds the marker: the body,
    parameters or query that the application goes on to use have lost
    that value. *)
Theorem redaction_reaches_request req cid w slot b bo k x :
  (req_headers req < length (objects w))%nat ->
  ~ In (req_path req) (excludePaths requestConfig) ->
  (logRequestBody requestConfig && truthy (req_body req) = true ->
     serializes (objects w) (req_body req)) ->
  (slot = "body" /\ logRequestBody requestConfig = true /\
   req_body req = VRef b /\
   (forall extra s, JSON_stringify (objects w ++ extra) (VRef b) = Text s ->
      Str.len s <= maxBodyLength requestConfig)) \/
  (slot = "params" /\ logRouteParams requestConfig = true /\
   req_params req = VRef b) \/
  (slot = "query" /\ logQueryParams requestConfig = true /\
   req_query req = VRef b) ->
  objects w !! b = Some bo ->
  assoc k (props bo) = Some x ->
  matches (redactedFields config) k = true ->
  matches (redactedFields config) slot = false ->
  exists e view w',
    logRequest req cid w = Returns tt w' /\
    calls w' = calls w ++ [Call "info" "Incoming request" (VRef e)] /\
    field (objects w') e "request" = Some (VRef view) /\
    field (objects w') view slot = Some (VRef b) /\
    forall extra info path w1,
      objects w1 = objects w' ++ extra ->
      walk (objects w1) info path = Some (VRef view) ->
      (length path <= 9)%nat ->
      Forall (fun key => matches (redactedFields config) key = false) path ->
      exists w2,
        createRedactionFormat info w1 = Returns info w2 /\
        field (objects w2) b k = Some (VStr REDACTED).
Proof.
  intros Hrh Hout Hser Hslot Hbo Hk Hmatch Hslotkey.
  destruct w as [h t cs]. simpl in *.
  apply includes_not_In in Hout.
  destruct (body_step_serializes requestConfig JSON_stringify
              (logRequestBody requestConfig) h
              [plain (view_headers h req);
               request_view req (length h) VUndef VUndef VUndef]
              (req_body req) Hser) as (b0 & extra0 & Hb).
  destruct (logRequest_shape req cid h t cs b0 extra0 Hout Hrh Hb)
    as (e & rest & w' & Hrun & Hcalls & Hobj & He & _).
  assert (b < length h)%nat as Hbl by (by eapply lookup_lt_Some).
  assert (field (objects w') (length h + 1) slot = Some (VRef b)) as Hview.
  { rewrite Hobj, field_next.
    destruct Hslot as [(-> & Hlog & Hbody & Hfits)
                      | [(-> & Hlog & Hp) | (-> & Hlog & Hq)]]; simpl.
    - apply body_step_cases in Hb
        as [(Hoff & _) | (_ & s & Hs & [(_ & -> & _) | (Hgt & _)])].
      + by rewrite Hlog, Hbody in Hoff.
      + by rewrite Hbody.
      + rewrite Hbody in Hs. apply Hfits in Hs. lia.
    - unfold LoggingService.params_view. by rewrite Hlog, Hp.
    - unfold LoggingService.query_view. by rewrite Hlog, Hq. }
  exists e, (length h + 1)%nat, w'.
  split; [done |]. split; [done |]. split; [done |]. split; [done |].
  intros extra info path w1 Hw1 Hwalk Hpath Hrej.
  eexists. split; [reflexivity |]. simpl.
  unfold redactSensitiveData. change (11 - 0)%nat with 11%nat.
  apply (redactLevels_marks _ 11 (objects w1) info (path ++ [slot]) b k x).
  - rewrite length_app. simpl. lia.
  - apply Forall_app. split; [done |]. by constructor.
  - rewrite walk_app, Hwalk. simpl. rewrite Hw1.
    rewrite field_old; [by rewrite Hview |].
    rewrite Hobj, length_app. simpl. lia.
  - rewrite Hw1, Hobj. rewrite <- app_assoc. rewrite field_old by done.
    unfold field. by rewrite Hbo.
  - done.
Qed.

(** X13. A body over the limit is logged as a preview, the first
    [maxBodyLength] characters of its serialization, and the redaction
    format leaves that text as it is (the engine replaces values by key,
    and [body] and [preview] are no sensitive names): from whatever
    object the format starts, if keys the test rejects lead to the view,
    they still lead on to the preview afterwards, with the text unchanged.
    Whatever the serialization shows within the limit, the value of a
    password included, reaches the log. *)
Theorem preview_survives_redaction req cid w s :
  (req_headers req < length (objects w))%nat ->
  ~ In (req_path req) (excludePaths requestConfig) ->
  logRequestBody requestConfig && truthy (req_body req) = true ->
  (forall extra, JSON_stringify (objects w ++ extra) (req_body req) = Text s) ->
  Str.len s > maxBodyLength requestConfig ->
  matches (redactedFields config) "body" = false ->
  matches (redactedFields config) "preview" = false ->
  exists e view w',
    logRequest req cid w = Returns tt w' /\
    calls w' = calls w ++ [Call "info" "Incoming request" (VRef e)] /\
    field (objects w') e "request" = Some (VRef view) /\
    forall extra info path w1,
      objects w1 = objects w' ++ extra ->
      walk (objects w1) info path = Some (VRef view) ->
      Forall (fun key => matches (redactedFields config) key = false) path ->
      exists w2,
        createRedactionFormat info w1 = Returns info w2 /\
        walk (objects w2) info (path ++ ["body"; "preview"]) =
          Some (VStr (Str.substring0 s (maxBodyLength requestConfig) +:+ "...")).
Proof.
  intros Hrh Hout Hon Hs Hlen Hbody Hpreview.
  destruct w as [h t cs]. simpl in *.
  apply includes_not_In in Hout.
  assert (body_step (logRequestBody requestConfig)
            (h ++ [plain (view_headers h req);
                   request_view req (length h) VUndef VUndef VUndef])
            (req_body req) = Some (VRef (length h + 2), [truncated s])) as Hb.
  { unfold LoggingService.body_step. rewrite Hon, Hs.
    apply Z.gt_lt, Z.leb_gt in Hlen. rewrite Hlen, length_app. reflexivity. }
  destruct (logRequest_shape req cid h t cs _ _ Hout Hrh Hb)
    as (e & rest & w' & Hrun & Hcalls & Hobj & He & _).
  exists e, (length h + 1)%nat, w'.
  split; [done |]. split; [done |]. split; [done |].
  intros extra info path w1 Hw1 Hwalk Hrej.
  eexists. split; [reflexivity |]. simpl.
  rewrite (walk_le_other (redactedFields config) (objects w1));
    [| apply redactLevels_le
     | apply Forall_app; split; [done | by repeat constructor]].
  rewrite walk_app, Hwalk. simpl.
  rewrite Hw1, Hobj. simpl. rewrite <- app_assoc. simpl.
  rewrite field_next. simpl. by rewrite field_third.
Qed.

(** ** The file sinks *)

(** X14. The files of the logger that [initializeLogger] builds.  Without a
    log directory (none, or the empty text) an entry goes to the console
    or nowhere.  With one, every entry written to [error.log] is also
    written to [combined.log], and to the console when it is enabled:
    the error file holds nothing the other sinks lack. *)
Theorem file_sinks lvl :
  is_level (level config) ->
  let lg := initializeLogger config in
  (logDir config = None \/ logDir config = Some EmptyString ->
     forall s, In s (Winston.delivered lg lvl) -> s = Winston.Console) /\
  (forall dir, logDir_set config = Some dir ->
     In (Winston.File (dir +:+ "/error.log")) (Winston.delivered lg lvl) ->
     In (Winston.File (dir +:+ "/combined.log")) (Winston.delivered lg lvl) /\
     (console config = true -> In Winston.Console (Winston.delivered lg lvl))).
Proof.
  clear requestConfig platform JSON_stringify.
  intros Hmin lg. subst lg.
  assert (level config <> EmptyString) as Hne.
  { intros E. rewrite E in Hmin. simpl in Hmin.
    destruct Hmin as [? | [? | [? | [? | []]]]]; done. }
  rewrite (delivered_run config lvl Hne). split.
  - intros Hdir.
    assert (logDir_set config = None) as ->.
    { unfold logDir_set. by destruct Hdir as [-> | ->]. }
    rewrite app_nil_r. intros s Hs.
    destruct (console config && Winston.passes (level config) lvl); [| done].
    by destruct Hs as [<- | []].
  - intros dir Hdir. rewrite Hdir. intros Hin.
    assert (Winston.passes "error" lvl = true) as Herr.
    { apply in_app_or in Hin as [Hin | Hin].
      - destruct (console config && Winston.passes (level config) lvl);
          [| done]. by destruct Hin.
      - apply in_app_or in Hin as [Hin | Hin].
        + by destruct (Winston.passes "error" lvl).
        + destruct (Winston.passes (level config) lvl); [| done].
          destruct Hin as [E | []]. inversion E as [E'].
          apply (f_equal String.length) in E'.
          rewrite !length_append_str in E'. simpl in E'. lia. }
    assert (Winston.passes (level config) lvl = true) as Hpass.
    { unfold Winston.passes in *. simpl in Herr.
      destruct (Winston.levels lvl) as [b |]; [| done].
      apply Nat.leb_le in Herr.
      unfold is_level in Hmin. simpl in Hmin.
      destruct Hmin as [<- | [<- | [<- | [<- | []]]]]; simpl;
        apply Nat.leb_le; lia. }
    rewrite Herr, Hpass, andb_true_r. split.
    + apply in_or_app. right. apply in_or_app. right. by left.
    + intros ->. by left.
Qed.

End CaptureInvariants.

(** * Properties of the configuration code *)

Section TextFacts.
Import Text.

Lemma split_nonempty sep s : split sep s <> [].
Proof.
  destruct s as [| c s]; simpl; [done |].
  destruct (Ascii.eqb c sep); [done |]. by destruct (split sep s).
Qed.

Lemma length_split sep s : length (split sep s) = S (occurrences sep s).
Proof.
  induction s as [| c s IH]; simpl; [done |].
  destruct (Ascii.eqb c sep); simpl; [by rewrite IH |].
  destruct (split sep s); simpl in *; [done | exact IH].
Qed.

Lemma split_free sep p : occurrences sep p = 0%nat -> split sep p = [p].
Proof.
  induction p as [| c p IH]; simpl; [done |].
  destruct (Ascii.eqb c sep); [done |]. intros H. by rewrite IH.
Qed.

Lemma split_append sep p s :
  occurrences sep p = 0%nat ->
  split sep (p +:+ String sep s) = p :: split sep s.
Proof.
  induction p as [| c p IH]; simpl.
  - intros _. by rewrite Ascii.eqb_refl.
  - destruct (Ascii.eqb c sep); [done |]. intros H. by rewrite IH.
Qed.

(** Splitting a joined list of pieces that hold no separator gives the
    pieces back. *)
Lemma split_concat sep l :
  l <> [] -> Forall (fun p => occurrences sep p = 0%nat) l ->
  split sep (String.concat (String sep EmptyString) l) = l.
Proof.
  induction l as [| p l IH]; [done |]. intros _ Hl.
  inversion Hl as [| ? ? Hp Hl']; subst.
  destruct l as [| p' l].
  - simpl. by apply split_free.
  - assert (String.concat (String sep EmptyString) (p :: p' :: l) =
            p +:+ String sep (String.concat (String sep EmptyString) (p' :: l)))
      as -> by reflexivity.
    rewrite split_append by done. f_equal. by apply IH.
Qed.

Lemma trimEnd_idem s : trimEnd (trimEnd s) = trimEnd s.
Proof.
  induction s as [| c s IH]; simpl; [done |].
  destruct (trimEnd s) as [| c' t] eqn:E.
  - destruct (is_space c) eqn:Ec; simpl; [done | by rewrite Ec].
  - simpl in *. by rewrite IH.
Qed.

Lemma trimEnd_head c s :
  is_space c = false -> exists t, trimEnd (String c s) = String c t.
Proof.
  intros Hc. simpl. destruct (trimEnd s); [rewrite Hc |]; eauto.
Qed.

Lemma trimStart_head s :
  trimStart s = EmptyString \/
  exists c t, trimStart s = String c t /\ is_space c = false.
Proof.
  induction s as [| c s IH]; simpl; [by left |].
  destruct (is_space c) eqn:Ec; [exact IH | right; eauto].
Qed.

(** A trimmed text stays as it is when trimmed again. *)
Lemma trim_idem s : trim (trim s) = trim s.
Proof.
  unfold trim. destruct (trimStart_head s) as [-> | (c & t & -> & Hc)]; [done |].
  destruct (trimEnd_head c t Hc) as [u Eu]. rewrite Eu.
  simpl trimStart. rewrite Hc. rewrite <- Eu. apply trimEnd_idem.
Qed.

Lemma concat_empty sep l :
  String.concat (String sep EmptyString) l = EmptyString ->
  l = [] \/ l = [EmptyString].
Proof.
  destruct l as [| p [| p' l]]; simpl; [by left | intros ->; by right |].
  destruct p; simpl; discriminate.
Qed.

End TextFacts.

(** ** The pattern of the expirations *)

Section RegExpFacts.
Import RegExp.

Lemma nullable_lang r : nullable r = true <-> lang r [].
Proof.
  split.
  - induction r; simpl; intros H; try discriminate.
    + constructor.
    + apply orb_true_iff in H as [H | H];
        [apply lang_alt_l | apply lang_alt_r]; auto.
    + apply andb_true_iff in H as [H1 H2].
      change (@nil ascii) with (@nil ascii ++ []). constructor; auto.
    + constructor.
  - intros H. remember (@nil ascii) as s eqn:Es.
    induction H; simpl; try discriminate; try reflexivity.
    + rewrite IHlang by done. reflexivity.
    + rewrite IHlang by done. apply orb_true_r.
    + apply app_eq_nil in Es as [-> ->].
      rewrite IHlang1, IHlang2 by done. reflexivity.
Qed.

Lemma lang_derive c r : forall s, lang (derive c r) s -> lang r (c :: s).
Proof.
  induction r; simpl; intros s H.
  - inversion H.
  - inversion H.
  - destruct (member c) eqn:E; inversion H; subst. by constructor.
  - inversion H; subst; [apply lang_alt_l | apply lang_alt_r]; auto.
  - destruct (nullable r1) eqn:N.
    + inversion H as [| | ? ? ? H1 | ? ? ? H2 | | |]; subst.
      * inversion H1; subst.
        change (c :: s1 ++ s2) with ((c :: s1) ++ s2). constructor; auto.
      * change (c :: s) with ([] ++ c :: s). constructor; [| auto].
        by apply nullable_lang.
    + inversion H; subst.
      change (c :: s1 ++ s2) with ((c :: s1) ++ s2). constructor; auto.
  - inversion H; subst.
    change (c :: s1 ++ s2) with ((c :: s1) ++ s2). constructor; auto.
Qed.

Lemma derive_lang c r s : lang r (c :: s) -> lang (derive c r) s.
Proof.
  intros H. remember (c :: s) as t eqn:Et. revert s Et.
  induction H; intros rest Et; simpl; try discriminate.
  - inversion Et; subst. rewrite H. constructor.
  - apply lang_alt_l; auto.
  - apply lang_alt_r; auto.
  - destruct s1 as [| c1 s1]; simpl in Et.
    + subst s2. apply nullable_lang in H. rewrite H.
      apply lang_alt_r; auto.
    + inversion Et; subst.
      destruct (nullable r1); [apply lang_alt_l |]; constructor; auto.
  - destruct s1 as [| c1 s1]; simpl in Et.
    + subst s2. by apply IHlang2.
    + inversion Et; subst. constructor; auto.
Qed.

(** The match by derivatives accepts the texts of the pattern, and no
    other. *)
Lemma accepts_lang s : forall r, accepts r s = true <-> lang r s.
Proof.
  induction s as [| c s IH]; intros r; simpl.
  - apply nullable_lang.
  - rewrite IH. split; [apply lang_derive | apply derive_lang].
Qed.

Lemma lang_star_class member s :
  lang (Star (Class member)) s <-> Forall (fun c => member c = true) s.
Proof.
  split.
  - intros H. remember (Star (Class member)) as r eqn:Er.
    induction H; try discriminate; [constructor |].
    inversion Er; subst. inversion H; subst. simpl. constructor; auto.
  - induction 1 as [| c s Hc _ IH]; [constructor |].
    change (c :: s) with ([c] ++ s). constructor; [by constructor | done].
Qed.

Lemma expirationRegex_duration text :
  test Validation.expirationRegex text = true <-> Validation.duration text.
Proof.
  unfold test, Validation.duration. rewrite accepts_lang.
  unfold Validation.expirationRegex, Plus. split.
  - intros H. inversion H as [| | | | ? ? ds us Hd Hu | |]; subst.
    inversion Hd as [| | | | ? ? d1 d2 Hfirst Hmore | |]; subst.
    inversion Hfirst; subst. inversion Hu as [| ? u Hin | | | | |]; subst.
    apply lang_star_class in Hmore.
    exists ([c] ++ d2), u. repeat split; [done | by constructor |].
    change (existsb (Ascii.eqb u) ["s"; "m"; "h"; "d"]%char = true) in Hin.
    apply existsb_exists in Hin as (x & Hx & E).
    apply Ascii.eqb_eq in E. by subst.
  - intros (digits & unit & -> & Hne & Hd & Hu).
    destruct digits as [| c digits]; [done |].
    inversion Hd; subst.
    constructor.
    + change (c :: digits) with ([c] ++ digits). constructor; [by constructor |].
      by apply lang_star_class.
    + constructor. apply existsb_exists. exists unit.
      split; [done | apply Ascii.eqb_refl].
Qed.

End RegExpFacts.

(** ** The validation helpers *)

Section ValidationFacts.
Import JS Validation.
Variable URL_parses : string -> bool.
Variable object_text : heap -> loc -> string.

Local Abbreviation parseAllowedOrigins := (parseAllowedOrigins URL_parses).
Local Abbreviation validateJwtConfig := (validateJwtConfig object_text).
Local Abbreviation ToString := (ToString object_text).

(** The loop over the origins stops at the first one that is no URL. *)
Lemma forEach_first (l : list string) (message : string -> string) :
  match
    forEach l (fun origin =>
      if URL_parses origin then Done tt
      else Failed (JsError (message origin)))
  with
  | Done _ => Forall (fun o => URL_parses o = true) l
  | Failed e =>
      exists before origin after,
        l = before ++ origin :: after /\
        Forall (fun o => URL_parses o = true) before /\
        URL_parses origin = false /\
        e = JsError (message origin)
  end.
Proof.
  induction l as [| o l IH]; simpl; [constructor |].
  destruct (URL_parses o) eqn:Eo.
  - destruct (forEach l _) as [[] | e].
    + by constructor.
    + destruct IH as (before & origin & after & -> & Hb & Ho & ->).
      exists (o :: before), origin, after. repeat split; [| done].
      by constructor.
  - by exists [], o, l.
Qed.

(** X15. What [parseAllowedOrigins] returns.  Every origin it returns is a
    URL and is trimmed; for an unset or empty variable there is none,
    and for a text there is one for each comma, and one more. *)
Theorem parseAllowedOrigins_result originsString origins :
  parseAllowedOrigins originsString = Done origins ->
  Forall (fun origin => URL_parses origin = true /\ trimmed origin) origins /\
  (truthy originsString = false -> origins = []) /\
  (truthy originsString = true ->
     exists s, originsString = VStr s /\
       length origins = S (Text.occurrences "," s)).
Proof.
  unfold Validation.parseAllowedOrigins.
  destruct (truthy originsString) eqn:Ht; simpl.
  - destruct originsString as [| | b | q | s | l]; try discriminate.
    pose proof (forEach_first (map Text.trim (Text.split "," s))
                  (fun origin => "Invalid origin URL: " +:+ origin)) as Hf.
    destruct (forEach _ _) as [[] | e]; [| discriminate].
    intros E. inversion E; subst origins. split; [| split].
    + apply Forall_forall. intros o Ho. split.
      * rewrite Forall_forall in Hf. by apply Hf.
      * apply list_elem_of_fmap in Ho as (p & -> & _). apply trim_idem.
    + done.
    + intros _. exists s. split; [done |].
      by rewrite length_map, length_split.
  - intros E. inversion E; subst. split; [constructor |]. by split.
Qed.

(** X16. Round trip.  A list of origins, each a URL, trimmed and free of
    commas, is what [parseAllowedOrigins] returns for the origins
    joined by commas. *)
Theorem parseAllowedOrigins_round_trip origins :
  origins <> [] ->
  Forall (fun origin => URL_parses origin = true /\ trimmed origin /\
                        Text.occurrences "," origin = 0%nat) origins ->
  URL_parses EmptyString = false ->
  parseAllowedOrigins (VStr (String.concat "," origins)) = Done origins.
Proof.
  intros Hne Ho Hempty. unfold Validation.parseAllowedOrigins.
  assert (truthy (VStr (String.concat "," origins)) = true) as ->.
  { simpl. apply negb_true_iff, String.eqb_neq. intros E.
    apply concat_empty in E as [-> | ->]; [done |].
    inversion Ho as [| ? ? (Hu & _) _]; subst. congruence. }
  simpl. rewrite split_concat; [| done |].
  - assert (map Text.trim origins = origins) as ->.
    { clear Hne. induction Ho as [| o l (_ & Ht & _) _ IH]; simpl; [done |].
      by rewrite Ht, IH. }
    pose proof (forEach_first origins
                  (fun origin => "Invalid origin URL: " +:+ origin)) as Hf.
    destruct (forEach _ _) as [[] | e]; [done |].
    destruct Hf as (before & origin & after & -> & _ & Hbad & _).
    apply Forall_app in Ho as [_ Ho]. inversion Ho as [| ? ? (Hu & _) _]; subst.
    congruence.
  - eapply Forall_impl; [exact Ho |]. by intros o (_ & _ & H).
Qed.

(** X17. When [parseAllowedOrigins] throws on a text, the message names the
    first piece, trimmed, that is no URL. *)
Theorem parseAllowedOrigins_error s e :
  parseAllowedOrigins (VStr s) = Failed e ->
  exists before origin after,
    map Text.trim (Text.split "," s) = before ++ origin :: after /\
    Forall (fun o => URL_parses o = true) before /\
    URL_parses origin = false /\
    e = JsError ("Invalid origin URL: " +:+ origin).
Proof.
  unfold Validation.parseAllowedOrigins.
  destruct (truthy (VStr s)); simpl; [| discriminate].
  pose proof (forEach_first (map Text.trim (Text.split "," s))
                (fun origin => "Invalid origin URL: " +:+ origin)) as Hf.
  destruct (forEach _ _) as [[] | e']; [discriminate |].
  intros E. inversion E; subst. exact Hf.
Qed.

(** X18. A blank piece (a comma at the start or the end of the text, or two
    commas with nothing but spaces between them) makes the whole call
    throw, the empty text being no URL. *)
Theorem parseAllowedOrigins_blank s piece :
  URL_parses EmptyString = false ->
  s <> EmptyString ->
  In piece (Text.split "," s) -> Text.trim piece = EmptyString ->
  exists origin,
    parseAllowedOrigins (VStr s) =
      Failed (JsError ("Invalid origin URL: " +:+ origin)) /\
    URL_parses origin = false.
Proof.
  intros Hempty Hs Hin Hblank. unfold Validation.parseAllowedOrigins.
  assert (truthy (VStr s) = true) as ->
    by (simpl; by apply negb_true_iff, String.eqb_neq).
  simpl.
  pose proof (forEach_first (map Text.trim (Text.split "," s))
                (fun origin => "Invalid origin URL: " +:+ origin)) as Hf.
  destruct (forEach _ _) as [[] | e].
  - exfalso. rewrite Forall_forall in Hf.
    assert (URL_parses (Text.trim piece) = true) as E.
    { apply Hf. apply list_elem_of_fmap. exists piece.
      split; [done | by apply list_elem_of_In]. }
    congruence.
  - destruct Hf as (before & origin & after & _ & _ & Hbad & ->). eauto.
Qed.

(** ** [validateRedisConfig] *)

Lemma equals_string_empty v : equals_string v EmptyString = true <-> v = VStr EmptyString.
Proof.
  destruct v as [| | | | s |]; simpl; try (split; discriminate).
  destruct s; simpl; split; try done.
Qed.

(** X19. For a configuration object: the call throws unless both
    [REDIS_HOST] and [REDIS_PORT] are truthy; otherwise it returns the
    object it was given, whose password is afterwards never the empty
    text ([undefined] stands in its place); no other property and no
    other object changes, and a second validation changes nothing. *)
Theorem validateRedisConfig_spec l o h :
  h !! l = Some o ->
  (truthy (get_prop o "REDIS_HOST") && truthy (get_prop o "REDIS_PORT") = false ->
     validateRedisConfig (VRef l) h =
       Raise (JsError "Redis host and port are required")) /\
  (truthy (get_prop o "REDIS_HOST") && truthy (get_prop o "REDIS_PORT") = true ->
     exists h',
       validateRedisConfig (VRef l) h = Ok (VRef l) h' /\
       get h' l "REDIS_PASSWORD" <> VStr EmptyString /\
       (get_prop o "REDIS_PASSWORD" = VStr EmptyString ->
          get h' l "REDIS_PASSWORD" = VUndef) /\
       (get_prop o "REDIS_PASSWORD" <> VStr EmptyString -> h' = h) /\
       (forall k, k <> "REDIS_PASSWORD" -> get h' l k = get h l k) /\
       (forall l', l' <> l -> h' !! l' = h !! l') /\
       validateRedisConfig (VRef l) h' = Ok (VRef l) h').
Proof.
  intros Ho. unfold validateRedisConfig. simpl.
  assert (forall k, get h l k = get_prop o k) as Eg
    by (intros k; unfold get; by rewrite Ho).
  rewrite !Eg. split.
  - intros H. apply andb_false_iff in H as [-> | ->]; simpl; [done |].
    by rewrite orb_true_r.
  - intros H. apply andb_true_iff in H as [Hh Hp]. rewrite Hh, Hp. simpl.
    destruct (equals_string (get_prop o "REDIS_PASSWORD") EmptyString) eqn:Ep.
    + apply equals_string_empty in Ep.
      exists (store h l "REDIS_PASSWORD" VUndef).
      assert (get (store h l "REDIS_PASSWORD" VUndef) l "REDIS_PASSWORD" = VUndef)
        as Eu by (by eapply get_store_eq).
      split; [done |]. split; [by rewrite Eu |]. split; [done |].
      split; [intros Hne; by rewrite Ep in Hne |].
      split; [intros k Hk; by apply get_store_ne |].
      split; [intros l' Hl'; by apply lookup_store_ne |].
      rewrite !get_store_ne by done.
      by rewrite !Eg, Hh, Hp, Eu.
    + exists h. split; [done |].
      assert (get_prop o "REDIS_PASSWORD" <> VStr EmptyString) as Hne.
      { intros E. apply equals_string_empty in E. congruence. }
      split; [by rewrite Eg |]. split; [done |]. split; [done |].
      split; [done |]. split; [done |].
      by rewrite !Eg, Hh, Hp, Ep.
Qed.

(** ** [validateJwtConfig] *)

(** X20. When [validateJwtConfig] returns, it returns its argument and
    leaves the store alone, the secret is a string of at least 32
    characters, and each of the two expirations reads as digits followed
    by one of [s], [m], [h], [d].  It throws in every other case, and
    the first check that fails, in the order secret, expiration,
    refresh expiration, gives the message. *)
Theorem validateJwtConfig_spec l o h :
  h !! l = Some o ->
  let accepted_secret :=
    exists secret, get_prop o "JWT_SECRET" = VStr secret /\
                   (32 <= String.length secret)%nat in
  let expires := ToString h (get_prop o "JWT_EXPIRES_IN") in
  let refresh := ToString h (get_prop o "JWT_REFRESH_EXPIRES_IN") in
  (accepted_secret /\ duration expires /\ duration refresh ->
     validateJwtConfig (VRef l) h = Ok (VRef l) h) /\
  (~ accepted_secret ->
     validateJwtConfig (VRef l) h =
       Raise (JsError "JWT_SECRET must be at least 32 characters long")) /\
  (accepted_secret -> ~ duration expires ->
     validateJwtConfig (VRef l) h =
       Raise (JsError "JWT_EXPIRES_IN must be in format: number + s|m|h|d")) /\
  (accepted_secret -> duration expires -> ~ duration refresh ->
     validateJwtConfig (VRef l) h =
       Raise (JsError
                "JWT_REFRESH_EXPIRES_IN must be in format: number + s|m|h|d")).
Proof.
  clear URL_parses.
  intros Ho accepted_secret expires refresh.
  unfold Validation.validateJwtConfig. simpl. unfold get. rewrite Ho.
  fold expires refresh.
  assert (negb (truthy (get_prop o "JWT_SECRET"))
          || negb (typeof_string (get_prop o "JWT_SECRET"))
          || (length_of (get_prop o "JWT_SECRET") <? 32)%Z = false
          <-> accepted_secret) as Hsecret.
  { subst accepted_secret.
    destruct (get_prop o "JWT_SECRET") as [| | b | q | s | l0]; simpl;
      try (split; [discriminate | by intros (? & ? & _)]).
    - rewrite orb_true_r. split; [discriminate | by intros (? & ? & _)].
    - rewrite orb_true_r. simpl. split; [discriminate | by intros (? & ? & _)].
    - rewrite orb_false_r. unfold Str.len. split.
      + intros H. apply orb_false_iff in H as [_ H].
        apply Z.ltb_ge in H. exists s. split; [done | lia].
      + intros (s' & E & Hlen). inversion E; subst s'.
        apply orb_false_iff. split.
        * destruct s; simpl in *; [lia | done].
        * apply Z.ltb_ge. lia. }
  pose proof (expirationRegex_duration expires) as He.
  pose proof (expirationRegex_duration refresh) as Hr.
  destruct (negb (truthy (get_prop o "JWT_SECRET"))
            || negb (typeof_string (get_prop o "JWT_SECRET"))
            || (length_of (get_prop o "JWT_SECRET") <? 32)%Z) eqn:Es.
  - assert (~ accepted_secret) as Hno.
    { intros H. apply Hsecret in H. discriminate. }
    repeat split; intros; tauto.
  - assert accepted_secret as Hyes by (by apply Hsecret).
    destruct (RegExp.test expirationRegex expires) eqn:Ee; simpl.
    + assert (duration expires) as Hde by (by apply He).
      destruct (RegExp.test expirationRegex refresh) eqn:Er; simpl.
      * repeat split; intros; tauto.
      * assert (~ duration refresh) as Hnr.
        { intros H. apply Hr in H. discriminate. }
        repeat split; intros; tauto.
    + assert (~ duration expires) as Hne.
      { intros H. apply He in H. discriminate. }
      repeat split; intros; tauto.
Qed.

End ValidationFacts.

(** ** The configuration service *)

Section ConfigServiceFacts.
Import JS Validation ConfigService.
Variable URL_parses : string -> bool.
Variable object_text : heap -> loc -> string.
Variable nestConfigService_get : string -> val.
Variable validateEnvironmentConfig : val -> C val.

(** X21. Whatever the environment holds, [loadConfiguration] throws, so the
    constructor of the configuration service never returns: when the
    allowed origins parse, the object handed to [validateRedisConfig]
    has the keys [host] and [port], while the helper reads [REDIS_HOST]
    and [REDIS_PORT], finds them [undefined] and throws; the validation
    of the whole configuration is never reached. *)
Theorem loadConfiguration_throws h :
  loadConfiguration URL_parses object_text nestConfigService_get
    validateEnvironmentConfig h =
  match
    parseAllowedOrigins URL_parses (nestConfigService_get "ALLOWED_ORIGINS")
  with
  | Done _ => Raise (JsError "Redis host and port are required")
  | Failed e => Raise e
  end.
Proof.
  unfold loadConfiguration, bind at 1, lift.
  destruct (parseAllowedOrigins URL_parses
              (nestConfigService_get "ALLOWED_ORIGINS"))
    as [origins | e]; [| done].
  unfold bind at 1, new at 1. simpl.
  unfold bind at 1, new at 1. simpl.
  unfold bind at 1, bind at 1, new at 1. simpl.
  unfold validateRedisConfig. simpl.
  rewrite (get_here _ _ [] "REDIS_HOST"). reflexivity.
Qed.

End ConfigServiceFacts.

(** * More instances *)

Section MoreInstances.
Import Interfaces Effects JS Redaction LoggingService Validation
  ConfigService Examples Scenarios.

(** ** Redaction *)

(** The store of the request to [/status] has no sensitive key: the
    run leaves it as it is. *)
Lemma redaction_without_match_witness :
  (forall l o k,
     objects plain_body_world !! l = Some o -> In k (keys o) ->
     matches (redactedFields config) k = false) /\
  redactSensitiveData (VRef 1) (redactedFields config) 0
    (objects plain_body_world) = objects plain_body_world.
Proof.
  assert (forall l o k,
            objects plain_body_world !! l = Some o -> In k (keys o) ->
            matches (redactedFields config) k = false) as H.
  { intros [| [| l]] o k Ho Hk; simpl in Ho; inversion Ho; subst;
      simpl in Hk; intuition (subst; reflexivity). }
  split; [exact H |].
  exact (redaction_without_match (redactedFields config) (VRef 1) 0%nat
           (objects plain_body_world) H).
Defined.

(** A second run changes nothing, here on the nested user. *)
Example redaction_twice :
  let once := redactSensitiveData (VRef 0) (redactedFields config) 0
                nested_user in
  once = [plain [("user", VRef 1)];
          plain [("name", VStr "a"); ("password", VStr REDACTED)]] /\
  redactSensitiveData (VRef 0) (redactedFields config) 0 once = once.
Proof. split; reflexivity. Qed.

(** ** The formats *)

(** The custom format replaces the context the entry came with. *)
Lemma createCustomFormat_context_witness :
  objects entry_world !! 0%nat =
    Some (plain [("level", VStr "info"); ("message", VStr "started");
                 ("context", VStr "stale")]) /\
  exists c w',
    createCustomFormat config platform (VRef 0) entry_world
      = Returns (VRef 0) w' /\
    get (objects w') 0 "context" = VRef c /\
    get (objects w') c "hostname" = VStr "api-1" /\
    get (objects w') 0 "message" = VStr "started" /\
    observations w' = 8%nat.
Proof.
  split; [reflexivity |].
  destruct (createCustomFormat_context config platform 0%nat _ entry_world
              eq_refl) as (w' & Hrun & _ & _ & H).
  destruct (H eq_refl) as (c & m & _ & _ & Hc & Hh & _ & _ & _ & Ho & Hk & _).
  exists c, w'. split; [exact Hrun |]. split; [exact Hc |].
  split; [exact Hh |]. split; [| exact Ho].
  rewrite Hk; [reflexivity | discriminate].
Defined.

(** ** The leveled methods *)

(** [error] without an error, with a bag that has an [error] of its
    own and inherits a [service]: the entry keeps the user and loses
    both. *)
Lemma error_slots_witness :
  objects bag_world !! 0%nat =
    Some (Obj false [("user", VStr "ann"); ("error", VStr "mine")]
                    [("service", VStr "inherited")]) /\
  exists e w',
    error config platform "failed" VUndef (VRef 0) bag_world = Returns tt w' /\
    get (objects w') e "user" = VStr "ann" /\
    get (objects w') e "service" = VUndef /\
    get (objects w') e "error" = VUndef.
Proof.
  split; [reflexivity |].
  destruct (error_slots config platform "failed" VUndef 0%nat _ bag_world
              eq_refl) as (e & w' & Hrun & _ & Hslots & Hnone & _).
  exists e, w'. split; [exact Hrun |].
  rewrite Forall_forall in Hslots.
  split; [| split].
  - apply (Hslots "user"); [| discriminate].
    apply list_elem_of_In. simpl. tauto.
  - apply (Hslots "service"); [| discriminate].
    apply list_elem_of_In. simpl. tauto.
  - by apply Hnone.
Defined.

(** ** Request and response capture *)

Lemma login_closed : JSON.closed (objects login_world).
Proof. unfold JSON.closed. simpl. repeat constructor. Qed.

Lemma login_serializes extra :
  JSON.stringify (objects login_world ++ extra) (VRef 1) = Text login_text.
Proof.
  rewrite stringify_extends; [reflexivity | apply login_closed | simpl; lia].
Qed.

Lemma login_request_serializes extra :
  JSON.stringify (objects login_world ++ extra) (req_body login_request)
  = Text login_text.
Proof. apply login_serializes. Qed.

Lemma login_not_excluded :
  ~ In (req_path login_request) (excludePaths requestConfig).
Proof. simpl. intros [E | [E | []]]; discriminate E. Qed.

(** The view of the request to [/login] holds the body itself. *)
Lemma logRequest_view_witness :
  (req_headers login_request < length (objects login_world))%nat /\
  ~ In (req_path login_request) (excludePaths requestConfig) /\
  exists e view w',
    logRequest config requestConfig platform JSON.stringify
      login_request (VStr "req-7") login_world = Returns tt w' /\
    get (objects w') e "correlationId" = VStr "req-7" /\
    get (objects w') e "request" = VRef view /\
    get (objects w') view "method" = VStr "POST" /\
    get (objects w') view "query" = VUndef /\
    get (objects w') view "body" = VRef 1.
Proof.
  assert (req_headers login_request < length (objects login_world))%nat
    as Hrh by (simpl; lia).
  split; [exact Hrh |]. split; [exact login_not_excluded |].
  destruct (logRequest_view config requestConfig platform JSON.stringify
              login_request (VStr "req-7") login_world Hrh login_not_excluded)
    as (e & view & w' & Hrun & _ & Hcid & He & Hm & _ & _ & Hq & _ & Hbody).
  { intros _ extra. exists login_text. apply login_serializes. }
  exists e, view, w'. split; [exact Hrun |]. split; [exact Hcid |].
  split; [exact He |]. split; [exact Hm |]. split; [exact Hq |].
  destruct (Hbody eq_refl) as (extra & s & Hs & Hfits & _).
  rewrite (login_request_serializes extra) in Hs. injection Hs as <-.
  apply Hfits. by vm_compute.
Defined.

Lemma captured_closed : JSON.closed (objects captured_body_world).
Proof. unfold JSON.closed. simpl. repeat constructor; simpl; lia. Qed.

(** The view of a response with a start time: 1.5 milliseconds. *)
Lemma logResponse_view_witness :
  (res_locals ok_response < length (objects captured_body_world))%nat /\
  exists e view w',
    logResponse config requestConfig platform JSON.stringify
      ok_response (VRef 0) VUndef captured_body_world = Returns tt w' /\
    get (objects w') e "response" = VRef view /\
    get (objects w') view "timing" =
      VNum (inject_Z 0 * inject_Z 1000
            + inject_Z 1500000 / inject_Z 1000000)%Q /\
    get (objects w') view "body" = VRef 1.
Proof.
  assert (res_locals ok_response < length (objects captured_body_world))%nat
    as Hloc by (simpl; lia).
  split; [exact Hloc |].
  destruct (logResponse_view config requestConfig platform JSON.stringify
              ok_response (VRef 0) VUndef captured_body_world Hloc)
    as (e & view & w' & Hrun & _ & _ & He & _ & Htime & _ & Hbody).
  { intros _. apply captured_body_serializes. }
  exists e, view, w'. split; [exact Hrun |]. split; [exact He |].
  split; [exact (proj1 (Htime eq_refl)) |].
  destruct (Hbody eq_refl) as (extra & s & Hs & Hfits & _).
  rewrite stringify_extends in Hs;
    [| apply captured_closed | simpl; lia].
  vm_compute in Hs. injection Hs as <-.
  apply Hfits. by vm_compute.
Defined.

(** A request whose body refers to itself cannot be previewed: its
    capture throws, the logger has been handed nothing, and the
    request's objects are as they were. *)
Lemma failed_capture_leaves_store_witness :
  (req_headers status_request < length (objects circular_body_world))%nat /\
  (res_locals ok_response < length (objects circular_body_world))%nat /\
  exists w' new,
    logRequest config requestConfig platform JSON.stringify
      status_request VUndef circular_body_world = Throws w' /\
    calls w' = [] /\
    objects w' = objects circular_body_world ++ new.
Proof.
  assert (req_headers status_request < length (objects circular_body_world))%nat
    as Hrh by (simpl; lia).
  assert (res_locals ok_response < length (objects circular_body_world))%nat
    as Hloc by (simpl; lia).
  split; [exact Hrh |]. split; [exact Hloc |].
  destruct (failed_capture_leaves_store config requestConfig platform
              JSON.stringify status_request ok_response VUndef VUndef
              circular_body_world Hrh Hloc) as [H _].
  assert (exists w',
            logRequest config requestConfig platform JSON.stringify
              status_request VUndef circular_body_world = Throws w')
    as [w' E] by (eexists; vm_compute; reflexivity).
  destruct (H w' E) as [Hcalls [new Hnew]].
  by exists w', new.
Defined.

(** The password of the request to [/login] is gone from the request
    itself once its entry has been through the redaction format. *)
Lemma redaction_reaches_request_witness :
  field (objects login_world) 1 "password" = Some (VStr "hunter2") /\
  (req_headers login_request < length (objects login_world))%nat /\
  ~ In (req_path login_request) (excludePaths requestConfig) /\
  Str.len login_text <= maxBodyLength requestConfig /\
  exists e w' w2,
    logRequest config requestConfig platform JSON.stringify
      login_request VUndef login_world = Returns tt w' /\
    calls w' = [Call "info" "Incoming request" (VRef e)] /\
    createRedactionFormat config (VRef e) w' = Returns (VRef e) w2 /\
    field (objects w2) 1 "password" = Some (VStr REDACTED).
Proof.
  assert (req_headers login_request < length (objects login_world))%nat
    as Hrh by (simpl; lia).
  assert (Str.len login_text <= maxBodyLength requestConfig) as Hlen
    by (by vm_compute).
  split; [reflexivity |]. split; [exact Hrh |].
  split; [exact login_not_excluded |]. split; [exact Hlen |].
  destruct (redaction_reaches_request config requestConfig platform
              JSON.stringify login_request VUndef login_world "body" 1%nat
              (plain [("password", VStr "hunter2"); ("user", VStr "ann")])
              "password" (VStr "hunter2") Hrh login_not_excluded)
    as (e & view & w' & Hrun & Hcalls & He & _ & Hall).
  - intros _ extra. exists login_text. apply login_request_serializes.
  - left. split; [reflexivity |]. split; [reflexivity |].
    split; [reflexivity |]. intros extra s Hs.
    rewrite login_serializes in Hs. by injection Hs as <-.
  - reflexivity.
  - reflexivity.
  - reflexivity.
  - reflexivity.
  - destruct (Hall [] (VRef e) ["request"] w') as (w2 & Hfmt & Hfield).
    + symmetry. apply app_nil_r.
    + simpl. by rewrite He.
    + simpl. lia.
    + by repeat constructor.
    + by exists e, w', w2.
Defined.

(** With a limit of 20 characters the same request is logged as a
    preview, and the preview shows the password after redaction. *)
Lemma preview_survives_redaction_witness :
  (req_headers login_request < length (objects login_world))%nat /\
  ~ In (req_path login_request) (excludePaths requestConfig20) /\
  Str.len login_text > maxBodyLength requestConfig20 /\
  exists e w' w2 preview,
    logRequest config requestConfig20 platform JSON.stringify
      login_request VUndef login_world = Returns tt w' /\
    calls w' = [Call "info" "Incoming request" (VRef e)] /\
    createRedactionFormat config (VRef e) w' = Returns (VRef e) w2 /\
    walk (objects w2) (VRef e) ["request"; "body"; "preview"] =
      Some (VStr preview) /\
    String.index 0 "hunter2" preview = Some 13%nat.
Proof.
  assert (req_headers login_request < length (objects login_world))%nat
    as Hrh by (simpl; lia).
  assert (Str.len login_text > maxBodyLength requestConfig20) as Hlen
    by (by vm_compute).
  split; [exact Hrh |]. split; [exact login_not_excluded |].
  split; [exact Hlen |].
  destruct (preview_survives_redaction config requestConfig20 platform
              JSON.stringify login_request VUndef login_world login_text
              Hrh login_not_excluded eq_refl login_request_serializes Hlen
              eq_refl eq_refl)
    as (e & view & w' & Hrun & Hcalls & He & Hall).
  destruct (Hall [] (VRef e) ["request"] w') as (w2 & Hfmt & Hwalk).
  - symmetry. apply app_nil_r.
  - simpl. by rewrite He.
  - by repeat constructor.
  - exists e, w', w2. eexists. split; [exact Hrun |]. split; [exact Hcalls |].
    split; [exact Hfmt |]. split; [exact Hwalk |]. by vm_compute.
Defined.

(** ** Delivery *)

(** An error entry of the sample configuration is in [combined.log]
    too. *)
Lemma file_sinks_witness :
  is_level (level config) /\
  In (Winston.File "/var/log/app/combined.log")
     (Winston.delivered (initializeLogger config) "error").
Proof.
  assert (is_level (level config)) as Hmin
    by (right; right; left; reflexivity).
  split; [exact Hmin |].
  destruct (file_sinks config "error" Hmin) as [_ H].
  destruct (H "/var/log/app" eq_refl) as [Hc _]; [| exact Hc].
  right. left. reflexivity.
Defined.

(** ** The configuration helpers *)

(** The allowed origins of the development environment file. *)
Lemma parseAllowedOrigins_result_witness :
  parseAllowedOrigins http_url (VStr allowed_origins) =
    Done ["http://localhost:3000"; "http://localhost:3001"] /\
  Forall (fun origin => http_url origin = true /\ trimmed origin)
         ["http://localhost:3000"; "http://localhost:3001"] /\
  Text.occurrences "," allowed_origins = 1%nat.
Proof.
  assert (parseAllowedOrigins http_url (VStr allowed_origins) =
            Done ["http://localhost:3000"; "http://localhost:3001"]) as E
    by reflexivity.
  split; [exact E |].
  destruct (parseAllowedOrigins_result http_url _ _ E) as (H & _ & Hn).
  split; [exact H |].
  destruct (Hn eq_refl) as (s & Es & Hlen). injection Es as <-.
  cbn [length] in Hlen. lia.
Defined.

Lemma parseAllowedOrigins_round_trip_witness :
  ["http://localhost:3000"; "http://localhost:3001"] <> [] /\
  http_url EmptyString = false /\
  parseAllowedOrigins http_url (VStr allowed_origins) =
    Done ["http://localhost:3000"; "http://localhost:3001"].
Proof.
  split; [discriminate |]. split; [reflexivity |].
  apply (parseAllowedOrigins_round_trip http_url
           ["http://localhost:3000"; "http://localhost:3001"]);
    [discriminate | | reflexivity].
  repeat constructor.
Defined.

(** A second origin without a scheme: the message names it, trimmed. *)
Lemma parseAllowedOrigins_error_witness :
  parseAllowedOrigins http_url (VStr "http://localhost:3000, localhost")
    = Failed (JsError "Invalid origin URL: localhost") /\
  exists before origin after,
    map Text.trim (Text.split "," "http://localhost:3000, localhost")
      = before ++ origin :: after /\
    Forall (fun o => http_url o = true) before /\
    http_url origin = false /\
    JsError "Invalid origin URL: localhost"
      = JsError ("Invalid origin URL: " +:+ origin).
Proof.
  assert (parseAllowedOrigins http_url
            (VStr "http://localhost:3000, localhost")
          = Failed (JsError "Invalid origin URL: localhost")) as E
    by reflexivity.
  split; [exact E |].
  exact (parseAllowedOrigins_error http_url _ _ E).
Defined.

(** A comma at the end. *)
Lemma parseAllowedOrigins_blank_witness :
  http_url EmptyString = false /\
  In EmptyString (Text.split "," "http://localhost:3000,") /\
  exists origin,
    parseAllowedOrigins http_url (VStr "http://localhost:3000,") =
      Failed (JsError ("Invalid origin URL: " +:+ origin)) /\
    http_url origin = false.
Proof.
  assert (In EmptyString (Text.split "," "http://localhost:3000,")) as Hin
    by (simpl; tauto).
  split; [reflexivity |]. split; [exact Hin |].
  apply (parseAllowedOrigins_blank http_url "http://localhost:3000,"
           EmptyString); [reflexivity | discriminate | exact Hin | reflexivity].
Defined.

(** The empty password of the environment files becomes [undefined]. *)
Lemma validateRedisConfig_spec_witness :
  redis_store !! 0%nat =
    Some (plain [("REDIS_HOST", VStr "localhost");
                 ("REDIS_PORT", num 6379);
                 ("REDIS_PASSWORD", VStr EmptyString);
                 ("REDIS_DB", num 0)]) /\
  exists h',
    validateRedisConfig (VRef 0) redis_store = Ok (VRef 0) h' /\
    get h' 0 "REDIS_PASSWORD" = VUndef /\
    get h' 0 "REDIS_HOST" = VStr "localhost".
Proof.
  split; [reflexivity |].
  destruct (validateRedisConfig_spec 0%nat _ redis_store eq_refl) as [_ H].
  destruct (H eq_refl) as (h' & Hrun & _ & Hempty & _ & Hother & _).
  exists h'. split; [exact Hrun |]. split; [by apply Hempty |].
  rewrite Hother; [reflexivity | discriminate].
Defined.

Lemma duration_15m : duration "15m".
Proof.
  exists ["1"; "5"]%char, "m"%char. repeat split; try done.
  - by repeat constructor.
  - simpl. tauto.
Qed.

Lemma duration_7d : duration "7d".
Proof.
  exists ["7"]%char, "d"%char. repeat split; try done.
  - by repeat constructor.
  - simpl. tauto.
Qed.

(** The secret of the development environment file with expirations
    of 15 minutes and 7 days. *)
Lemma validateJwtConfig_spec_witness :
  jwt_store !! 0%nat =
    Some (plain [("JWT_SECRET", VStr "dev-jwt-secret-replace-in-production");
                 ("JWT_EXPIRES_IN", VStr "15m");
                 ("JWT_REFRESH_EXPIRES_IN", VStr "7d")]) /\
  validateJwtConfig object_text (VRef 0) jwt_store = Ok (VRef 0) jwt_store.
Proof.
  split; [reflexivity |].
  destruct (validateJwtConfig_spec object_text 0%nat _ jwt_store eq_refl)
    as [H _].
  apply H. split; [| split].
  - eexists. split; [reflexivity |]. simpl. lia.
  - exact duration_15m.
  - exact duration_7d.
Defined.

(** The secret of the test environment file is too short. *)
Example test_secret_rejected :
  validateJwtConfig object_text (VRef 0)
    [plain [("JWT_SECRET", VStr "test-jwt-secret");
            ("JWT_EXPIRES_IN", VStr "15m");
            ("JWT_REFRESH_EXPIRES_IN", VStr "7d")]]
  = Raise (JsError "JWT_SECRET must be at least 32 characters long").
Proof. reflexivity. Qed.

(** With the variables of the development environment file the
    constructor of the configuration service throws. *)
Example loadConfiguration_development :
  loadConfiguration http_url object_text
    (fun key =>
       if String.eqb key "ALLOWED_ORIGINS" then VStr allowed_origins
       else if String.eqb key "REDIS_HOST" then VStr "localhost"
       else if String.eqb key "REDIS_PORT" then num 6379
       else if String.eqb key "NODE_ENV" then VStr "development"
       else VUndef)
    (fun rawConfig h => Ok rawConfig h) []
  = Raise (JsError "Redis host and port are required").
Proof. reflexivity. Qed.

End MoreInstances.
